(** * Adrift relay server: the multiplexing protocol engine

    A shallow embedding of [src/server/src/server.ts] (class [AdriftServer])
    and of the JavaScript platform functions it calls, followed by the
    properties of the relay that the specification states.

    Layout of the development:
    - [Js]      thrown values and the result of a computation that may throw;
    - [Buf]     [ArrayBuffer], [DataView] and [Uint8Array] on byte lists;
    - [Text]    [TextDecoder] and [TextEncoder] (UTF-8, WHATWG Encoding);
    - [Json]    [JSON.parse] and [JSON.stringify];
    - [Relay]   the server itself: state, the send functions, [onMsg],
                the WebSocket handlers and [onClose];
    - [Sample]  the instances of the worked examples;
    - the properties, from the codec up to the claims of the
      specification, and the claims on the worked examples;
    - further properties of the relay, on every input and on the worked
      examples.

    Conventions of the embedding:
    - a method of the server is a function from the state of the server
      to a result, which is a value or a thrown value, and a new state;
      the promise of an [async] method resolves where the function
      returns and rejects where it throws;
    - one call of a handler is followed from its start to its end in one
      piece: what other handlers do while it awaits is not part of the
      call;
    - the collaborators (the fetch, the [URL] and [WebSocket]
      constructors, the calls on a socket) answer as an argument of the
      call says, so that a theorem about every argument is a theorem
      about every behaviour of theirs; the body of a response is the
      finite list of the chunks that iterating it yields, and the error
      that ends the iteration when the stream fails; a body that neither
      ends nor fails leaves the handler suspended for ever, and is no
      call of which the theorems speak;
    - the operation codes of the [protocol] package and the tables of the
      platform are parameters;
    - what the source writes to the console is not part of the state. *)

From Stdlib Require Import NArith ZArith Strings.Byte Strings.Ascii Strings.String List Lia.
From Stdlib Require Import DecimalString.
From Stdlib Require DecimalN.
From stdpp Require Import gmap list strings.

Local Open Scope N_scope.

(** A JavaScript string is a sequence of UTF-16 code units. *)
Abbreviation jsstring := (list N).

(** The code units of an ASCII literal, to write examples legibly. *)
Definition str (s : string) : jsstring := map Byte.to_N (list_byte_of_string s).

(** The bytes of an ASCII literal. *)
Definition bytes (s : string) : list byte := list_byte_of_string s.

(** The literal [s] with a double quote for each apostrophe, to write the
    JSON texts of the examples. *)
Fixpoint dq (s : string) : string :=
  match s with
  | EmptyString => EmptyString
  | String c rest =>
      String (if Ascii.eqb c "'"%char then Ascii.ascii_of_nat 34 else c) (dq rest)
  end.

(** ** Thrown values *)

Module Js.

(** The body of a [BareError] (declared in [./http], a structured error of
    the fetch collaborator): [{code, id, message?, stack?}], as the source
    builds it in [onMsg]. *)
Record BareErrorBody := {
  code : jsstring;
  id : jsstring;
  message : option jsstring;
  stack : option jsstring;
}.

(** The classes of [Error] the source tells apart with [instanceof]. *)
Inductive ErrorClass :=
| RangeError
| SyntaxError
| TypeError
| OtherError (name : jsstring).

(** What a [throw] can carry. *)
Inductive Thrown :=
| BareError (status : N) (body : BareErrorBody)
| Error (cls : ErrorClass) (msg : jsstring) (stk : option jsstring)
| Value (text : jsstring).       (* not an [Error]; [text] is [String(e)] *)

(** [e.name] of an [Error]. *)
Definition error_name (c : ErrorClass) : jsstring :=
  match c with
  | RangeError => str "RangeError"
  | SyntaxError => str "SyntaxError"
  | TypeError => str "TypeError"
  | OtherError n => n
  end.

(** A computation that returns or throws. *)
Inductive Res (A : Type) :=
| Ret (a : A)
| Throw (e : Thrown).
Arguments Ret {A} a.
Arguments Throw {A} e.

Definition bind {A B} (c : Res A) (k : A -> Res B) : Res B :=
  match c with
  | Ret a => k a
  | Throw e => Throw e
  end.

(** [try { c } catch (e) { h e }] *)
Definition try_catch {A} (c : Res A) (h : Thrown -> Res A) : Res A :=
  match c with
  | Ret a => Ret a
  | Throw e => h e
  end.

Definition throws {A} (c : Res A) : Prop :=
  match c with Ret _ => False | Throw _ => True end.

End Js.

Notation "'let?' x ':=' c 'in' k" := (Js.bind c (fun x => k))
  (at level 10, x pattern, c at level 100, k at level 200).

(** ** ArrayBuffer, DataView, Uint8Array *)

Module Buf.
Import Js.

(** The byte holding [n] modulo 256: the conversion of [setUint8] and of a
    typed array store. *)
Definition u8 (n : N) : byte :=
  match Byte.of_N (n `mod` 256) with
  | Some b => b
  | None => x00
  end.

(** [new ArrayBuffer(n)]: [n] zero bytes. *)
Definition ArrayBuffer (n : nat) : list byte := repeat x00 n.

Definition out_of_bounds : Thrown :=
  Error RangeError (str "Offset is outside the bounds of the DataView") None.

(** [dataView.getUint16(off)], big-endian. *)
Definition getUint16 (buf : list byte) (off : nat) : Res N :=
  match buf !! off, buf !! S off with
  | Some hi, Some lo => Ret (256 * Byte.to_N hi + Byte.to_N lo)
  | _, _ => Throw out_of_bounds
  end.

(** [dataView.getUint8(off)]. *)
Definition getUint8 (buf : list byte) (off : nat) : Res N :=
  match buf !! off with
  | Some b => Ret (Byte.to_N b)
  | None => Throw out_of_bounds
  end.

(** [dataView.setUint16(off, v)], big-endian; [v] is taken modulo 2^16. *)
Definition setUint16 (buf : list byte) (off : nat) (v : N) : Res (list byte) :=
  if decide (S off < length buf)%nat
  then Ret (<[S off := u8 v]> (<[off := u8 (v `div` 256)]> buf))
  else Throw out_of_bounds.

(** [dataView.setUint8(off, v)]; [v] is taken modulo 2^8. *)
Definition setUint8 (buf : list byte) (off : nat) (v : N) : Res (list byte) :=
  if decide (off < length buf)%nat
  then Ret (<[off := u8 v]> buf)
  else Throw out_of_bounds.

(** [new Uint8Array(buf).set(src, off)]. *)
Definition Uint8Array_set (buf src : list byte) (off : nat) : Res (list byte) :=
  if decide (off + length src <= length buf)%nat
  then Ret (take off buf ++ src ++ drop (off + length src) buf)
  else Throw (Error RangeError (str "offset is out of bounds") None).

(** [buf.slice(off)]. *)
Definition slice (buf : list byte) (off : nat) : list byte := drop off buf.

End Buf.

(** ** TextDecoder and TextEncoder

    [new TextDecoder()] is the UTF-8 decoder of the WHATWG Encoding
    standard in its default, non-fatal mode: a malformed sequence does not
    raise, it is replaced by U+FFFD. *)

Module Text.

Definition replacement : N := 0xFFFD.

(** The decoder between two bytes: the code point under construction, the
    continuation bytes still needed, and the range allowed for the next
    byte. *)
Record Decoder := {
  code_point : N;
  needed : nat;
  lower : N;
  upper : N;
}.

Definition idle : Decoder :=
  {| code_point := 0; needed := 0; lower := 0x80; upper := 0xBF |}.

Definition between (lo hi b : N) : bool := (lo <=? b) && (b <=? hi).

(** One step yields the next decoder state, the code points emitted and
    whether the step met a malformed sequence. *)
Definition Step : Type := Decoder * list N * bool.

(** A byte read while no sequence is open. *)
Definition lead (b : N) : Step :=
  if b <=? 0x7F then (idle, [b], false)
  else if between 0xC2 0xDF b then
    ({| code_point := N.land b 0x1F; needed := 1;
        lower := 0x80; upper := 0xBF |}, [], false)
  else if between 0xE0 0xEF b then
    ({| code_point := N.land b 0xF; needed := 2;
        lower := if b =? 0xE0 then 0xA0 else 0x80;
        upper := if b =? 0xED then 0x9F else 0xBF |}, [], false)
  else if between 0xF0 0xF4 b then
    ({| code_point := N.land b 0x7; needed := 3;
        lower := if b =? 0xF0 then 0x90 else 0x80;
        upper := if b =? 0xF4 then 0x8F else 0xBF |}, [], false)
  else (idle, [replacement], true).

Definition feed (d : Decoder) (b : N) : Step :=
  match needed d with
  | O => lead b
  | S k =>
      if between (lower d) (upper d) b then
        let cp := N.lor (N.shiftl (code_point d) 6) (N.land b 0x3F) in
        match k with
        | O => (idle, [cp], false)
        | S _ => ({| code_point := cp; needed := k;
                     lower := 0x80; upper := 0xBF |}, [], false)
        end
      else
        (* the sequence is cut short: U+FFFD, and the byte is read again *)
        let '(d', out, _) := lead b in (d', replacement :: out, true)
  end.

(** The code points of a byte string and whether it was well-formed. *)
Fixpoint scan (d : Decoder) (bs : list byte) : list N * bool :=
  match bs with
  | [] =>
      match needed d with
      | O => ([], true)
      | S _ => ([replacement], false)
      end
  | b :: rest =>
      let '(d', out, bad) := feed d (Byte.to_N b) in
      let '(cps, ok) := scan d' rest in
      (out ++ cps, negb bad && ok)
  end.

(** A leading byte order mark is dropped. *)
Definition strip_bom (bs : list byte) : list byte :=
  match bs with
  | xef :: xbb :: xbf :: rest => rest
  | _ => bs
  end.

(** The UTF-16 code units of a code point. *)
Definition code_units (cp : N) : jsstring :=
  if cp <? 0x10000 then [cp]
  else [0xD800 + (cp - 0x10000) `div` 0x400;
        0xDC00 + (cp - 0x10000) `mod` 0x400].

(** [new TextDecoder().decode(bytes)] *)
Definition decode (bs : list byte) : jsstring :=
  concat (map code_units (fst (scan idle (strip_bom bs)))).

(** Whether a byte string is well-formed UTF-8. *)
Definition valid_utf8 (bs : list byte) : bool := snd (scan idle bs).

Definition is_lead (u : N) : bool := between 0xD800 0xDBFF u.
Definition is_trail (u : N) : bool := between 0xDC00 0xDFFF u.

(** The code points of a string; a surrogate without its partner becomes
    U+FFFD. *)
Fixpoint code_points (s : jsstring) : list N :=
  match s with
  | [] => []
  | u :: rest =>
      if is_lead u then
        match rest with
        | v :: rest' =>
            if is_trail v
            then (0x10000 + (u - 0xD800) * 0x400 + (v - 0xDC00)) :: code_points rest'
            else replacement :: code_points rest
        | [] => [replacement]
        end
      else if is_trail u then replacement :: code_points rest
      else u :: code_points rest
  end.

(** The UTF-8 bytes of a code point. *)
Definition utf8 (cp : N) : list byte :=
  if cp <? 0x80 then [Buf.u8 cp]
  else if cp <? 0x800 then
    [Buf.u8 (0xC0 + cp `div` 0x40); Buf.u8 (0x80 + cp `mod` 0x40)]
  else if cp <? 0x10000 then
    [Buf.u8 (0xE0 + cp `div` 0x1000);
     Buf.u8 (0x80 + (cp `div` 0x40) `mod` 0x40);
     Buf.u8 (0x80 + cp `mod` 0x40)]
  else
    [Buf.u8 (0xF0 + cp `div` 0x40000);
     Buf.u8 (0x80 + (cp `div` 0x1000) `mod` 0x40);
     Buf.u8 (0x80 + (cp `div` 0x40) `mod` 0x40);
     Buf.u8 (0x80 + cp `mod` 0x40)].

(** [new TextEncoder().encode(s)] *)
Definition encode (s : jsstring) : list byte :=
  concat (map utf8 (code_points s)).

(** Whether a string is well-formed UTF-16: its elements are code units,
    and every surrogate is half of a pair. *)
Fixpoint well_formed (s : jsstring) : bool :=
  match s with
  | [] => true
  | u :: rest =>
      if is_lead u then
        match rest with
        | v :: rest' => is_trail v && well_formed rest'
        | [] => false
        end
      else negb (is_trail u) && (u <? 0x10000) && well_formed rest
  end.

(** The code points that have an encoding: the Unicode scalar values. *)
Definition scalar (cp : N) : Prop :=
  cp < 0x110000 /\ ~ (0xD800 <= cp <= 0xDFFF).

(** A string whose elements are UTF-16 code units. *)
Definition units (s : jsstring) : Prop := Forall (fun u => u < 0x10000) s.

End Text.

(** ** JSON *)

Module Json.
Import Js.

(** A number of a JSON text, kept as the decimal it is written as:
    [(-1)^negative * digits * 10^exponent]. *)
Record Decimal := {
  negative : bool;
  digits : N;
  exponent : Z;
}.

#[local] Set Warnings "-register-all".
Inductive Value :=
| Null
| Bool (b : bool)
| Number (d : Decimal)
| String (s : jsstring)
| Array (elements : list Value)
| Object (members : list (jsstring * Value)).
#[local] Set Warnings "register-all".

(** *** Lexical analysis *)

Inductive Token :=
| TLBrace | TRBrace | TLBracket | TRBracket | TColon | TComma
| TString (s : jsstring)
| TNumber (d : Decimal)
| TLiteral (v : Value).           (* [true], [false], [null] *)

(** How far a number has been read. *)
Inductive NumPhase :=
| NMinus        (* after the sign: a digit must follow *)
| NZero         (* the integer part is a single 0 *)
| NInt          (* in the integer part *)
| NDot          (* after the point: a digit must follow *)
| NFrac         (* in the fraction *)
| NExp          (* after e or E: a sign or a digit must follow *)
| NExpSign      (* after the sign of the exponent: a digit must follow *)
| NExpDigits.   (* in the exponent *)

Record NumAcc := {
  acc_negative : bool;
  acc_digits : N;         (* integer and fraction digits read so far *)
  acc_fraction : N;       (* how many of them are fraction digits *)
  acc_exp_negative : bool;
  acc_exp : N;
}.

Definition decimal_of (a : NumAcc) : Decimal :=
  {| negative := acc_negative a;
     digits := acc_digits a;
     exponent := (if acc_exp_negative a then - Z.of_N (acc_exp a) else Z.of_N (acc_exp a))
                 - Z.of_N (acc_fraction a) |}.

Inductive LexState :=
| LStart
| LLiteral (rest : jsstring) (v : Value)   (* the characters still expected *)
| LString (acc : jsstring)                 (* in a string; [acc] is reversed *)
| LEscape (acc : jsstring)                 (* after a backslash *)
| LHex (acc : jsstring) (togo : nat) (v : N)   (* in \uXXXX, [togo] digits to go *)
| LNumber (ph : NumPhase) (a : NumAcc).

Definition digit (c : N) : option N :=
  if Text.between 0x30 0x39 c then Some (c - 0x30) else None.

Definition hex_digit (c : N) : option N :=
  if Text.between 0x30 0x39 c then Some (c - 0x30)
  else if Text.between 0x41 0x46 c then Some (c - 0x41 + 10)
  else if Text.between 0x61 0x66 c then Some (c - 0x61 + 10)
  else None.

Definition whitespace (c : N) : bool :=
  (c =? 0x20) || (c =? 0x09) || (c =? 0x0A) || (c =? 0x0D).

Definition fresh (neg : bool) (d : N) : NumAcc :=
  {| acc_negative := neg; acc_digits := d; acc_fraction := 0;
     acc_exp_negative := false; acc_exp := 0 |}.

(** A character read between two tokens. *)
Definition start_char (c : N) : option (LexState * list Token) :=
  if whitespace c then Some (LStart, [])
  else if c =? 0x7B then Some (LStart, [TLBrace])
  else if c =? 0x7D then Some (LStart, [TRBrace])
  else if c =? 0x5B then Some (LStart, [TLBracket])
  else if c =? 0x5D then Some (LStart, [TRBracket])
  else if c =? 0x3A then Some (LStart, [TColon])
  else if c =? 0x2C then Some (LStart, [TComma])
  else if c =? 0x22 then Some (LString [], [])
  else if c =? 0x2D then Some (LNumber NMinus (fresh true 0), [])
  else if c =? 0x30 then Some (LNumber NZero (fresh false 0), [])
  else if c =? 0x74 then Some (LLiteral (str "rue") (Bool true), [])
  else if c =? 0x66 then Some (LLiteral (str "alse") (Bool false), [])
  else if c =? 0x6E then Some (LLiteral (str "ull") Null, [])
  else match digit c with
       | Some d => Some (LNumber NInt (fresh false d), [])
       | None => None
       end.

Definition is_e (c : N) : bool := (c =? 0x65) || (c =? 0x45).

Definition push_digit (a : NumAcc) (d : N) (fraction : bool) : NumAcc :=
  {| acc_negative := acc_negative a;
     acc_digits := 10 * acc_digits a + d;
     acc_fraction := if fraction then acc_fraction a + 1 else acc_fraction a;
     acc_exp_negative := acc_exp_negative a;
     acc_exp := acc_exp a |}.

Definition push_exp (a : NumAcc) (d : N) : NumAcc :=
  {| acc_negative := acc_negative a;
     acc_digits := acc_digits a;
     acc_fraction := acc_fraction a;
     acc_exp_negative := acc_exp_negative a;
     acc_exp := 10 * acc_exp a + d |}.

Definition exp_sign (a : NumAcc) (neg : bool) : NumAcc :=
  {| acc_negative := acc_negative a;
     acc_digits := acc_digits a;
     acc_fraction := acc_fraction a;
     acc_exp_negative := neg;
     acc_exp := acc_exp a |}.

(** A character that continues the number being read, if it does. *)
Definition num_char (ph : NumPhase) (a : NumAcc) (c : N) : option (NumPhase * NumAcc) :=
  match ph, digit c with
  | NMinus, Some d => Some (if d =? 0 then NZero else NInt, push_digit a d false)
  | NInt, Some d => Some (NInt, push_digit a d false)
  | (NDot | NFrac), Some d => Some (NFrac, push_digit a d true)
  | (NExp | NExpSign | NExpDigits), Some d => Some (NExpDigits, push_exp a d)
  | (NZero | NInt), None =>
      if c =? 0x2E then Some (NDot, a)
      else if is_e c then Some (NExp, a) else None
  | NFrac, None => if is_e c then Some (NExp, a) else None
  | NExp, None =>
      if c =? 0x2B then Some (NExpSign, exp_sign a false)
      else if c =? 0x2D then Some (NExpSign, exp_sign a true) else None
  | _, _ => None
  end.

(** The phases in which the number read so far is complete. *)
Definition complete (ph : NumPhase) : bool :=
  match ph with
  | NZero | NInt | NFrac | NExpDigits => true
  | _ => false
  end.

(** The character of a one-letter escape. *)
Definition escape (c : N) : option N :=
  if (c =? 0x22) || (c =? 0x5C) || (c =? 0x2F) then Some c
  else if c =? 0x62 then Some 0x08
  else if c =? 0x66 then Some 0x0C
  else if c =? 0x6E then Some 0x0A
  else if c =? 0x72 then Some 0x0D
  else if c =? 0x74 then Some 0x09
  else None.

Definition lex_char (st : LexState) (c : N) : option (LexState * list Token) :=
  match st with
  | LStart => start_char c
  | LLiteral [] _ => None
  | LLiteral (x :: rest) v =>
      if c =? x then
        match rest with
        | [] => Some (LStart, [TLiteral v])
        | _ => Some (LLiteral rest v, [])
        end
      else None
  | LString acc =>
      if c =? 0x22 then Some (LStart, [TString (rev acc)])
      else if c =? 0x5C then Some (LEscape acc, [])
      else if c <? 0x20 then None
      else Some (LString (c :: acc), [])
  | LEscape acc =>
      if c =? 0x75 then Some (LHex acc 4%nat 0, [])
      else match escape c with
           | Some x => Some (LString (x :: acc), [])
           | None => None
           end
  | LHex acc togo v =>
      match hex_digit c, togo with
      | Some d, 1%nat => Some (LString ((16 * v + d) :: acc), [])
      | Some d, S togo' => Some (LHex acc togo' (16 * v + d), [])
      | _, _ => None
      end
  | LNumber ph a =>
      match num_char ph a c with
      | Some (ph', a') => Some (LNumber ph' a', [])
      | None =>
          if complete ph then
            match start_char c with
            | Some (st', toks) => Some (st', TNumber (decimal_of a) :: toks)
            | None => None
            end
          else None
      end
  end.

(** The end of the text. *)
Definition lex_end (st : LexState) : option (list Token) :=
  match st with
  | LStart => Some []
  | LNumber ph a => if complete ph then Some [TNumber (decimal_of a)] else None
  | _ => None
  end.

Fixpoint lex (st : LexState) (text : jsstring) : option (list Token) :=
  match text with
  | [] => lex_end st
  | c :: rest =>
      match lex_char st c with
      | Some (st', toks) => app toks <$> lex st' rest
      | None => None
      end
  end.

(** *** Syntactic analysis

    The parser reads the tokens one by one. What it has read of the
    enclosing arrays and objects is kept on a stack. *)

(** An enclosing array or object that awaits a value. *)
Inductive Context :=
| InArray (elements : list Value)               (* reversed *)
| InObject (members : list (jsstring * Value))  (* reversed *)
           (key : jsstring).

Inductive ParseState :=
| PValue (stack : list Context)                 (* a value must follow *)
| PArrayStart (stack : list Context)            (* after an opening bracket *)
| PArrayNext (elements : list Value) (stack : list Context)
                                                (* after an element *)
| PObjectStart (stack : list Context)           (* after an opening brace *)
| PObjectKey (members : list (jsstring * Value)) (stack : list Context)
                                                (* after a comma: a key *)
| PObjectColon (members : list (jsstring * Value)) (key : jsstring)
               (stack : list Context)           (* after a key: a colon *)
| PObjectNext (members : list (jsstring * Value)) (stack : list Context)
                                                (* after a member *)
| PDone (v : Value).                            (* the text is one value *)

(** A complete value goes to the context on top of the stack. *)
Definition deliver (v : Value) (stack : list Context) : ParseState :=
  match stack with
  | [] => PDone v
  | InArray elements :: stack' => PArrayNext (v :: elements) stack'
  | InObject members key :: stack' => PObjectNext ((key, v) :: members) stack'
  end.

(** A token where a value must start. *)
Definition value_token (t : Token) (stack : list Context) : option ParseState :=
  match t with
  | TString s => Some (deliver (String s) stack)
  | TNumber d => Some (deliver (Number d) stack)
  | TLiteral v => Some (deliver v stack)
  | TLBracket => Some (PArrayStart stack)
  | TLBrace => Some (PObjectStart stack)
  | _ => None
  end.

Definition parse_token (st : ParseState) (t : Token) : option ParseState :=
  match st, t with
  | PValue stack, _ => value_token t stack
  | PArrayStart stack, TRBracket => Some (deliver (Array []) stack)
  | PArrayStart stack, _ => value_token t (InArray [] :: stack)
  | PArrayNext elements stack, TComma => Some (PValue (InArray elements :: stack))
  | PArrayNext elements stack, TRBracket => Some (deliver (Array (rev elements)) stack)
  | PObjectStart stack, TRBrace => Some (deliver (Object []) stack)
  | PObjectStart stack, TString key => Some (PObjectColon [] key stack)
  | PObjectKey members stack, TString key => Some (PObjectColon members key stack)
  | PObjectColon members key stack, TColon => Some (PValue (InObject members key :: stack))
  | PObjectNext members stack, TComma => Some (PObjectKey members stack)
  | PObjectNext members stack, TRBrace => Some (deliver (Object (rev members)) stack)
  | _, _ => None
  end.

Fixpoint parse_tokens (st : ParseState) (ts : list Token) : option Value :=
  match ts with
  | [] => match st with PDone v => Some v | _ => None end
  | t :: rest =>
      match parse_token st t with
      | Some st' => parse_tokens st' rest
      | None => None
      end
  end.

Definition syntax_error : Thrown :=
  Error SyntaxError (str "Unexpected token in JSON") None.

(** [JSON.parse(text)] *)
Definition parse (text : jsstring) : Res Value :=
  match lex LStart text ≫= parse_tokens (PValue []) with
  | Some v => Ret v
  | None => Throw syntax_error
  end.

(** *** Values as the source uses them *)

(** Whether a decimal converts to the double 0: it does when its magnitude
    is at most 2^-1075, half of the least positive double. *)
Definition is_zero (d : Decimal) : bool :=
  if digits d =? 0 then true
  else match exponent d with
       | Z.neg e => (Z.of_N (digits d) * 2 ^ 1075 <=? 10 ^ Z.pos e)%Z
       | _ => false
       end.

(** [Boolean(v)], with [None] for [undefined]. *)
Definition truthy (v : option Value) : bool :=
  match v with
  | None | Some Null => false
  | Some (Bool b) => b
  | Some (Number d) => negb (is_zero d)
  | Some (String s) => match s with [] => false | _ => true end
  | Some (Array _) | Some (Object _) => true
  end.

(** The own property [key] of a parsed object; of a key written twice the
    last one stands. *)
Fixpoint lookup (key : jsstring) (members : list (jsstring * Value)) : option Value :=
  match members with
  | [] => None
  | (k, v) :: rest =>
      match lookup key rest with
      | Some w => Some w
      | None => if decide (k = key) then Some v else None
      end
  end.

(** [v.key] for a key that no prototype defines ([url], [remote]):
    reading it from [undefined] or [null] throws, any value but an object
    has no such property. *)
Definition get (v : option Value) (key : jsstring) : Res (option Value) :=
  match v with
  | None | Some Null =>
      Throw (Error TypeError (str "Cannot read properties of undefined") None)
  | Some (Object members) => Ret (lookup key members)
  | Some _ => Ret None
  end.

(** *** JSON.stringify *)

Definition hex_char (n : N) : N := if n <? 10 then 0x30 + n else 0x61 + (n - 10).

(** A backslash, [u] and four hexadecimal digits. *)
Definition unicode_escape (u : N) : jsstring :=
  [0x5C; 0x75;
   hex_char ((u `div` 0x1000) `mod` 16); hex_char ((u `div` 0x100) `mod` 16);
   hex_char ((u `div` 0x10) `mod` 16); hex_char (u `mod` 16)].

Definition quote_unit (u : N) : jsstring :=
  if u =? 0x08 then [0x5C; 0x62]
  else if u =? 0x09 then [0x5C; 0x74]
  else if u =? 0x0A then [0x5C; 0x6E]
  else if u =? 0x0C then [0x5C; 0x66]
  else if u =? 0x0D then [0x5C; 0x72]
  else if u =? 0x22 then [0x5C; 0x22]
  else if u =? 0x5C then [0x5C; 0x5C]
  else if u <? 0x20 then unicode_escape u
  else [u].

Fixpoint quote_units (s : jsstring) : jsstring :=
  match s with
  | [] => []
  | u :: rest =>
      if Text.is_lead u then
        match rest with
        | v :: rest' =>
            if Text.is_trail v then u :: v :: quote_units rest'
            else unicode_escape u ++ quote_units rest
        | [] => unicode_escape u
        end
      else if Text.is_trail u then unicode_escape u ++ quote_units rest
      else quote_unit u ++ quote_units rest
  end.

(** The JSON text of a string. *)
Definition quote (s : jsstring) : jsstring := [0x22] ++ quote_units s ++ [0x22].

(** The JSON text of a natural number (below 10^21, where JavaScript
    prints all the digits). *)
Definition number (n : N) : jsstring := str (NilZero.string_of_uint (N.to_uint n)).

Definition boolean (b : bool) : jsstring := if b then str "true" else str "false".

Fixpoint commas (items : list jsstring) : jsstring :=
  match items with
  | [] => []
  | [x] => x
  | x :: rest => x ++ [0x2C] ++ commas rest
  end.

(** The JSON text of an array, from the texts of its elements. *)
Definition array (items : list jsstring) : jsstring :=
  [0x5B] ++ commas items ++ [0x5D].

(** The JSON text of an object, from its keys and the texts of their
    values; a member whose value is [undefined] ([None]) is left out. *)
Definition object (members : list (jsstring * option jsstring)) : jsstring :=
  [0x7B] ++
  commas (omap (fun '(k, v) => (fun t => quote k ++ [0x3A] ++ t) <$> v) members)
  ++ [0x7D].

(** *** Reading a part of a text *)

(** The state of the lexer after the characters of [text], and the tokens
    that they complete, if the lexer accepts them. *)
Fixpoint lex_run (st : LexState) (text : jsstring) : option (LexState * list Token) :=
  match text with
  | [] => Some (st, [])
  | c :: rest =>
      match lex_char st c with
      | Some (st', toks) =>
          match lex_run st' rest with
          | Some (st'', toks') => Some (st'', toks ++ toks')
          | None => None
          end
      | None => None
      end
  end.

(** The state of the parser after the tokens [ts], if it accepts them. *)
Fixpoint parse_run (st : ParseState) (ts : list Token) : option ParseState :=
  match ts with
  | [] => Some st
  | t :: rest =>
      match parse_token st t with
      | Some st' => parse_run st' rest
      | None => None
      end
  end.

(** The text [text] is made of whole tokens that take the parser from
    [st] to [st']. *)
Definition reads (st : ParseState) (text : jsstring) (st' : ParseState) : Prop :=
  exists toks,
    lex_run LStart text = Some (LStart, toks) /\ parse_run st toks = Some st'.

End Json.

(** ** The relay *)

(** Operation codes of the [protocol] package, which the repository keeps
    outside [src/]: the numbers are parameters of the development. *)
Module C2S.
Record RequestTypes := {
  HTTPRequest : N;
  WSOpen : N;
  WSSendText : N;
  WSSendBinary : N;
  WSClose : N;
}.

(** The codes are the members of an enumeration: no two are equal. *)
Definition distinct (t : RequestTypes) : Prop :=
  NoDup [HTTPRequest t; WSOpen t; WSSendText t; WSSendBinary t; WSClose t].
End C2S.

Module S2C.
Record RequestTypes := {
  HTTPResponseStart : N;
  HTTPResponseChunk : N;
  HTTPResponseEnd : N;
  WSOpen : N;
  WSClose : N;
  WSDataText : N;
  WSDataBinary : N;
}.

(** The codes fit the one byte that a frame has for them. *)
Definition octets (t : RequestTypes) : Prop :=
  Forall (fun c => c < 256)
    [HTTPResponseStart t; HTTPResponseChunk t; HTTPResponseEnd t;
     WSOpen t; WSClose t; WSDataText t; WSDataBinary t].
End S2C.

Module Relay.
Import Js.

(** *** Data *)

(** [HTTPResponsePayload] of the protocol. *)
Record HTTPResponsePayload := {
  status : N;
  statusText : jsstring;
  headers : list (jsstring * list jsstring);
}.

(** [S2CWSClosePayload] of the protocol. *)
Record S2CWSClosePayload := {
  code : N;
  reason : jsstring;
  wasClean : bool;
}.

(** What iterating a response body yields: the [Buffer]s of a network
    response, or a string for a body made by [Readable.from]. *)
Inductive Chunk :=
| Bytes (b : list byte)
| Chars (s : jsstring).

(** What [handleHTTPRequest] and [bareErrorToResponse] return. The body is
    an [AsyncIterable] in the source; here it is the finite list of the
    chunks it yields, and the error with which the iteration fails after
    them, if it does not come to the end of the body. *)
Record Response := {
  payload : HTTPResponsePayload;
  body : list Chunk;
  body_errored : option Thrown;
}.

(** The [IncomingMessage] that [bareFetch] resolves to, as far as the
    source reads it. Iterating it yields [chunks]; then the body has
    ended, or the stream fails (the connection is reset, the transfer is
    aborted) and the iteration throws [errored]. *)
Record IncomingMessage := {
  statusCode : option N;
  statusMessage : option jsstring;
  headersDistinct : list (jsstring * option (list jsstring));
  chunks : list (list byte);
  errored : option Thrown;
}.

(** The platform's tables and conversions that the source relies on. *)
Record Platform := {
  STATUS_CODES : N -> option jsstring;         (* of Node's [http] *)
  ToIndex : jsstring -> Res nat;               (* ToIndex(ToNumber(s)) *)
  Error_stack : jsstring -> option jsstring;   (* [new Error(m).stack] *)
}.

(** What the collaborators do during one call of [onMsg]. *)
Record Collaborators := {
  new_URL : option Json.Value -> Res unit;           (* [new URL(v)] *)
  bareFetch : Json.Value -> Res IncomingMessage;     (* of [./http] *)
  new_WebSocket : option Json.Value -> Res unit;     (* [new WebSocket(v)] *)
  socket_send : Res unit;                            (* [socket.send(..)] *)
  socket_close : Res unit;                           (* [socket.close()] *)
}.

(** What [socket.send] was called with. *)
Inductive Outgoing :=
| SendText (s : jsstring)
| SendBinary (b : list byte).

(** A [WebSocket] object. A handler installed by [onMsg] is a closure over
    the sequence id of the [WSOpen] frame; the record keeps that id. *)
Record WebSocket := {
  url : option Json.Value;
  binaryType : option jsstring;      (* [None]: the library's default *)
  onopen : option N;
  onclose : option N;
  onmessage : option N;
  outbox : list Outgoing;            (* the [send] calls, oldest first *)
  closes : nat;                      (* the [close()] calls *)
}.

(** The state of an [AdriftServer] and of the objects it made. *)
Record Server := {
  sent : list (list byte);     (* the buffers given to [this.send], oldest first *)
  sockets : gmap N nat;        (* [this.sockets]: sequence id to socket *)
  heap : list WebSocket;       (* every socket constructed; a socket is named
                                  by its index *)
  listeners : list nat;        (* the "close" listeners of [this.events], in
                                  the order of registration; each is the
                                  [onClose] closure of one HTTP exchange,
                                  named by its [AbortController] *)
  aborted : list nat;          (* the controllers whose [abort()] ran *)
  controllers : nat;           (* how many controllers were made *)
}.

(** [new AdriftServer(send)] *)
Definition initial : Server :=
  {| sent := []; sockets := ∅; heap := []; listeners := [];
     aborted := []; controllers := 0 |}.

Definition set_sent (f : list (list byte) -> list (list byte)) (s : Server) : Server :=
  {| sent := f (sent s); sockets := sockets s; heap := heap s;
     listeners := listeners s; aborted := aborted s; controllers := controllers s |}.

Definition set_sockets (f : gmap N nat -> gmap N nat) (s : Server) : Server :=
  {| sent := sent s; sockets := f (sockets s); heap := heap s;
     listeners := listeners s; aborted := aborted s; controllers := controllers s |}.

Definition set_heap (f : list WebSocket -> list WebSocket) (s : Server) : Server :=
  {| sent := sent s; sockets := sockets s; heap := f (heap s);
     listeners := listeners s; aborted := aborted s; controllers := controllers s |}.

Definition set_listeners (f : list nat -> list nat) (s : Server) : Server :=
  {| sent := sent s; sockets := sockets s; heap := heap s;
     listeners := f (listeners s); aborted := aborted s; controllers := controllers s |}.

Definition set_aborted (f : list nat -> list nat) (s : Server) : Server :=
  {| sent := sent s; sockets := sockets s; heap := heap s;
     listeners := listeners s; aborted := f (aborted s); controllers := controllers s |}.

Definition set_controllers (f : nat -> nat) (s : Server) : Server :=
  {| sent := sent s; sockets := sockets s; heap := heap s;
     listeners := listeners s; aborted := aborted s; controllers := f (controllers s) |}.

(** *** Methods run on the state and may throw *)

Definition M (A : Type) : Type := Server -> Res A * Server.

Definition ret {A} (a : A) : M A := fun s => (Ret a, s).

Definition throw {A} (e : Thrown) : M A := fun s => (Throw e, s).

Definition lift {A} (r : Res A) : M A := fun s => (r, s).

Definition mbind {A B} (c : M A) (k : A -> M B) : M B :=
  fun s =>
    match c s with
    | (Ret a, s') => k a s'
    | (Throw e, s') => (Throw e, s')
    end.

(** [try { c } catch (e) { h e }]: what [c] did to the state before it
    threw stays done. *)
Definition catch {A} (c : M A) (h : Thrown -> M A) : M A :=
  fun s =>
    match c s with
    | (Ret a, s') => (Ret a, s')
    | (Throw e, s') => h e s'
    end.

Definition modify (f : Server -> Server) : M unit := fun s => (Ret tt, f s).

Definition read {A} (f : Server -> A) : M A := fun s => (Ret (f s), s).

Notation "x <- c ;; k" := (mbind c (fun x => k))
  (at level 100, c at next level, right associativity).
Notation "c ;;; k" := (mbind c (fun _ => k))
  (at level 100, right associativity).

(** [for (const x of l) f(x)] *)
Fixpoint for_each {A} (f : A -> M unit) (l : list A) : M unit :=
  match l with
  | [] => ret tt
  | x :: rest => f x ;;; for_each f rest
  end.

(** [for await (const x of body) f(x)] for a body that yields [l] and
    then ends or fails with [failure]: when it fails, the loop throws
    what the body failed with, after the calls of [f] for what was
    yielded. *)
Definition for_await {A} (f : A -> M unit) (l : list A) (failure : option Thrown)
  : M unit :=
  for_each f l ;;;
  match failure with
  | Some e => throw e
  | None => ret tt
  end.

(** *** The frame codec *)

(** The fields that [parseMsgInit] returns. *)
Record MsgInit := {
  cursor : nat;
  seq : N;
  op : N;
}.

(** [AdriftServer.parseMsgInit]. [None] is [undefined]. *)
Definition parseMsgInit (msg : list byte) : Res (option MsgInit) :=
  try_catch
    (let cursor := 0%nat in
     let? seq := Buf.getUint16 msg cursor in
     let cursor := (cursor + 2)%nat in
     let? op := Buf.getUint8 msg cursor in
     let cursor := (cursor + 1)%nat in
     Ret (Some {| cursor := cursor; seq := seq; op := op |}))
    (fun e =>
       match e with
       | Error RangeError _ _ => Ret None       (* malformed message *)
       | _ => Throw e
       end).

(** [AdriftServer.tryParseJSONPayload]. [None] is [undefined]. *)
Definition tryParseJSONPayload (payloadRaw : list byte) : Res (option Json.Value) :=
  try_catch
    (let? payload := Json.parse (Text.decode payloadRaw) in Ret (Some payload))
    (fun e =>
       match e with
       | Error SyntaxError _ _ => Ret None
       | _ => Throw e
       end).

(** [this.send(buf)]: the transport's write, here the log of what was
    written. *)
Definition send (buf : list byte) : M unit :=
  modify (set_sent (fun l => l ++ [buf])).

(** [JSON.stringify] of an [HTTPResponsePayload]. *)
Definition stringify_payload (p : HTTPResponsePayload) : jsstring :=
  Json.object
    [(str "status", Some (Json.number (status p)));
     (str "statusText", Some (Json.quote (statusText p)));
     (str "headers",
      Some (Json.object
              (map (fun '(k, vs) => (k, Some (Json.array (map Json.quote vs))))
                   (headers p))))].

(** [JSON.stringify] of the body of a [BareError]. *)
Definition stringify_body (b : BareErrorBody) : jsstring :=
  Json.object
    [(str "code", Some (Json.quote (Js.code b)));
     (str "id", Some (Json.quote (Js.id b)));
     (str "message", Json.quote <$> Js.message b);
     (str "stack", Json.quote <$> Js.stack b)].

(** [JSON.stringify] of an [S2CWSClosePayload]. *)
Definition stringify_close (p : S2CWSClosePayload) : jsstring :=
  Json.object
    [(str "code", Some (Json.number (code p)));
     (str "reason", Some (Json.quote (reason p)));
     (str "wasClean", Some (Json.boolean (wasClean p)))].

Section Server.

Variable c2s : C2S.RequestTypes.
Variable s2c : S2C.RequestTypes.
Variable platform : Platform.

(** [_sendJSONRes(seq, op, payload)]; [json] is [JSON.stringify(payload)]. *)
Definition _sendJSONRes (seq op : N) (json : jsstring) : M unit :=
  let payloadBuffer := Text.encode json in
  let buf := Buf.ArrayBuffer (2 + 1 + length payloadBuffer) in
  let cursor := 0%nat in
  buf <- lift (Buf.setUint16 buf cursor seq) ;;
  let cursor := (cursor + 2)%nat in
  buf <- lift (Buf.setUint8 buf cursor op) ;;
  let cursor := (cursor + 1)%nat in
  buf <- lift (Buf.Uint8Array_set buf payloadBuffer cursor) ;;
  send buf.

Definition sendHTTPResponseStart (seq : N) (payload : HTTPResponsePayload) : M unit :=
  _sendJSONRes seq (S2C.HTTPResponseStart s2c) (stringify_payload payload).

Definition sendHTTPResponseChunk (seq : N) (chunk : list byte) : M unit :=
  let buf := Buf.ArrayBuffer (2 + 1 + length chunk) in
  let cursor := 0%nat in
  buf <- lift (Buf.setUint16 buf cursor seq) ;;
  let cursor := (cursor + 2)%nat in
  buf <- lift (Buf.setUint8 buf cursor (S2C.HTTPResponseChunk s2c)) ;;
  let cursor := (cursor + 1)%nat in
  buf <- lift (Buf.Uint8Array_set buf chunk cursor) ;;
  send buf.

Definition _sendSimpleRes (seq op : N) : M unit :=
  let buf := Buf.ArrayBuffer (2 + 1) in
  let cursor := 0%nat in
  buf <- lift (Buf.setUint16 buf cursor seq) ;;
  let cursor := (cursor + 2)%nat in
  buf <- lift (Buf.setUint8 buf cursor op) ;;
  send buf.

Definition sendHTTPResponseEnd (seq : N) : M unit :=
  _sendSimpleRes seq (S2C.HTTPResponseEnd s2c).

Definition sendWSOpen (seq : N) : M unit :=
  _sendSimpleRes seq (S2C.WSOpen s2c).

Definition sendWSClose (seq : N) (payload : S2CWSClosePayload) : M unit :=
  _sendJSONRes seq (S2C.WSClose s2c) (stringify_close payload).

Definition sendWSText (seq : N) (textEncoded : list byte) : M unit :=
  let buf := Buf.ArrayBuffer (2 + 1 + length textEncoded) in
  let cursor := 0%nat in
  buf <- lift (Buf.setUint16 buf cursor seq) ;;
  let cursor := (cursor + 2)%nat in
  buf <- lift (Buf.setUint8 buf cursor (S2C.WSDataText s2c)) ;;
  let cursor := (cursor + 1)%nat in
  buf <- lift (Buf.Uint8Array_set buf textEncoded cursor) ;;
  send buf.

Definition sendWSBinary (seq : N) (msg : list byte) : M unit :=
  let buf := Buf.ArrayBuffer (2 + 1 + length msg) in
  let cursor := 0%nat in
  buf <- lift (Buf.setUint16 buf cursor seq) ;;
  let cursor := (cursor + 2)%nat in
  buf <- lift (Buf.setUint8 buf cursor (S2C.WSDataBinary s2c)) ;;
  let cursor := (cursor + 1)%nat in
  buf <- lift (Buf.Uint8Array_set buf msg cursor) ;;
  send buf.

(** *** The HTTP exchange *)

(** [Readable.from(s)] for a string [s]: a stream in object mode that
    yields [s] itself, once, and then ends; it does not fail. *)
Definition Readable_from (s : jsstring) : list Chunk := [Chars s].

(** [bareErrorToResponse(e)] for [e = new BareError(status, body)]. *)
Definition bareErrorToResponse (status : N) (body : BareErrorBody) : Response :=
  {| payload :=
       {| status := status;
          statusText := default [] (STATUS_CODES platform status);
          headers := [] |};
     body := Readable_from (stringify_body body);
     body_errored := None |}.

(** [new Uint8Array(chunk)]. A [Buffer] gives a copy of its bytes. A
    string is no array: it is converted to a number and the array has
    that many zero bytes. A text that starts with a brace is not a number
    (NaN), which makes 0; the length for any other text is the
    platform's. *)
Definition Uint8Array_of (chunk : Chunk) : Res (list byte) :=
  match chunk with
  | Bytes b => Ret b
  | Chars (0x7B :: _) => Ret []
  | Chars s => let? n := ToIndex platform s in Ret (Buf.ArrayBuffer n)
  end.

(** [new AbortController()] *)
Definition new_AbortController : M nat :=
  c <- read controllers ;;
  modify (set_controllers S) ;;;
  ret c.

(** [abort.abort()] *)
Definition abort (c : nat) : M unit :=
  modify (set_aborted (fun l => l ++ [c])).

(** [this.events.on("close", l)] *)
Definition events_on (l : nat) : M unit :=
  modify (set_listeners (fun ls => ls ++ [l])).

(** The list without the last [l] in it, if there is one. *)
Fixpoint remove_last (l : nat) (ls : list nat) : list nat :=
  match ls with
  | [] => []
  | x :: rest =>
      if decide (l ∈ rest) then x :: remove_last l rest
      else if decide (x = l) then rest
      else x :: rest
  end.

(** [this.events.off("close", l)]: the listener added last goes. *)
Definition events_off (l : nat) : M unit :=
  modify (set_listeners (remove_last l)).

(** The closure [onClose] of [handleHTTPRequest], for the exchange whose
    controller is [c]. *)
Definition onClose_hook (c : nat) : M unit :=
  abort c ;;;
  events_off c.

(** [resp.statusCode || 500] *)
Definition status_or_500 (v : option N) : N :=
  match v with
  | Some n => if n =? 0 then 500 else n
  | None => 500
  end.

(** The entries of [headersDistinct] whose value is truthy. *)
Definition truthy_headers (hs : list (jsstring * option (list jsstring)))
  : list (jsstring * list jsstring) :=
  omap (fun '(k, v) => (fun vs => (k, vs)) <$> v) hs.

(** [await bareFetch(payload, abort.signal, new URL(payload.remote),
    options)]: the arguments are evaluated before the call. *)
Definition fetch (env : Collaborators) (req : Json.Value) : Res IncomingMessage :=
  let? remote := Json.get (Some req) (str "remote") in
  let? _ := new_URL env remote in
  bareFetch env req.

(** [handleHTTPRequest(payload)]. The method leaves its [try] either with
    the response of the fetch ([inr]) or by the [return] of the [catch]
    ([inl]). *)
Definition handleHTTPRequest (env : Collaborators) (req : Json.Value) : M Response :=
  abort <- new_AbortController ;;
  let onClose := abort in
  events_on onClose ;;;
  r <- catch
         (resp <- lift (fetch env req) ;;
          ret (inr resp))
         (fun e =>
            match e with
            | BareError status body => ret (inl (bareErrorToResponse status body))
            | _ => events_off onClose ;;; throw e
            end) ;;
  match r with
  | inl early => ret early
  | inr resp =>
      events_off onClose ;;;
      ret {| payload :=
               {| status := status_or_500 (statusCode resp);
                  statusText := default [] (statusMessage resp);
                  headers := truthy_headers (headersDistinct resp) |};
             body := map Bytes (chunks resp);
             body_errored := errored resp |}
  end.

(** The [BareError] that the [catch] of [onMsg] makes of what was thrown. *)
Definition to_BareError (e : Thrown) : N * BareErrorBody :=
  match e with
  | BareError status body => (status, body)
  | Error cls msg stk =>
      (500, {| Js.code := str "UNKNOWN";
               Js.id := str "error." ++ error_name cls;
               Js.message := Some msg;
               Js.stack := stk |})
  | Value text =>
      (500, {| Js.code := str "UNKNOWN";
               Js.id := str "error.Exception";
               Js.message := Some (str "Error: " ++ text);
               Js.stack := Error_stack platform text |})
  end.

(** *** WebSocket objects *)

(** [new WebSocket(url)], once the constructor has accepted [url]: the
    object joins the heap and is named by its index. *)
Definition new_socket (url : option Json.Value) : M nat :=
  ws <- read (fun s => length (heap s)) ;;
  modify (set_heap (fun h =>
    h ++ [{| url := url; binaryType := None; onopen := None; onclose := None;
             onmessage := None; outbox := []; closes := 0 |}])) ;;;
  ret ws.

(** An assignment to a field of the socket [ws], or a call that changes
    it. *)
Definition update (ws : nat) (f : WebSocket -> WebSocket) : M unit :=
  modify (set_heap (alter f ws)).

Definition set_binaryType (v : jsstring) (w : WebSocket) : WebSocket :=
  {| url := url w; binaryType := Some v; onopen := onopen w; onclose := onclose w;
     onmessage := onmessage w; outbox := outbox w; closes := closes w |}.

Definition set_onopen (seq : N) (w : WebSocket) : WebSocket :=
  {| url := url w; binaryType := binaryType w; onopen := Some seq; onclose := onclose w;
     onmessage := onmessage w; outbox := outbox w; closes := closes w |}.

Definition set_onclose (seq : N) (w : WebSocket) : WebSocket :=
  {| url := url w; binaryType := binaryType w; onopen := onopen w; onclose := Some seq;
     onmessage := onmessage w; outbox := outbox w; closes := closes w |}.

Definition set_onmessage (seq : N) (w : WebSocket) : WebSocket :=
  {| url := url w; binaryType := binaryType w; onopen := onopen w; onclose := onclose w;
     onmessage := Some seq; outbox := outbox w; closes := closes w |}.

(** [socket.send(data)], once the library has accepted the call. *)
Definition push_outbox (data : Outgoing) (w : WebSocket) : WebSocket :=
  {| url := url w; binaryType := binaryType w; onopen := onopen w; onclose := onclose w;
     onmessage := onmessage w; outbox := outbox w ++ [data]; closes := closes w |}.

(** [socket.close()], once the library has accepted the call. *)
Definition count_close (w : WebSocket) : WebSocket :=
  {| url := url w; binaryType := binaryType w; onopen := onopen w; onclose := onclose w;
     onmessage := onmessage w; outbox := outbox w; closes := S (closes w) |}.

(** *** The message handler *)

(** [onMsg(msg)]. The result is how the promise of the [async] method
    settles: [Ret] resolved, [Throw] rejected. *)
Definition onMsg (env : Collaborators) (msg : list byte) : M unit :=
  init <- lift (parseMsgInit msg) ;;
  match init with
  | None => ret tt
  | Some {| cursor := cursor; seq := seq; op := op |} =>
      if op =? C2S.HTTPRequest c2s then
        reqPayload <- lift (tryParseJSONPayload (Buf.slice msg cursor)) ;;
        (* [if (!reqPayload) return;] *)
        match reqPayload with
        | Some req =>
            if Json.truthy reqPayload then
              resp <- catch (handleHTTPRequest env req)
                        (fun e =>
                           let '(status, body) := to_BareError e in
                           ret (bareErrorToResponse status body)) ;;
              sendHTTPResponseStart seq (payload resp) ;;;
              for_await
                (fun chunk =>
                   bytes <- lift (Uint8Array_of chunk) ;;
                   sendHTTPResponseChunk seq bytes)
                (body resp) (body_errored resp) ;;;
              sendHTTPResponseEnd seq
            else ret tt
        | None => ret tt
        end
      else if op =? C2S.WSOpen c2s then
        payload <- lift (tryParseJSONPayload (Buf.slice msg cursor)) ;;
        url <- lift (Json.get payload (str "url")) ;;
        lift (new_WebSocket env url) ;;;
        ws <- new_socket url ;;
        modify (set_sockets <[seq := ws]>) ;;;
        update ws (set_binaryType (str "arraybuffer")) ;;;
        update ws (set_onopen seq) ;;;
        update ws (set_onclose seq) ;;;
        update ws (set_onmessage seq)
      else if op =? C2S.WSSendText c2s then
        socket <- read (fun s => sockets s !! seq) ;;
        match socket with
        | None => ret tt
        | Some ws =>
            lift (socket_send env) ;;;
            update ws (push_outbox (SendText (Text.decode (Buf.slice msg cursor))))
        end
      else if op =? C2S.WSSendBinary c2s then
        socket <- read (fun s => sockets s !! seq) ;;
        match socket with
        | None => ret tt
        | Some ws =>
            lift (socket_send env) ;;;
            update ws (push_outbox (SendBinary (Buf.slice msg cursor)))
        end
      else if op =? C2S.WSClose c2s then
        socket <- read (fun s => sockets s !! seq) ;;
        match socket with
        | None => ret tt
        | Some ws =>
            lift (socket_close env) ;;;
            update ws count_close
        end
      else ret tt      (* not implemented *)
  end.

(** *** The handlers of a socket *)

(** The [CloseEvent] of a socket, as far as the handler reads it. *)
Record CloseEvent := {
  ev_code : N;
  ev_reason : jsstring;
  ev_wasClean : bool;
}.

(** The arguments of a call of [ws.onmessage]. *)
Inductive Incoming :=
| Raw (data : list byte) (isBinary : bool)
      (* node: an [ArrayBuffer] and the flag, [false] also when left out *)
| EventText (data : jsstring)         (* web: [event.data] is a string *)
| EventBinary (data : list byte)      (* web: [event.data] is an [ArrayBuffer] *)
| EventOther                          (* any other value but [undefined] and [null] *)
| Nullish.                            (* [undefined] or [null] *)

(** The handler [field] of the socket [ws], if one is installed. *)
Definition handler (field : WebSocket -> option N) (ws : nat) (k : N -> M unit) : M unit :=
  h <- read (fun s => heap s !! ws ≫= field) ;;
  match h with
  | Some seq => k seq
  | None => ret tt
  end.

(** The socket [ws] calls its [onopen]. *)
Definition ws_onopen (ws : nat) : M unit :=
  handler onopen ws (fun seq => sendWSOpen seq).

(** The socket [ws] calls its [onclose] with [e]. *)
Definition ws_onclose (ws : nat) (e : CloseEvent) : M unit :=
  handler onclose ws (fun seq =>
    sendWSClose seq
      {| code := ev_code e; reason := ev_reason e; wasClean := ev_wasClean e |}).

(** The socket [ws] calls its [onmessage]. *)
Definition ws_onmessage (ws : nat) (m : Incoming) : M unit :=
  handler onmessage ws (fun seq =>
    match m with
    | Raw dataOrEvent isBinary =>
        if isBinary then sendWSBinary seq dataOrEvent
        else sendWSText seq dataOrEvent
    | EventText data => sendWSText seq (Text.encode data)
    | EventBinary data => sendWSBinary seq data
    | EventOther =>
        throw (Error (OtherError (str "Error"))
                 (str "Unexpected message type received") None)
    | Nullish =>
        (* [dataOrEvent.data] is read before the last [throw] *)
        throw (Error TypeError (str "Cannot read properties of undefined") None)
    end).

(** [onClose()]: [this.events.emit("close")] calls the listeners that are
    registered when it starts, in their order. *)
Definition onClose : M unit :=
  ls <- read listeners ;;
  for_each onClose_hook ls.

(** *** The relay in its environment *)

(** What can happen to a relay: the transport hands it a message or
    tells it that the channel closed, or one of its sockets fires. *)
Inductive Event :=
| Message (env : Collaborators) (msg : list byte)
| ChannelClose
| SocketOpen (ws : nat)
| SocketClose (ws : nat) (e : CloseEvent)
| SocketMessage (ws : nat) (m : Incoming).

Definition handle (ev : Event) : M unit :=
  match ev with
  | Message env msg => onMsg env msg
  | ChannelClose => onClose
  | SocketOpen ws => ws_onopen ws
  | SocketClose ws e => ws_onclose ws e
  | SocketMessage ws m => ws_onmessage ws m
  end.

(** The state after an event; what the handler threw is lost to the
    relay (a rejected promise, an uncaught exception of a callback). *)
Definition step (s : Server) (ev : Event) : Server := snd (handle ev s).

(** The state after a sequence of events. *)
Definition run (s : Server) (evs : list Event) : Server := foldl step s evs.

End Server.

(** *** Notions for the statements *)

(** The frame that the wire format prescribes for a sequence id, an
    operation code and a payload. *)
Definition frame (seq op : N) (payload : list byte) : list byte :=
  Buf.u8 (seq `div` 256) :: Buf.u8 seq :: Buf.u8 op :: payload.

(** The sequence id of a buffer of the outbound log. *)
Definition frame_seq (buf : list byte) : option N :=
  match parseMsgInit buf with
  | Ret (Some i) => Some (seq i)
  | _ => None
  end.

(** The operation code of a buffer of the outbound log. *)
Definition frame_op (buf : list byte) : option N :=
  match parseMsgInit buf with
  | Ret (Some i) => Some (op i)
  | _ => None
  end.

(** The buffer [buf] decodes to the header [(seq, op)] with the payload
    [payload] after it. *)
Definition decodes_to (buf : list byte) (seq op : N) (payload : list byte) : Prop :=
  parseMsgInit buf = Ret (Some {| cursor := 3; seq := seq; op := op |}) /\
  Buf.slice buf 3 = payload.

(** What a method does that only writes the buffer [buf]. *)
Definition writes (c : M unit) (buf : list byte) : Prop :=
  forall s, c s = (Ret tt, set_sent (fun l => l ++ [buf]) s).

(** The handlers of [w] are those that [onMsg] installs for a [WSOpen]
    frame on [seq]. *)
Definition bound_to (seq : N) (w : WebSocket) : Prop :=
  onopen w = Some seq /\ onclose w = Some seq /\ onmessage w = Some seq.

(** Every entry of the registry names a socket of the heap whose handlers
    are bound to the sequence id of the entry. *)
Definition registered (s : Server) : Prop :=
  forall seq ws, sockets s !! seq = Some ws ->
    exists w, heap s !! ws = Some w /\ bound_to seq w.

(** From [s] to [s'] the registry is the same and every socket has kept
    its handlers. *)
Definition stable (s s' : Server) : Prop :=
  sockets s' = sockets s /\
  forall ws w, heap s !! ws = Some w ->
    exists w', heap s' !! ws = Some w' /\
      onopen w' = onopen w /\ onclose w' = onclose w /\ onmessage w' = onmessage w.

(** A method that leaves every state [stable]. *)
Definition steady {A} (c : M A) : Prop := forall s, stable s (snd (c s)).

(** The state after a [WSOpen] frame on [seq] whose socket, for the url
    [u], was constructed. *)
Definition opened (s : Server) (seq : N) (u : option Json.Value) : Server :=
  set_heap
    (fun h => h ++ [{| url := u; binaryType := Some (str "arraybuffer");
                       onopen := Some seq; onclose := Some seq;
                       onmessage := Some seq; outbox := []; closes := 0 |}])
    (set_sockets <[seq := length (heap s)]> s).

(** In the state [s] the handlers of the socket [ws] relay on [seq]: the
    open event writes a [WSOpen] frame, the close event a [WSClose] frame
    with the code, the reason and the flag of the event, and a message a
    [WSDataText] or a [WSDataBinary] frame with its data. *)
Definition relays (s2c : S2C.RequestTypes) (ws : nat) (seq : N) (s : Server) : Prop :=
  let wrote buf := (Ret tt, set_sent (fun l => l ++ [buf]) s) in
  ws_onopen s2c ws s = wrote (frame seq (S2C.WSOpen s2c) []) /\
  (forall e,
     ws_onclose s2c ws e s =
     wrote (frame seq (S2C.WSClose s2c)
              (Text.encode (stringify_close
                 {| code := ev_code e; reason := ev_reason e;
                    wasClean := ev_wasClean e |})))) /\
  (forall d, ws_onmessage s2c ws (Raw d true) s
             = wrote (frame seq (S2C.WSDataBinary s2c) d)) /\
  (forall d, ws_onmessage s2c ws (Raw d false) s
             = wrote (frame seq (S2C.WSDataText s2c) d)) /\
  (forall d, ws_onmessage s2c ws (EventText d) s
             = wrote (frame seq (S2C.WSDataText s2c) (Text.encode d))) /\
  (forall d, ws_onmessage s2c ws (EventBinary d) s
             = wrote (frame seq (S2C.WSDataBinary s2c) d)).


(** The frames of an HTTP exchange on [seq] whose body failed after the
    chunks [cs]: the start frame and the chunk frames, and no end frame. *)
Definition unfinished_frames (s2c : S2C.RequestTypes) (seq : N)
    (p : HTTPResponsePayload) (cs : list (list byte)) : list (list byte) :=
  frame seq (S2C.HTTPResponseStart s2c) (Text.encode (stringify_payload p))
  :: map (frame seq (S2C.HTTPResponseChunk s2c)) cs.

(** The frames of an HTTP exchange on [seq] that answers with the payload
    [p] and the chunks [cs]. *)
Definition exchange_frames (s2c : S2C.RequestTypes) (seq : N)
    (p : HTTPResponsePayload) (cs : list (list byte)) : list (list byte) :=
  frame seq (S2C.HTTPResponseStart s2c) (Text.encode (stringify_payload p))
  :: map (frame seq (S2C.HTTPResponseChunk s2c)) cs
  ++ [frame seq (S2C.HTTPResponseEnd s2c) []].

(** *** Notions for the further properties *)

(** A method that keeps the relation [R] between the state it starts in
    and the state it leaves, however it ends. *)
Definition respects {A} (R : Server -> Server -> Prop) (c : M A) : Prop :=
  forall s, R s (snd (c s)).

(** From [s] to [s'] the registry and every socket are the same. *)
Definition quiet (s s' : Server) : Prop :=
  sockets s' = sockets s /\ heap s' = heap s.

(** From [s] to [s'] the close listeners and the controllers are the
    same. *)
Definition hooks_kept (s s' : Server) : Prop :=
  listeners s' = listeners s /\ aborted s' = aborted s /\
  controllers s' = controllers s.

(** From [s] to [s'] nothing was written, and the close listeners and the
    controllers are the same. *)
Definition silent (s s' : Server) : Prop :=
  sent s' = sent s /\ hooks_kept s s'.

(** The operation codes of the frames to the client. *)
Definition codes (s2c : S2C.RequestTypes) : list N :=
  [S2C.HTTPResponseStart s2c; S2C.HTTPResponseChunk s2c; S2C.HTTPResponseEnd s2c;
   S2C.WSOpen s2c; S2C.WSClose s2c; S2C.WSDataText s2c; S2C.WSDataBinary s2c].

(** The buffer [buf] is a frame of the wire format on a 16-bit sequence
    id with one of the codes of the frames to the client. *)
Definition relay_frame (s2c : S2C.RequestTypes) (buf : list byte) : Prop :=
  exists seq op payload,
    buf = frame seq op payload /\ seq < 65536 /\ op ∈ codes s2c.

(** Every socket that was constructed delivers [ArrayBuffer]s and has its
    three handlers, bound to one 16-bit sequence id. *)
Definition set_up (s : Server) : Prop :=
  forall ws w, heap s !! ws = Some w ->
    binaryType w = Some (str "arraybuffer") /\
    exists seq, seq < 65536 /\ bound_to seq w.

(** No controller is both registered and aborted, or is either twice, and
    each of them was made. *)
Definition hooks_fresh (s : Server) : Prop :=
  NoDup (listeners s ++ aborted s) /\
  Forall (fun c => (c < controllers s)%nat) (listeners s ++ aborted s).

(** The socket [ws] has no entry in the registry. *)
Definition orphan (s : Server) (ws : nat) : Prop :=
  forall seq, sockets s !! seq <> Some ws.

(** *** An exchange at its [await]

    [handleHTTPRequest] is suspended once, at [await bareFetch(..)], and
    the handlers of other events run before it goes on. The two parts of
    the method, before and after that point; [settled] is how the promise
    of the fetch settles. *)
Definition handleHTTPRequest_before_await : M nat :=
  abort <- new_AbortController ;;
  events_on abort ;;;
  ret abort.

Definition handleHTTPRequest_after_await (platform : Platform) (abort : nat)
    (settled : Res IncomingMessage) : M Response :=
  let onClose := abort in
  r <- catch
         (resp <- lift settled ;;
          ret (inr resp))
         (fun e =>
            match e with
            | BareError status body => ret (inl (bareErrorToResponse platform status body))
            | _ => events_off onClose ;;; throw e
            end) ;;
  match r with
  | inl early => ret early
  | inr resp =>
      events_off onClose ;;;
      ret {| payload :=
               {| status := status_or_500 (statusCode resp);
                  statusText := default [] (statusMessage resp);
                  headers := truthy_headers (headersDistinct resp) |};
             body := map Bytes (chunks resp);
             body_errored := errored resp |}
  end.

(** The names and the values of the headers are strings of code units. *)
Definition header_units (hs : list (jsstring * list jsstring)) : Prop :=
  Forall (fun m => Text.units (fst m) /\ Forall Text.units (snd m)) hs.

(** What [JSON.parse] makes of the JSON text of headers. *)
Definition parsed_headers (hs : list (jsstring * list jsstring)) : Json.Value :=
  Json.Object (map (fun m => (fst m, Json.Array (map Json.String (snd m)))) hs).
End Relay.

(** ** Instances for worked examples *)

Module Sample.
Import Js Relay.

(** Modelled from the spec: the operation codes of the [protocol] package,
    whose source is not under [src/]; numbered here, for the examples, in
    the order in which section 3 of the specification lists them. The
    theorems hold for every choice of the codes. *)
Definition c2s : C2S.RequestTypes :=
  {| C2S.HTTPRequest := 0; C2S.WSOpen := 1; C2S.WSSendText := 2;
     C2S.WSSendBinary := 3; C2S.WSClose := 4 |}.

Definition s2c : S2C.RequestTypes :=
  {| S2C.HTTPResponseStart := 0; S2C.HTTPResponseChunk := 1;
     S2C.HTTPResponseEnd := 2; S2C.WSOpen := 3; S2C.WSClose := 4;
     S2C.WSDataText := 5; S2C.WSDataBinary := 6 |}.

(** A platform: the reason phrases of the status codes used below; a text
    that is no number has index 0. *)
Definition platform : Platform :=
  {| STATUS_CODES := fun n =>
       if n =? 200 then Some (str "OK")
       else if n =? 403 then Some (str "Forbidden")
       else if n =? 500 then Some (str "Internal Server Error")
       else None;
     ToIndex := fun _ => Ret 0%nat;
     Error_stack := fun _ => None |}.

(** The response of the first scenario of the specification: status 200,
    no headers, the body in the two chunks [ab] and [cd]. *)
Definition ok_response : IncomingMessage :=
  {| statusCode := Some 200; statusMessage := Some (str "OK");
     headersDistinct := []; chunks := [bytes "ab"; bytes "cd"];
     errored := None |}.

(** Collaborators that accept every call; the fetch returns
    [ok_response]. *)
Definition env : Collaborators :=
  {| new_URL := fun _ => Ret tt;
     bareFetch := fun _ => Ret ok_response;
     new_WebSocket := fun _ => Ret tt;
     socket_send := Ret tt;
     socket_close := Ret tt |}.

(** The error of a connection that is lost while the body is read. *)
Definition connection_lost : Thrown :=
  Error (OtherError (str "Error")) (str "aborted") None.

(** A response whose body yields the chunk [ab] and then fails with
    [connection_lost]. *)
Definition broken_response : IncomingMessage :=
  {| statusCode := Some 200; statusMessage := Some (str "OK");
     headersDistinct := []; chunks := [bytes "ab"];
     errored := Some connection_lost |}.

(** Collaborators whose fetch returns [broken_response]. *)
Definition breaking : Collaborators :=
  {| new_URL := fun _ => Ret tt;
     bareFetch := fun _ => Ret broken_response;
     new_WebSocket := fun _ => Ret tt;
     socket_send := Ret tt;
     socket_close := Ret tt |}.

(** The controlled error of the third scenario. *)
Definition forbidden : Thrown :=
  BareError 403 {| Js.code := str "FORBIDDEN"; Js.id := str "error.Forbidden";
                   Js.message := None; Js.stack := None |}.

(** Collaborators whose fetch fails with [e]. *)
Definition failing (e : Thrown) : Collaborators :=
  {| new_URL := fun _ => Ret tt;
     bareFetch := fun _ => Throw e;
     new_WebSocket := fun _ => Ret tt;
     socket_send := Ret tt;
     socket_close := Ret tt |}.

(** The frame that a client writes; in [payload] an apostrophe stands
    for a double quote. *)
Definition request (seq op : N) (payload : string) : list byte :=
  frame seq op (bytes (dq payload)).

Definition get_example : list byte :=
  request 1 (C2S.HTTPRequest c2s)
    "{'method':'GET','remote':'http://example.test/'}".

(** What [JSON.parse] makes of the payload of [get_example]. *)
Definition get_payload : Json.Value :=
  Json.Object [(str "method", Json.String (str "GET"));
               (str "remote", Json.String (str "http://example.test/"))].

Definition open_example : list byte :=
  request 7 (C2S.WSOpen c2s) "{'url':'ws://example.test/'}".

(** Collaborators whose [WebSocket] constructor rejects every url. *)
Definition rejecting : Collaborators :=
  {| new_URL := fun _ => Ret tt;
     bareFetch := fun _ => Ret ok_response;
     new_WebSocket := fun _ =>
       Throw (Error SyntaxError (str "The URL is invalid") None);
     socket_send := Ret tt;
     socket_close := Ret tt |}.

(** The socket that [open_example] makes. *)
Definition example_socket : WebSocket :=
  {| url := Some (Json.String (str "ws://example.test/"));
     binaryType := Some (str "arraybuffer");
     onopen := Some 7; onclose := Some 7; onmessage := Some 7;
     outbox := []; closes := 0 |}.

(** Frames for the socket of [open_example]. *)
Definition text_example : list byte := request 7 (C2S.WSSendText c2s) "hi".

Definition binary_example : list byte := request 7 (C2S.WSSendBinary c2s) "hi".

Definition close_example : list byte := request 7 (C2S.WSClose c2s) "".

(** Collaborators whose sockets refuse every call. *)
Definition refusing : Collaborators :=
  {| new_URL := fun _ => Ret tt;
     bareFetch := fun _ => Ret ok_response;
     new_WebSocket := fun _ => Ret tt;
     socket_send := Throw (Error (OtherError (str "Error")) (str "WebSocket is not open") None);
     socket_close := Throw (Error (OtherError (str "Error")) (str "WebSocket is not open") None) |}.

(** A clean close of a socket. *)
Definition clean_close : CloseEvent :=
  {| ev_code := 1000; ev_reason := []; ev_wasClean := true |}.

Abbreviation onMsg := (Relay.onMsg c2s s2c platform).
Abbreviation step := (Relay.step c2s s2c platform).
Abbreviation run := (Relay.run c2s s2c platform).

End Sample.

(** * Properties *)

(** ** The frame codec *)

Section Codec.
Import Js Relay.

Lemma u8_to_N (n : N) : Byte.to_N (Buf.u8 n) = n `mod` 256.
Proof.
  unfold Buf.u8.
  destruct (Byte.of_N (n `mod` 256)) as [b|] eqn:E.
  - now apply Byte.to_of_N.
  - apply Byte.of_N_None_iff in E.
    pose proof (N.mod_upper_bound n 256). lia.
Qed.

(** The header of a frame reads back as its fields, reduced to their
    widths. *)
Lemma parseMsgInit_frame (seq op : N) (payload : list byte) :
  parseMsgInit (frame seq op payload)
  = Ret (Some {| cursor := 3; seq := seq `mod` 65536; op := op `mod` 256 |}).
Proof.
  unfold parseMsgInit, frame, Buf.getUint16, Buf.getUint8. cbn.
  rewrite !u8_to_N. do 3 f_equal.
  change 65536 with (256 * 256).
  rewrite N.Div0.mod_mul_r. lia.
Qed.

(** What [parseMsgInit] returns is a 16-bit sequence id, an 8-bit
    operation code and the offset 3. *)
Lemma parseMsgInit_bounds (msg : list byte) (i : MsgInit) :
  parseMsgInit msg = Ret (Some i) ->
  cursor i = 3%nat /\ seq i < 65536 /\ op i < 256.
Proof.
  unfold parseMsgInit, Buf.getUint16, Buf.getUint8.
  destruct msg as [|a [|b [|c rest]]]; cbn; try discriminate.
  intros [= <-]. cbn.
  pose proof (Byte.to_N_bounded a). pose proof (Byte.to_N_bounded b).
  pose proof (Byte.to_N_bounded c). lia.
Qed.

(** The sequence id and the operation code of a frame read back. *)
Lemma frame_seq_frame (seq op : N) (payload : list byte) :
  seq < 65536 -> frame_seq (frame seq op payload) = Some seq.
Proof.
  intros H. unfold frame_seq. rewrite parseMsgInit_frame. cbn.
  now rewrite N.mod_small.
Qed.

Lemma frame_op_frame (seq op : N) (payload : list byte) :
  op < 256 -> frame_op (frame seq op payload) = Some op.
Proof.
  intros H. unfold frame_op. rewrite parseMsgInit_frame. cbn.
  now rewrite N.mod_small.
Qed.

(** The calls that fill a fresh buffer build the frame of the wire
    format. *)
Lemma build_frame (seq op : N) (payload : list byte) :
  (let? buf := Buf.setUint16 (Buf.ArrayBuffer (2 + 1 + length payload)) 0 seq in
   let? buf := Buf.setUint8 buf 2 op in
   Buf.Uint8Array_set buf payload 3)
  = Ret (frame seq op payload).
Proof.
  unfold Buf.setUint16, Buf.setUint8, Buf.Uint8Array_set, Buf.ArrayBuffer.
  cbn [Nat.add repeat length].
  rewrite decide_True by lia. cbn [bind].
  cbn [list_insert insert length].
  rewrite decide_True by (cbn; lia). cbn [bind].
  rewrite decide_True by (cbn; rewrite repeat_length; lia).
  cbn. rewrite drop_ge by (rewrite repeat_length; lia).
  now rewrite app_nil_r.
Qed.

End Codec.

(** ** The send functions *)

Section Sending.
Import Js Relay.

Variable s2c : S2C.RequestTypes.

Lemma writes_frame (seq op : N) (payload : list byte) :
  writes
    (buf <- lift (Buf.setUint16 (Buf.ArrayBuffer (2 + 1 + length payload)) 0 seq) ;;
     buf <- lift (Buf.setUint8 buf 2 op) ;;
     buf <- lift (Buf.Uint8Array_set buf payload 3) ;;
     send buf)
    (frame seq op payload).
Proof.
  intros s. pose proof (build_frame seq op payload) as H.
  unfold mbind, lift, bind in *.
  destruct (Buf.setUint16 _ _ _) as [b1|]; [|discriminate].
  destruct (Buf.setUint8 _ _ _) as [b2|]; [|discriminate].
  now rewrite H.
Qed.

Lemma _sendJSONRes_frame (seq op : N) (json : jsstring) :
  writes (_sendJSONRes seq op json) (frame seq op (Text.encode json)).
Proof. apply writes_frame. Qed.

Lemma sendHTTPResponseChunk_frame (seq : N) (chunk : list byte) :
  writes (sendHTTPResponseChunk s2c seq chunk)
         (frame seq (S2C.HTTPResponseChunk s2c) chunk).
Proof. apply writes_frame. Qed.

Lemma sendWSText_frame (seq : N) (text : list byte) :
  writes (sendWSText s2c seq text) (frame seq (S2C.WSDataText s2c) text).
Proof. apply writes_frame. Qed.

Lemma sendWSBinary_frame (seq : N) (msg : list byte) :
  writes (sendWSBinary s2c seq msg) (frame seq (S2C.WSDataBinary s2c) msg).
Proof. apply writes_frame. Qed.

Lemma _sendSimpleRes_frame (seq op : N) :
  writes (_sendSimpleRes seq op) (frame seq op []).
Proof. intros s. reflexivity. Qed.

End Sending.

(** ** The HTTP exchange *)

Section Exchange.
Import Js Relay.

Variable c2s : C2S.RequestTypes.
Variable s2c : S2C.RequestTypes.
Variable platform : Platform.

Lemma remove_last_app (c : nat) (ls : list nat) : remove_last c (ls ++ [c]) = ls.
Proof.
  induction ls as [|x ls IH]; cbn.
  - rewrite decide_False by set_solver. now rewrite decide_True.
  - rewrite decide_True by set_solver. now rewrite IH.
Qed.

(** The state after a call of [handleHTTPRequest] that took its hook off
    again: only a controller was made. *)
Lemma hook_removed (s : Server) :
  set_listeners (remove_last (controllers s))
    (set_listeners (fun ls => ls ++ [controllers s]) (set_controllers S s))
  = set_controllers S s.
Proof.
  destruct s. unfold set_listeners, set_controllers. cbn.
  now rewrite remove_last_app.
Qed.

(** The fetch resolves: the hook is taken off and the response is the
    network's. *)
Lemma handleHTTPRequest_resolved env req resp (s : Server) :
  fetch env req = Ret resp ->
  handleHTTPRequest platform env req s =
  (Ret {| payload :=
            {| status := status_or_500 (statusCode resp);
               statusText := default [] (statusMessage resp);
               headers := truthy_headers (headersDistinct resp) |};
          body := map Bytes (chunks resp);
          body_errored := errored resp |},
   set_controllers S s).
Proof.
  intros H. unfold handleHTTPRequest, new_AbortController, events_on, events_off,
    mbind, catch, lift, read, modify, ret. cbn. rewrite H.
  now rewrite hook_removed.
Qed.

(** The fetch throws a [BareError]: the [catch] returns at once, and the
    hook stays. *)
Lemma handleHTTPRequest_controlled env req status body (s : Server) :
  fetch env req = Throw (BareError status body) ->
  handleHTTPRequest platform env req s =
  (Ret (bareErrorToResponse platform status body),
   set_listeners (fun ls => ls ++ [controllers s]) (set_controllers S s)).
Proof.
  intros H. unfold handleHTTPRequest, new_AbortController, events_on, events_off,
    mbind, catch, lift, read, modify, ret. cbn. now rewrite H.
Qed.

(** The fetch throws anything else: the hook is taken off and the fault
    goes on to [onMsg]. *)
Lemma handleHTTPRequest_fault env req e (s : Server) :
  fetch env req = Throw e ->
  (forall status body, e <> BareError status body) ->
  handleHTTPRequest platform env req s = (Throw e, set_controllers S s).
Proof.
  intros H Hne. unfold handleHTTPRequest, new_AbortController, events_on, events_off,
    mbind, catch, lift, read, modify, ret, throw. cbn. rewrite H.
  destruct e as [st b| |]; [now destruct (Hne st b)| |]; cbn;
    now rewrite hook_removed.
Qed.

Lemma set_sent_set_sent f g (s : Server) :
  set_sent f (set_sent g s) = set_sent (fun l => f (g l)) s.
Proof. reflexivity. Qed.

(** The loop over the body of a network response writes one chunk frame
    for each chunk, in their order. *)
Lemma chunk_frames_resolved (seq : N) (cs : list (list byte)) (s : Server) :
  for_each
    (fun chunk =>
       bytes <- lift (Uint8Array_of platform chunk) ;;
       sendHTTPResponseChunk s2c seq bytes)
    (map Bytes cs) s
  = (Ret tt,
     set_sent (fun l => l ++ map (frame seq (S2C.HTTPResponseChunk s2c)) cs) s).
Proof.
  revert s. induction cs as [|c cs IH]; intros s.
  - cbn. unfold ret, set_sent. destruct s; cbn. now rewrite app_nil_r.
  - cbn [map for_each]. unfold mbind at 1. unfold mbind at 1. cbn [lift Uint8Array_of].
    rewrite sendHTTPResponseChunk_frame, IH, set_sent_set_sent.
    unfold set_sent; cbn. now rewrite <- app_assoc.
Qed.

(** The text of the body of a [BareError] starts with a brace. *)
Lemma stringify_body_brace (b : BareErrorBody) :
  exists rest, stringify_body b = 0x7B :: rest.
Proof. unfold stringify_body, Json.object. cbn. eauto. Qed.

(** The loop over the body that [bareErrorToResponse] makes writes one
    chunk frame, and the array made of the text is empty. *)
Lemma chunk_frames_controlled (seq : N) (b : BareErrorBody) (s : Server) :
  for_each
    (fun chunk =>
       bytes <- lift (Uint8Array_of platform chunk) ;;
       sendHTTPResponseChunk s2c seq bytes)
    (Readable_from (stringify_body b)) s
  = (Ret tt,
     set_sent (fun l => l ++ [frame seq (S2C.HTTPResponseChunk s2c) []]) s).
Proof.
  destruct (stringify_body_brace b) as [rest E].
  unfold Readable_from. rewrite E. cbn [for_each].
  unfold mbind at 1. unfold mbind at 1. cbn [lift Uint8Array_of].
  now rewrite sendHTTPResponseChunk_frame.
Qed.

End Exchange.

Section HTTPRequest.
Import Js Relay.

Variable c2s : C2S.RequestTypes.
Variable s2c : S2C.RequestTypes.
Variable platform : Platform.

(** The sends of [onMsg] after the [try]: the start frame, a chunk frame
    for each chunk of the body, and the end frame if the body has not
    failed; if it has, the loop throws and the end frame is not written. *)
Lemma respond (seq : N) (p : HTTPResponsePayload) (b : list Chunk)
    (failure : option Thrown) (cs : list (list byte)) (s : Server) :
  (forall s,
     for_each
       (fun chunk =>
          bytes <- lift (Uint8Array_of platform chunk) ;;
          sendHTTPResponseChunk s2c seq bytes)
       b s
     = (Ret tt,
        set_sent (fun l => l ++ map (frame seq (S2C.HTTPResponseChunk s2c)) cs) s)) ->
  (sendHTTPResponseStart s2c seq p ;;;
   for_await
     (fun chunk =>
        bytes <- lift (Uint8Array_of platform chunk) ;;
        sendHTTPResponseChunk s2c seq bytes)
     b failure ;;;
   sendHTTPResponseEnd s2c seq) s
  = match failure with
    | None => (Ret tt, set_sent (fun l => l ++ exchange_frames s2c seq p cs) s)
    | Some e => (Throw e, set_sent (fun l => l ++ unfinished_frames s2c seq p cs) s)
    end.
Proof.
  intros H. unfold mbind at 1. unfold sendHTTPResponseStart, sendHTTPResponseEnd.
  rewrite _sendJSONRes_frame. unfold mbind at 1, for_await. unfold mbind at 1.
  rewrite H. destruct failure as [e|].
  - unfold throw, set_sent, unfinished_frames.
    cbn [sent sockets heap listeners aborted controllers]. do 2 f_equal.
    rewrite <- !app_assoc. reflexivity.
  - unfold ret. rewrite _sendSimpleRes_frame.
    unfold set_sent, exchange_frames.
    cbn [sent sockets heap listeners aborted controllers]. do 2 f_equal.
    rewrite <- !app_assoc. reflexivity.
Qed.

Section Frame.

Variables (env : Collaborators) (msg : list byte) (i : MsgInit) (req : Json.Value).
Hypothesis Hinit : parseMsgInit msg = Ret (Some i).
Hypothesis Hop : op i = C2S.HTTPRequest c2s.
Hypothesis Hreq : tryParseJSONPayload (Buf.slice msg (cursor i)) = Ret (Some req).
Hypothesis Htruthy : Json.truthy (Some req) = true.

(** [onMsg] on such a frame comes to the [try] of the [HTTPRequest]
    case. *)
Lemma onMsg_HTTPRequest (s : Server) :
  onMsg c2s s2c platform env msg s =
  (resp <- catch (handleHTTPRequest platform env req)
             (fun e =>
                let '(status, body) := to_BareError platform e in
                ret (bareErrorToResponse platform status body)) ;;
   sendHTTPResponseStart s2c (seq i) (payload resp) ;;;
   for_await
     (fun chunk =>
        bytes <- lift (Uint8Array_of platform chunk) ;;
        sendHTTPResponseChunk s2c (seq i) bytes)
     (body resp) (body_errored resp) ;;;
   sendHTTPResponseEnd s2c (seq i)) s.
Proof.
  unfold onMsg. unfold mbind at 1, lift at 1. rewrite Hinit.
  destruct i as [cur sq o]; cbn [op cursor seq] in *. rewrite Hop, N.eqb_refl.
  unfold mbind at 1, lift at 1. now rewrite Hreq, Htruthy.
Qed.

(** The fetch resolves: the answer is complete if the body comes to its
    end, and the handler rejects with the start frame and the chunk
    frames written if the body fails. *)
Lemma onMsg_resolved resp (s : Server) :
  fetch env req = Ret resp ->
  let p := {| status := status_or_500 (statusCode resp);
              statusText := default [] (statusMessage resp);
              headers := truthy_headers (headersDistinct resp) |} in
  onMsg c2s s2c platform env msg s =
  match errored resp with
  | None =>
      (Ret tt,
       set_sent (fun l => l ++ exchange_frames s2c (seq i) p (chunks resp))
         (set_controllers S s))
  | Some e =>
      (Throw e,
       set_sent (fun l => l ++ unfinished_frames s2c (seq i) p (chunks resp))
         (set_controllers S s))
  end.
Proof.
  intros Hf p. rewrite onMsg_HTTPRequest.
  unfold mbind at 1, catch. rewrite (handleHTTPRequest_resolved _ _ _ resp) by exact Hf.
  cbn [payload body body_errored]. apply respond. apply chunk_frames_resolved.
Qed.

(** The fetch throws a [BareError]. *)
Lemma onMsg_controlled status b (s : Server) :
  fetch env req = Throw (BareError status b) ->
  onMsg c2s s2c platform env msg s =
  (Ret tt,
   set_sent (fun l => l ++
     exchange_frames s2c (seq i)
       {| status := status;
          statusText := default [] (STATUS_CODES platform status);
          headers := [] |}
       [[]])
     (set_listeners (fun ls => ls ++ [controllers s]) (set_controllers S s))).
Proof.
  intros Hf. rewrite onMsg_HTTPRequest.
  unfold mbind at 1, catch. rewrite (handleHTTPRequest_controlled _ _ _ status b) by exact Hf.
  unfold bareErrorToResponse. cbn [payload body body_errored].
  apply (respond _ _ _ None). apply chunk_frames_controlled.
Qed.

(** The fetch throws anything else. *)
Lemma onMsg_fault e (s : Server) :
  fetch env req = Throw e ->
  (forall status b, e <> BareError status b) ->
  onMsg c2s s2c platform env msg s =
  (Ret tt,
   set_sent (fun l => l ++
     exchange_frames s2c (seq i)
       {| status := 500;
          statusText := default [] (STATUS_CODES platform 500);
          headers := [] |}
       [[]])
     (set_controllers S s)).
Proof.
  intros Hf Hne. rewrite onMsg_HTTPRequest.
  unfold mbind at 1, catch. rewrite (handleHTTPRequest_fault _ _ _ e) by assumption.
  destruct e as [st b| |]; [now destruct (Hne st b)| |];
    cbn [to_BareError]; unfold ret, bareErrorToResponse;
    cbn [payload body body_errored];
    apply (respond _ _ _ None); apply chunk_frames_controlled.
Qed.

End Frame.
End HTTPRequest.

(** ** What a method can change *)

Section Steady.
Import Js Relay.

Lemma stable_refl (s : Server) : stable s s.
Proof. split; [reflexivity|]. intros ws w H. exists w. auto. Qed.

Lemma stable_trans (s1 s2 s3 : Server) : stable s1 s2 -> stable s2 s3 -> stable s1 s3.
Proof.
  intros [H1 K1] [H2 K2]. split; [congruence|].
  intros ws w H. destruct (K1 ws w H) as (w' & H' & ? & ? & ?).
  destruct (K2 ws w' H') as (w'' & H'' & ? & ? & ?).
  exists w''. repeat split; congruence.
Qed.

Lemma steady_ret {A} (a : A) : steady (ret a).
Proof. intros s. apply stable_refl. Qed.

Lemma steady_throw {A} (e : Thrown) : steady (throw (A := A) e).
Proof. intros s. apply stable_refl. Qed.

Lemma steady_lift {A} (r : Res A) : steady (lift r).
Proof. intros s. apply stable_refl. Qed.

Lemma steady_read {A} (f : Server -> A) : steady (read f).
Proof. intros s. apply stable_refl. Qed.

Lemma steady_mbind {A B} (c : M A) (k : A -> M B) :
  steady c -> (forall a, steady (k a)) -> steady (mbind c k).
Proof.
  intros Hc Hk s. unfold mbind. specialize (Hc s).
  destruct (c s) as [[a|e] s1]; cbn in *; [|assumption].
  eapply stable_trans; [eassumption|apply Hk].
Qed.

Lemma steady_catch {A} (c : M A) (h : Thrown -> M A) :
  steady c -> (forall e, steady (h e)) -> steady (catch c h).
Proof.
  intros Hc Hh s. unfold catch. specialize (Hc s).
  destruct (c s) as [[a|e] s1]; cbn in *; [assumption|].
  eapply stable_trans; [eassumption|apply Hh].
Qed.

Lemma steady_for_each {A} (f : A -> M unit) (l : list A) :
  (forall a, steady (f a)) -> steady (for_each f l).
Proof.
  intros Hf. induction l as [|a l IH]; cbn.
  - apply steady_ret.
  - apply steady_mbind; auto.
Qed.

Lemma steady_for_await {A} (f : A -> M unit) (l : list A) (failure : option Thrown) :
  (forall a, steady (f a)) -> steady (for_await f l failure).
Proof.
  intros Hf. unfold for_await. apply steady_mbind; [now apply steady_for_each|].
  intros _. destruct failure; [apply steady_throw|apply steady_ret].
Qed.

Lemma steady_modify (f : Server -> Server) :
  (forall s, sockets (f s) = sockets s /\ heap (f s) = heap s) -> steady (modify f).
Proof.
  intros H s. cbn. destruct (H s) as [H1 H2]. split; [assumption|].
  intros ws w Hw. exists w. rewrite H2. auto.
Qed.

(** A call on a socket that leaves its handlers as they are. *)
Lemma steady_update (ws : nat) (f : WebSocket -> WebSocket) :
  (forall w, onopen (f w) = onopen w /\ onclose (f w) = onclose w
             /\ onmessage (f w) = onmessage w) ->
  steady (update ws f).
Proof.
  intros H s. unfold update, modify, set_heap. cbn [snd heap sockets].
  split; [reflexivity|].
  intros ws' w Hw. simpl. destruct (decide (ws = ws')) as [->|Hne].
  - exists (f w). split; [|apply H].
    rewrite list_lookup_alter_eq. now rewrite Hw.
  - exists w. rewrite list_lookup_alter_ne by assumption. auto.
Qed.

Lemma steady_send (buf : list byte) : steady (send buf).
Proof. apply steady_modify. intros s. auto. Qed.

End Steady.

Create HintDb steady discriminated.
#[export] Hint Resolve steady_ret steady_throw steady_lift steady_read steady_mbind
  steady_catch steady_for_each steady_send : steady.

Section SteadyMethods.
Import Js Relay.

Variable c2s : C2S.RequestTypes.
Variable s2c : S2C.RequestTypes.
Variable platform : Platform.

Lemma steady__sendJSONRes seq op json : steady (_sendJSONRes seq op json).
Proof. unfold _sendJSONRes. auto 10 with steady. Qed.

Lemma steady__sendSimpleRes seq op : steady (_sendSimpleRes seq op).
Proof. unfold _sendSimpleRes. auto 10 with steady. Qed.

Lemma steady_sendHTTPResponseChunk seq chunk : steady (sendHTTPResponseChunk s2c seq chunk).
Proof. unfold sendHTTPResponseChunk. auto 10 with steady. Qed.

Lemma steady_sendWSText seq text : steady (sendWSText s2c seq text).
Proof. unfold sendWSText. auto 10 with steady. Qed.

Lemma steady_sendWSBinary seq msg : steady (sendWSBinary s2c seq msg).
Proof. unfold sendWSBinary. auto 10 with steady. Qed.

Lemma steady_events_off c : steady (events_off c).
Proof. apply steady_modify. intros s. auto. Qed.

Lemma steady_onClose_hook c : steady (onClose_hook c).
Proof.
  unfold onClose_hook. apply steady_mbind; [|intros _; apply steady_events_off].
  apply steady_modify. intros s. auto.
Qed.

Lemma steady_handleHTTPRequest env req : steady (handleHTTPRequest platform env req).
Proof.
  unfold handleHTTPRequest, new_AbortController, events_on.
  apply steady_mbind.
  { apply steady_mbind; [apply steady_read|]. intros c.
    apply steady_mbind; [|auto with steady].
    apply steady_modify. intros s. auto. }
  intros c. apply steady_mbind; [apply steady_modify; intros s; auto|]. intros _.
  apply steady_mbind.
  - apply steady_catch; [auto with steady|].
    intros [st b| |]; auto using steady_events_off with steady.
  - intros [early|resp]; auto using steady_events_off with steady.
Qed.

Lemma steady_ws_onopen ws : steady (ws_onopen s2c ws).
Proof.
  unfold ws_onopen, handler. apply steady_mbind; [apply steady_read|].
  intros [seq|]; [apply steady__sendSimpleRes|apply steady_ret].
Qed.

Lemma steady_ws_onclose ws e : steady (ws_onclose s2c ws e).
Proof.
  unfold ws_onclose, handler. apply steady_mbind; [apply steady_read|].
  intros [seq|]; [apply steady__sendJSONRes|apply steady_ret].
Qed.

Lemma steady_ws_onmessage ws m : steady (ws_onmessage s2c ws m).
Proof.
  unfold ws_onmessage, handler. apply steady_mbind; [apply steady_read|].
  intros [seq|]; [|apply steady_ret].
  destruct m as [d [|]| | | |];
    auto using steady_sendWSText, steady_sendWSBinary, steady_throw.
Qed.

Lemma steady_onClose : steady (onClose).
Proof.
  unfold onClose. apply steady_mbind; [apply steady_read|].
  intros ls. apply steady_for_each, steady_onClose_hook.
Qed.

End SteadyMethods.

(** ** The message handler, case by case *)

Section Dispatch.
Import Js Relay.

Variable c2s : C2S.RequestTypes.
Variable s2c : S2C.RequestTypes.
Variable platform : Platform.

#[local] Abbreviation onMsg := (onMsg c2s s2c platform).
#[local] Abbreviation step := (step c2s s2c platform).
#[local] Abbreviation run := (run c2s s2c platform).

(** [JSON.parse] throws nothing but a [SyntaxError], which the [catch] of
    [tryParseJSONPayload] turns into [undefined]. *)
Lemma tryParseJSONPayload_spec (raw : list byte) :
  tryParseJSONPayload raw =
  match Json.parse (Text.decode raw) with
  | Ret v => Ret (Some v)
  | Throw _ => Ret None
  end.
Proof.
  unfold tryParseJSONPayload, Json.parse.
  now destruct (Json.lex _ _ ≫= _).
Qed.

Lemma tryParseJSONPayload_returns (raw : list byte) :
  exists p, tryParseJSONPayload raw = Ret p.
Proof.
  rewrite tryParseJSONPayload_spec. destruct (Json.parse _); eauto.
Qed.

(** No two of the codes of distinct operations are equal. *)
Lemma distinct_codes :
  C2S.distinct c2s ->
  C2S.HTTPRequest c2s <> C2S.WSOpen c2s /\
  (forall o,
     o = C2S.WSSendText c2s \/ o = C2S.WSSendBinary c2s \/ o = C2S.WSClose c2s ->
     o <> C2S.HTTPRequest c2s /\ o <> C2S.WSOpen c2s).
Proof.
  unfold C2S.distinct. intros H.
  apply NoDup_cons in H as [H1 H]. apply NoDup_cons in H as [H2 H].
  rewrite !not_elem_of_cons in H1. rewrite !not_elem_of_cons in H2.
  destruct H1 as (? & ? & ? & ? & _), H2 as (? & ? & ? & _).
  split; [assumption|]. intros o [E|[E|E]]; subst o; split; congruence.
Qed.

Lemma alter_snoc {A} (f : A -> A) (l : list A) (a : A) :
  alter f (length l) (l ++ [a]) = l ++ [f a].
Proof.
  rewrite <- (Nat.add_0_r (length l)) at 1. now rewrite alter_app_r.
Qed.

Section Frame.

Variables (env : Collaborators) (msg : list byte) (i : MsgInit).
Hypothesis Hinit : parseMsgInit msg = Ret (Some i).

(** Where a [WSOpen] frame leads. *)
Lemma onMsg_WSOpen (s : Server) :
  op i = C2S.WSOpen c2s ->
  C2S.HTTPRequest c2s <> C2S.WSOpen c2s ->
  onMsg env msg s =
  match (let? payload := tryParseJSONPayload (Buf.slice msg (cursor i)) in
         let? url := Json.get payload (str "url") in
         let? _ := new_WebSocket env url in
         Ret url) with
  | Ret url => (Ret tt, opened s (seq i) url)
  | Throw e => (Throw e, s)
  end.
Proof.
  intros Hop Hne. unfold Relay.onMsg. unfold mbind at 1, lift at 1. rewrite Hinit.
  destruct i as [cur sq o]; cbn [op cursor seq] in *. subst o.
  destruct (N.eqb_spec (C2S.WSOpen c2s) (C2S.HTTPRequest c2s)) as [E|_]; [congruence|].
  rewrite N.eqb_refl. unfold mbind at 1, lift at 1.
  destruct (tryParseJSONPayload _) as [p|e]; [|reflexivity]. cbn [bind].
  unfold mbind at 1, lift at 1.
  destruct (Json.get p _) as [u|e]; [|reflexivity]. cbn [bind].
  unfold mbind at 1, lift at 1.
  destruct (new_WebSocket env u) as [[]|e]; [|reflexivity]. cbn [bind].
  unfold new_socket, update, modify, read, mbind, ret, opened, set_heap, set_sockets.
  cbn [sent sockets heap listeners aborted controllers]. f_equal. f_equal.
  now rewrite !alter_snoc.
Qed.

(** A frame for a socket, on a sequence id that has none. *)
Lemma onMsg_unregistered (s : Server) :
  op i = C2S.WSSendText c2s \/ op i = C2S.WSSendBinary c2s
    \/ op i = C2S.WSClose c2s ->
  C2S.distinct c2s ->
  sockets s !! seq i = None ->
  onMsg env msg s = (Ret tt, s).
Proof.
  intros Hop Hd Hs. destruct (distinct_codes Hd) as [_ Hd'].
  destruct (Hd' _ Hop) as [H1 H2].
  unfold Relay.onMsg. unfold mbind at 1, lift at 1. rewrite Hinit.
  destruct i as [cur sq o]; cbn [op cursor seq] in *.
  destruct (N.eqb_spec o (C2S.HTTPRequest c2s)); [congruence|].
  destruct (N.eqb_spec o (C2S.WSOpen c2s)); [congruence|].
  repeat destruct (N.eqb _ _); try reflexivity; unfold mbind, read; now rewrite Hs.
Qed.

End Frame.

(** The [HTTPRequest] case leaves the registry and the sockets alone. *)
Lemma steady_HTTPRequest env msg cur sq :
  steady
    (reqPayload <- lift (tryParseJSONPayload (Buf.slice msg cur)) ;;
     match reqPayload with
     | Some req =>
         if Json.truthy reqPayload then
           resp <- catch (handleHTTPRequest platform env req)
                     (fun e =>
                        let '(status, body) := to_BareError platform e in
                        ret (bareErrorToResponse platform status body)) ;;
           sendHTTPResponseStart s2c sq (payload resp) ;;;
           for_await
             (fun chunk =>
                bytes <- lift (Uint8Array_of platform chunk) ;;
                sendHTTPResponseChunk s2c sq bytes)
             (body resp) (body_errored resp) ;;;
           sendHTTPResponseEnd s2c sq
         else ret tt
     | None => ret tt
     end).
Proof.
  apply steady_mbind; [apply steady_lift|]. intros [req|]; [|apply steady_ret].
  destruct (Json.truthy _); [|apply steady_ret].
  apply steady_mbind.
  - apply steady_catch; [apply steady_handleHTTPRequest|].
    intros e. destruct (to_BareError platform e). apply steady_ret.
  - intros resp. apply steady_mbind; [apply steady__sendJSONRes|]. intros _.
    apply steady_mbind; [|intros _; apply steady__sendSimpleRes].
    apply steady_for_await. intros c.
    apply steady_mbind; [apply steady_lift|]. intros b.
    apply steady_sendHTTPResponseChunk.
Qed.

(** A call on the socket registered under [sq] leaves the registry and
    the handlers alone. *)
Lemma steady_socket_call (sq : N) (r : Res unit) (f : WebSocket -> WebSocket) :
  (forall w, onopen (f w) = onopen w /\ onclose (f w) = onclose w
             /\ onmessage (f w) = onmessage w) ->
  steady
    (socket <- read (fun s => sockets s !! sq) ;;
     match socket with
     | None => ret tt
     | Some ws => lift r ;;; update ws f
     end).
Proof.
  intros Hf. apply steady_mbind; [apply steady_read|]. intros [ws|]; [|apply steady_ret].
  apply steady_mbind; [apply steady_lift|]. intros _. now apply steady_update.
Qed.

(** Whatever the frame, [onMsg] leaves the registry and the handlers as
    they are, unless it opens a socket for a [WSOpen] frame. *)
Lemma onMsg_effect env msg (s : Server) :
  stable s (snd (onMsg env msg s)) \/
  exists i u,
    parseMsgInit msg = Ret (Some i) /\ op i = C2S.WSOpen c2s /\
    snd (onMsg env msg s) = opened s (seq i) u.
Proof.
  destruct (parseMsgInit msg) as [[i|]|e] eqn:Hinit;
    [|left; unfold Relay.onMsg, mbind, lift; rewrite Hinit; apply stable_refl..].
  destruct (N.eqb_spec (op i) (C2S.HTTPRequest c2s)) as [Hhttp|Hhttp].
  - left. unfold Relay.onMsg. unfold mbind at 1, lift at 1. rewrite Hinit.
    destruct i as [cur sq o]; cbn [op] in *. subst o. rewrite N.eqb_refl.
    apply steady_HTTPRequest.
  - destruct (N.eqb_spec (op i) (C2S.WSOpen c2s)) as [Hopen|Hopen].
    + rewrite (onMsg_WSOpen env msg i Hinit s Hopen) by congruence.
      destruct (let? _ := _ in _) as [u|e]; [|left; apply stable_refl].
      right. eauto.
    + left. unfold Relay.onMsg. unfold mbind at 1, lift at 1. rewrite Hinit.
      destruct i as [cur sq o]; cbn [op] in *.
      destruct (N.eqb_spec o (C2S.HTTPRequest c2s)); [contradiction|].
      destruct (N.eqb_spec o (C2S.WSOpen c2s)); [contradiction|].
      repeat destruct (N.eqb _ _);
        try (apply steady_socket_call; intros w; cbn; auto).
      apply stable_refl.
Qed.

(** The same for every event. *)
Lemma step_effect ev (s : Server) :
  stable s (step s ev) \/
  exists env msg i u,
    ev = Message env msg /\
    parseMsgInit msg = Ret (Some i) /\ op i = C2S.WSOpen c2s /\
    step s ev = opened s (seq i) u.
Proof.
  destruct ev as [env msg| |ws|ws e|ws m]; unfold Relay.step; cbn [handle].
  - destruct (onMsg_effect env msg s) as [H|(i & u & H1 & H2 & H3)]; [now left|].
    right. exists env, msg, i, u. auto.
  - left. apply steady_onClose.
  - left. apply steady_ws_onopen.
  - left. apply steady_ws_onclose.
  - left. apply steady_ws_onmessage.
Qed.

(** *** The registry names sockets bound to their sequence id *)

Lemma registered_stable (s s' : Server) : registered s -> stable s s' -> registered s'.
Proof.
  intros Hr [Hs Hh] sq ws H. rewrite Hs in H.
  destruct (Hr sq ws H) as (w & Hw & B1 & B2 & B3).
  destruct (Hh ws w Hw) as (w' & Hw' & E1 & E2 & E3).
  exists w'. split; [assumption|]. unfold bound_to. repeat split; congruence.
Qed.

Lemma registered_opened (s : Server) (sq : N) u : registered s -> registered (opened s sq u).
Proof.
  intros Hr sq' ws. unfold opened, set_heap, set_sockets. cbn [sockets heap].
  rewrite lookup_insert. destruct (decide (sq = sq')) as [->|Hne]; intros H.
  - injection H as <-. eexists. split.
    + apply list_lookup_middle. reflexivity.
    + repeat split.
  - destruct (Hr sq' ws H) as (w & Hw & B). exists w. split; [|assumption].
    now apply lookup_app_l_Some.
Qed.

Lemma registered_step ev (s : Server) : registered s -> registered (step s ev).
Proof.
  intros Hr. destruct (step_effect ev s) as [H|(env & msg & i & u & _ & _ & _ & ->)].
  - eapply registered_stable; eassumption.
  - now apply registered_opened.
Qed.

Lemma registered_run evs (s : Server) : registered s -> registered (run s evs).
Proof.
  revert s. induction evs as [|ev evs IH]; intros s Hr; [assumption|].
  cbn. apply IH. now apply registered_step.
Qed.

Lemma registered_initial : registered initial.
Proof. intros sq ws H. cbn in H. now rewrite lookup_empty in H. Qed.

End Dispatch.

(** ** The claims of the specification *)

Section Claims.
Import Js Relay.

Variable c2s : C2S.RequestTypes.
Variable s2c : S2C.RequestTypes.
Variable platform : Platform.

#[local] Abbreviation onMsg := (onMsg c2s s2c platform).
#[local] Abbreviation step := (step c2s s2c platform).
#[local] Abbreviation run := (run c2s s2c platform).


(** C2, as amended. For every [HTTPRequest] exchange in which the fetch
    fails with a controlled error of some status and body, the relay
    writes an [HTTPResponseStart] frame with that status, then one
    [HTTPResponseChunk] frame for the one chunk of the body made for the
    error, then an [HTTPResponseEnd] frame, all on the sequence id of the
    request. *)
Theorem controlled_failure_frames env msg i req status body (s : Server) :
  parseMsgInit msg = Ret (Some i) ->
  op i = C2S.HTTPRequest c2s ->
  tryParseJSONPayload (Buf.slice msg (cursor i)) = Ret (Some req) ->
  Json.truthy (Some req) = true ->
  fetch env req = Throw (BareError status body) ->
  exists chunk,
    fst (onMsg env msg s) = Ret tt /\
    sent (snd (onMsg env msg s)) =
      sent s ++
      [frame (seq i) (S2C.HTTPResponseStart s2c)
         (Text.encode (stringify_payload
            {| Relay.status := status;
               statusText := default [] (STATUS_CODES platform status);
               headers := [] |}));
       frame (seq i) (S2C.HTTPResponseChunk s2c) chunk;
       frame (seq i) (S2C.HTTPResponseEnd s2c) []].
Proof.
  intros Hinit Hop Hreq Htruthy Hf. exists [].
  rewrite (onMsg_controlled c2s s2c platform env msg i req Hinit Hop Hreq Htruthy
             status body s Hf).
  split; reflexivity.
Qed.

(** The listeners after an exchange, by the outcome of the fetch: the
    hook is gone when the fetch resolves or fails with a fault, and it is
    still registered when the fetch fails with a [BareError]. *)
Lemma listeners_after_exchange env msg i req (s : Server) :
  parseMsgInit msg = Ret (Some i) ->
  op i = C2S.HTTPRequest c2s ->
  tryParseJSONPayload (Buf.slice msg (cursor i)) = Ret (Some req) ->
  Json.truthy (Some req) = true ->
  listeners (step s (Message env msg)) =
  match fetch env req with
  | Throw (BareError _ _) => listeners s ++ [controllers s]
  | _ => listeners s
  end.
Proof.
  intros Hinit Hop Hreq Htruthy. unfold Relay.step. cbn [handle].
  destruct (fetch env req) as [resp|[st b|cls m k|t]] eqn:Hf.
  - rewrite (onMsg_resolved c2s s2c platform env msg i req Hinit Hop Hreq Htruthy resp s Hf).
    now destruct (errored resp).
  - now rewrite (onMsg_controlled c2s s2c platform env msg i req Hinit Hop Hreq Htruthy st b s Hf).
  - now rewrite (onMsg_fault c2s s2c platform env msg i req Hinit Hop Hreq Htruthy _ s Hf).
  - now rewrite (onMsg_fault c2s s2c platform env msg i req Hinit Hop Hreq Htruthy _ s Hf).
Qed.

(** A [WSOpen] frame whose payload does not decode: reading [url] from
    [undefined] throws, and the handler rejects with the state as it
    was. *)
Lemma onMsg_WSOpen_undecodable env msg i (s : Server) :
  parseMsgInit msg = Ret (Some i) ->
  op i = C2S.WSOpen c2s ->
  C2S.HTTPRequest c2s <> C2S.WSOpen c2s ->
  tryParseJSONPayload (Buf.slice msg (cursor i)) = Ret None ->
  onMsg env msg s =
  (Throw (Error TypeError (str "Cannot read properties of undefined") None), s).
Proof.
  intros Hinit Hop Hne Hp. rewrite (onMsg_WSOpen c2s s2c platform env msg i Hinit s Hop Hne).
  now rewrite Hp.
Qed.

(** C5. For every 16-bit sequence id, 8-bit operation code and payload,
    the buffer that each of the send functions writes decodes to a header
    with the same sequence id, the same operation code and the payload
    offset 3, and the bytes from that offset on are the payload. *)
Theorem header_roundtrip (seq op : N) (payload : list byte) (json : jsstring) :
  seq < 65536 ->
  op < 256 ->
  S2C.octets s2c ->
  (exists buf, writes (_sendJSONRes seq op json) buf
               /\ decodes_to buf seq op (Text.encode json)) /\
  (exists buf, writes (_sendSimpleRes seq op) buf /\ decodes_to buf seq op []) /\
  (exists buf, writes (sendHTTPResponseChunk s2c seq payload) buf
               /\ decodes_to buf seq (S2C.HTTPResponseChunk s2c) payload) /\
  (exists buf, writes (sendWSText s2c seq payload) buf
               /\ decodes_to buf seq (S2C.WSDataText s2c) payload) /\
  (exists buf, writes (sendWSBinary s2c seq payload) buf
               /\ decodes_to buf seq (S2C.WSDataBinary s2c) payload).
Proof.
  intros Hseq Hop Hcodes.
  assert (forall o p, o < 256 -> decodes_to (frame seq o p) seq o p) as D.
  { intros o p Ho. split; [|reflexivity].
    rewrite parseMsgInit_frame. now rewrite !N.mod_small by assumption. }
  unfold S2C.octets in Hcodes. rewrite !Forall_cons in Hcodes.
  destruct Hcodes as (_ & Hchunk & _ & _ & _ & Htext & Hbinary & _).
  split; [eexists; split; [apply _sendJSONRes_frame|now apply D]|].
  split; [eexists; split; [apply _sendSimpleRes_frame|now apply D]|].
  split; [eexists; split; [apply sendHTTPResponseChunk_frame|now apply D]|].
  split; [eexists; split; [apply sendWSText_frame|now apply D]|].
  eexists; split; [apply sendWSBinary_frame|now apply D].
Qed.

(** C6. For every buffer shorter than 3 bytes, [parseMsgInit] returns
    [undefined] without throwing (it is a function of the buffer alone),
    and [onMsg] resolves with the state as it was: no frame is written
    and the registry is unchanged. *)
Theorem short_message_dropped (msg : list byte) :
  (length msg < 3)%nat ->
  parseMsgInit msg = Ret None /\
  forall env (s : Server), onMsg env msg s = (Ret tt, s).
Proof.
  intros Hlen.
  assert (parseMsgInit msg = Ret None) as H.
  { destruct msg as [|a [|b [|c rest]]]; cbn in Hlen; try lia; reflexivity. }
  split; [assumption|]. intros env s.
  unfold Relay.onMsg, mbind, lift. now rewrite H.
Qed.

(** C7, as amended. For every payload, [tryParseJSONPayload] returns the
    parsed value when the text that the lenient UTF-8 decoder makes of the
    bytes is JSON, and [undefined] when that text is not JSON; it never
    throws. *)
Theorem tryParseJSONPayload_total (raw : list byte) :
  tryParseJSONPayload raw =
  match Json.parse (Text.decode raw) with
  | Ret v => Ret (Some v)
  | Throw _ => Ret None
  end /\
  ~ throws (tryParseJSONPayload raw).
Proof.
  split; [apply tryParseJSONPayload_spec|].
  destruct (tryParseJSONPayload_returns raw) as [p ->]. cbn. tauto.
Qed.

(** C8, as amended. No event removes a registry entry: an event that is
    no message leaves the whole registry as it is (so the close of the
    socket and the close of the channel do), and after a message the
    entry is still there, with another socket only if the message is a
    [WSOpen] frame on the same sequence id. *)
Theorem registry_entry_never_removed ev (sq : N) (ws : nat) (s : Server) :
  sockets s !! sq = Some ws ->
  ((forall env msg, ev <> Message env msg) -> sockets (step s ev) = sockets s) /\
  is_Some (sockets (step s ev) !! sq) /\
  (sockets (step s ev) !! sq <> Some ws ->
   exists env msg i,
     ev = Message env msg /\ parseMsgInit msg = Ret (Some i) /\
     op i = C2S.WSOpen c2s /\ seq i = sq).
Proof.
  intros H.
  destruct (step_effect c2s s2c platform ev s)
    as [[Hs _]|(env & msg & i & u & -> & Hi & Ho & Hst)].
  - rewrite Hs. repeat split; [eauto|congruence].
  - split; [intros Hne; now destruct (Hne env msg)|].
    rewrite Hst. unfold opened, set_heap, set_sockets. cbn [sockets].
    rewrite lookup_insert. destruct (decide (seq i = sq)) as [E|E].
    + split; [eauto|]. intros _. exists env, msg, i. auto.
    + split; [eauto|]. congruence.
Qed.

(** C9. For every [WSSendText], [WSSendBinary] or [WSClose] frame on a
    sequence id that has no socket in the registry, [onMsg] resolves with
    the state as it was: no frame is written, nothing is thrown, and the
    registry and the sockets are unchanged. *)
Theorem unknown_sequence_ignored env msg i (s : Server) :
  C2S.distinct c2s ->
  parseMsgInit msg = Ret (Some i) ->
  op i = C2S.WSSendText c2s \/ op i = C2S.WSSendBinary c2s \/ op i = C2S.WSClose c2s ->
  sockets s !! seq i = None ->
  onMsg env msg s = (Ret tt, s).
Proof.
  intros Hd Hinit Hop Hs. now apply onMsg_unregistered with (i := i).
Qed.

End Claims.

Section Collision.
Import Js Relay.

Variable c2s : C2S.RequestTypes.
Variable s2c : S2C.RequestTypes.
Variable platform : Platform.

#[local] Abbreviation onMsg := (onMsg c2s s2c platform).
#[local] Abbreviation step := (step c2s s2c platform).
#[local] Abbreviation run := (run c2s s2c platform).

(** A socket whose handlers are bound to [sq] relays on [sq]. *)
Lemma bound_relays (ws : nat) (w : WebSocket) (sq : N) (s : Server) :
  heap s !! ws = Some w -> bound_to sq w -> relays s2c ws sq s.
Proof.
  intros Hw (B1 & B2 & B3). unfold relays, ws_onopen, ws_onclose, ws_onmessage, handler.
  unfold mbind, read. rewrite Hw.
  change (Some w ≫= onopen) with (onopen w).
  change (Some w ≫= onclose) with (onclose w).
  change (Some w ≫= onmessage) with (onmessage w).
  rewrite B1, B2, B3.
  unfold sendWSOpen, sendWSClose.
  split; [apply _sendSimpleRes_frame|].
  split; [intros e; apply _sendJSONRes_frame|].
  split; [intros d; apply sendWSBinary_frame|].
  split; [intros d; apply sendWSText_frame|].
  split; [intros d; apply sendWSText_frame|].
  intros d; apply sendWSBinary_frame.
Qed.

(** C10, as amended. In every state that the relay reaches, for every
    [WSOpen] frame on a sequence id that has a registered socket, if the
    payload decodes and the constructor accepts its url, the handler
    resolves and puts the new socket in the registry in place of the old
    one, without a look at the entry; nothing is written; the old socket
    is as it was, neither closed nor stripped of its handlers, and these
    still relay on the same sequence id. *)
Theorem WSOpen_replaces_entry evs env msg i (old : nat) p u :
  let s := run initial evs in
  C2S.distinct c2s ->
  parseMsgInit msg = Ret (Some i) ->
  op i = C2S.WSOpen c2s ->
  sockets s !! seq i = Some old ->
  tryParseJSONPayload (Buf.slice msg (cursor i)) = Ret p ->
  Json.get p (str "url") = Ret u ->
  new_WebSocket env u = Ret tt ->
  let s' := step s (Message env msg) in
  let new := length (heap s) in
  fst (onMsg env msg s) = Ret tt /\
  sockets s' !! seq i = Some new /\
  new <> old /\
  heap s !! new = None /\
  (exists w, heap s' !! new = Some w /\ url w = u /\ bound_to (seq i) w) /\
  sent s' = sent s /\
  heap s' !! old = heap s !! old /\
  relays s2c old (seq i) s'.
Proof.
  intros s Hd Hinit Hop Hold Hp Hu Hws s' new.
  assert (registered s) as Hr
    by apply (registered_run c2s s2c platform), registered_initial.
  destruct (distinct_codes c2s Hd) as [Hne _].
  assert (onMsg env msg s = (Ret tt, opened s (seq i) u)) as E.
  { rewrite (onMsg_WSOpen c2s s2c platform env msg i Hinit s Hop Hne).
    rewrite Hp. cbn [bind]. rewrite Hu. cbn [bind]. now rewrite Hws. }
  assert (s' = opened s (seq i) u) as Es by (unfold s', Relay.step; cbn [handle]; now rewrite E).
  destruct (Hr _ _ Hold) as (w & Hw & Hb).
  assert (heap s' !! old = heap s !! old) as Hsame.
  { rewrite Es, Hw. unfold opened, set_heap. cbn [heap].
    now apply lookup_app_l_Some. }
  assert (new <> old) as Hfresh.
  { apply lookup_lt_Some in Hw. unfold new. lia. }
  rewrite E. cbn [fst].
  split; [reflexivity|]. split; [|split; [exact Hfresh|]].
  { rewrite Es. unfold opened, set_heap, set_sockets. cbn [sockets].
    apply lookup_insert_eq. }
  split; [apply lookup_ge_None; unfold new; lia|]. split.
  { rewrite Es. unfold opened, set_heap. cbn [heap].
    eexists. split; [apply list_lookup_middle; reflexivity|].
    split; [reflexivity|]. split; [reflexivity|]. split; reflexivity. }
  split; [now rewrite Es|]. split; [exact Hsame|].
  apply bound_relays with (w := w); [congruence|assumption].
Qed.

End Collision.

(** ** The claims on the worked examples *)

Section Examples.
Import Js Relay.

Lemma sample_codes_distinct : C2S.distinct Sample.c2s.
Proof. apply (bool_decide_unpack _). vm_compute. exact I. Defined.

(** The decoder and the encoder on a few texts. *)
Example decode_ascii : Text.decode (bytes "hi") = str "hi".
Proof. reflexivity. Qed.

Example decode_replaces_a_stray_byte :
  Text.decode [x61; xff; x62] = [0x61; 0xFFFD; 0x62].
Proof. reflexivity. Qed.

Example decode_replaces_a_cut_sequence : Text.decode [xe2; x82] = [0xFFFD].
Proof. reflexivity. Qed.

Example decode_drops_the_byte_order_mark :
  Text.decode [xef; xbb; xbf; x41] = [0x41].
Proof. reflexivity. Qed.

Example decode_beyond_the_basic_plane :
  Text.decode [xf0; x9f; x98; x80] = [0xD83D; 0xDE00].
Proof. reflexivity. Qed.

Example encode_beyond_the_basic_plane :
  Text.encode [0xD83D; 0xDE00] = [xf0; x9f; x98; x80].
Proof. reflexivity. Qed.

Example encode_replaces_a_lone_surrogate : Text.encode [0xD83D] = [xef; xbf; xbd].
Proof. reflexivity. Qed.

(** The parser on a few texts. *)
Example parse_nested :
  Json.parse (str (dq "{'a': [1, true, null], 'b': {}}")) =
  Ret (Json.Object
         [(str "a", Json.Array [Json.Number {| Json.negative := false;
                                               Json.digits := 1;
                                               Json.exponent := 0 |};
                                Json.Bool true; Json.Null]);
          (str "b", Json.Object [])]).
Proof. vm_compute. reflexivity. Qed.

Example parse_number :
  Json.parse (str "-12.50e+3") =
  Ret (Json.Number {| Json.negative := true; Json.digits := 1250;
                      Json.exponent := 1 |}).
Proof. vm_compute. reflexivity. Qed.

Example parse_escapes :
  Json.parse (str (dq "'\u0041\n\/'")) = Ret (Json.String [0x41; 0x0A; 0x2F]).
Proof. vm_compute. reflexivity. Qed.

Example parse_rejects :
  Forall (fun text => Json.parse (str (dq text)) = Throw Json.syntax_error)
    [""; "[1,]"; "{'a':1,}"; "01"; "1."; ".5"; "+1"; "tru"; "nul l";
     "[1 2]"; "{'a' 1}"; "{a:1}"; "'a"; "[]]"; "1 2"; "'\x'"].
Proof. repeat constructor. Qed.

Example truthy_values :
  map (fun text =>
         match Json.parse (str (dq text)) with
         | Ret v => Json.truthy (Some v)
         | Throw _ => false
         end)
    ["null"; "false"; "0"; "-0.0"; "0e9"; "1e-400"; "''";
     "true"; "1"; "1e-300"; "'0'"; "[]"; "{}"]
  = [false; false; false; false; false; false; false;
     true; true; true; true; true; true].
Proof. vm_compute. reflexivity. Qed.

Example the_last_of_two_keys_stands :
  (let? v := Json.parse (str (dq "{'url':'a','url':'b'}")) in
   Json.get (Some v) (str "url"))
  = Ret (Some (Json.String (str "b"))).
Proof. vm_compute. reflexivity. Qed.

Example stringify_error_body :
  stringify_body {| Js.code := str "UNKNOWN"; Js.id := str "error.TypeError";
                    Js.message := Some (str (dq "bad 'url'")); Js.stack := None |}
  = str (dq "{'code':'UNKNOWN','id':'error.TypeError','message':'bad \'url\''}").
Proof. vm_compute. reflexivity. Qed.

(** The scenarios of section 8 of the specification. *)
Example scenario_get :
  sent (Sample.run initial [Message Sample.env Sample.get_example]) =
  [frame 1 0 (bytes (dq "{'status':200,'statusText':'OK','headers':{}}"));
   frame 1 1 (bytes "ab"); frame 1 1 (bytes "cd"); frame 1 2 []].
Proof. vm_compute. reflexivity. Qed.

(** The body of the response fails after the chunk [ab]: the start frame
    and the frame of the chunk are written, no [HTTPResponseEnd] follows,
    and the handler rejects with the error of the body. *)
Example scenario_broken_body :
  fst (Sample.onMsg Sample.breaking Sample.get_example initial)
  = Throw Sample.connection_lost /\
  sent (snd (Sample.onMsg Sample.breaking Sample.get_example initial)) =
  [frame 1 0 (bytes (dq "{'status':200,'statusText':'OK','headers':{}}"));
   frame 1 1 (bytes "ab")].
Proof. vm_compute. split; reflexivity. Qed.

Example scenario_websocket :
  sent (Sample.run initial
          [Message Sample.env Sample.open_example; SocketOpen 0;
           SocketMessage 0 (EventText (str "hi"));
           SocketClose 0 Sample.clean_close]) =
  [frame 7 3 []; frame 7 5 (bytes "hi");
   frame 7 4 (bytes (dq "{'code':1000,'reason':'','wasClean':true}"))].
Proof. vm_compute. reflexivity. Qed.



(** C2, counterexample. The fetch fails with the controlled error of the
    third scenario, status 403: three frames are written on the sequence
    id 1 of the request, and the second is an [HTTPResponseChunk]. *)
Lemma controlled_failure_sends_chunk :
  let s := Sample.step initial
             (Message (Sample.failing Sample.forbidden) Sample.get_example) in
  fetch (Sample.failing Sample.forbidden) Sample.get_payload = Throw Sample.forbidden /\
  map frame_seq (sent s) = [Some 1; Some 1; Some 1] /\
  map frame_op (sent s) =
    [Some (S2C.HTTPResponseStart Sample.s2c);
     Some (S2C.HTTPResponseChunk Sample.s2c);
     Some (S2C.HTTPResponseEnd Sample.s2c)].
Proof. vm_compute. repeat split. Qed.

(** C2, the amended claim on the third scenario. *)
Lemma controlled_failure_frames_witness :
  exists chunk,
    fst (Sample.onMsg (Sample.failing Sample.forbidden) Sample.get_example initial)
    = Ret tt /\
    sent (snd (Sample.onMsg (Sample.failing Sample.forbidden) Sample.get_example initial)) =
      sent initial ++
      [frame 1 (S2C.HTTPResponseStart Sample.s2c)
         (Text.encode (stringify_payload
            {| status := 403;
               statusText := default [] (STATUS_CODES Sample.platform 403);
               headers := [] |}));
       frame 1 (S2C.HTTPResponseChunk Sample.s2c) chunk;
       frame 1 (S2C.HTTPResponseEnd Sample.s2c) []].
Proof.
  apply (controlled_failure_frames Sample.c2s Sample.s2c Sample.platform
           (Sample.failing Sample.forbidden) Sample.get_example
           {| cursor := 3; seq := 1; op := 0 |} Sample.get_payload 403
           {| Js.code := str "FORBIDDEN"; Js.id := str "error.Forbidden";
              Js.message := None; Js.stack := None |} initial);
    vm_compute; reflexivity.
Defined.

(** C3, on the third scenario. Before the exchange no hook is registered.
    After an exchange whose fetch failed with a controlled error the hook
    of the exchange is still registered; after one whose fetch resolved,
    and after one whose fetch failed with a fault, there is none. *)
Lemma hook_stays_after_controlled_failure :
  listeners initial = [] /\
  listeners (Sample.step initial
               (Message (Sample.failing Sample.forbidden) Sample.get_example))
  = [0%nat] /\
  listeners (Sample.step initial (Message Sample.env Sample.get_example)) = [] /\
  listeners (Sample.step initial
               (Message (Sample.failing (Error TypeError (str "fetch failed") None))
                        Sample.get_example))
  = [].
Proof. vm_compute. repeat split. Qed.

(** C4, on a [WSOpen] frame whose payload is no JSON. The payload decodes
    to [undefined]; no socket is made and the registry is as before, but
    the handler rejects with a [TypeError]. *)
Lemma undecodable_WSOpen_rejects :
  let msg := Sample.request 7 (C2S.WSOpen Sample.c2s) "not json" in
  tryParseJSONPayload (Buf.slice msg 3) = Ret None /\
  Sample.onMsg Sample.env msg initial =
  (Throw (Error TypeError (str "Cannot read properties of undefined") None), initial).
Proof. vm_compute. repeat split. Qed.

Lemma sample_codes_octets : S2C.octets Sample.s2c.
Proof. unfold S2C.octets. repeat constructor. Defined.

(** C5, on the frames of the sequence id 7 of the second scenario. *)
Lemma header_roundtrip_witness :
  (exists buf, writes (_sendJSONRes 7 4 (str "{}")) buf
               /\ decodes_to buf 7 4 (Text.encode (str "{}"))) /\
  (exists buf, writes (_sendSimpleRes 7 4) buf /\ decodes_to buf 7 4 []) /\
  (exists buf, writes (sendHTTPResponseChunk Sample.s2c 7 (bytes "hi")) buf
               /\ decodes_to buf 7 1 (bytes "hi")) /\
  (exists buf, writes (sendWSText Sample.s2c 7 (bytes "hi")) buf
               /\ decodes_to buf 7 5 (bytes "hi")) /\
  (exists buf, writes (sendWSBinary Sample.s2c 7 (bytes "hi")) buf
               /\ decodes_to buf 7 6 (bytes "hi")).
Proof.
  apply (header_roundtrip Sample.s2c 7 4 (bytes "hi") (str "{}"));
    [reflexivity|reflexivity|exact sample_codes_octets].
Defined.

(** C6, on a buffer of two bytes. *)
Lemma short_message_dropped_witness :
  parseMsgInit [x00; x07] = Ret None /\
  forall env (s : Server), Sample.onMsg env [x00; x07] s = (Ret tt, s).
Proof.
  apply (short_message_dropped Sample.c2s Sample.s2c Sample.platform [x00; x07]).
  cbn. lia.
Defined.

(** C7, counterexample. The three bytes quote, FF, quote are not valid
    UTF-8, and [tryParseJSONPayload] returns a value for them: the string
    of the one character U+FFFD. *)
Lemma malformed_utf8_is_parsed :
  Text.valid_utf8 [x22; xff; x22] = false /\
  tryParseJSONPayload [x22; xff; x22] = Ret (Some (Json.String [0xFFFD])).
Proof. vm_compute. split; reflexivity. Qed.

(** C7, the amended claim on the same bytes. *)
Lemma tryParseJSONPayload_total_witness :
  tryParseJSONPayload [x22; xff; x22] =
  match Json.parse (Text.decode [x22; xff; x22]) with
  | Ret v => Ret (Some v)
  | Throw _ => Ret None
  end /\
  ~ throws (tryParseJSONPayload [x22; xff; x22]).
Proof. apply (tryParseJSONPayload_total [x22; xff; x22]). Defined.

(** C8, counterexample. The second scenario: a socket is opened on the
    sequence id 7, it opens, receives a text and closes. After the close
    the registry still has the socket under 7. *)
Lemma entry_outlives_socket :
  let s := Sample.run initial
             [Message Sample.env Sample.open_example; SocketOpen 0;
              SocketMessage 0 (EventText (str "hi"))] in
  sockets s !! 7 = Some 0%nat /\
  sockets (Sample.step s (SocketClose 0 Sample.clean_close)) !! 7 = Some 0%nat.
Proof. vm_compute. split; reflexivity. Qed.

(** C8, the amended claim on the close of the socket opened on 7. *)
Lemma registry_entry_never_removed_witness :
  let s := Sample.step initial (Message Sample.env Sample.open_example) in
  let ev := SocketClose 0 Sample.clean_close in
  ((forall env msg, ev <> Message env msg) -> sockets (Sample.step s ev) = sockets s) /\
  is_Some (sockets (Sample.step s ev) !! 7) /\
  (sockets (Sample.step s ev) !! 7 <> Some 0%nat ->
   exists env msg i,
     ev = Message env msg /\ parseMsgInit msg = Ret (Some i) /\
     op i = C2S.WSOpen Sample.c2s /\ seq i = 7).
Proof.
  apply (registry_entry_never_removed Sample.c2s Sample.s2c Sample.platform
           (SocketClose 0 Sample.clean_close) 7 0%nat).
  vm_compute. reflexivity.
Defined.

(** C9, on a [WSSendText] frame for the sequence id 9, which no socket
    has. *)
Lemma unknown_sequence_ignored_witness :
  let s := Sample.step initial (Message Sample.env Sample.open_example) in
  Sample.onMsg Sample.env (Sample.request 9 (C2S.WSSendText Sample.c2s) "hi") s
  = (Ret tt, s).
Proof.
  apply (unknown_sequence_ignored Sample.c2s Sample.s2c Sample.platform Sample.env
           (Sample.request 9 (C2S.WSSendText Sample.c2s) "hi")
           {| cursor := 3; seq := 9; op := C2S.WSSendText Sample.c2s |}).
  - exact sample_codes_distinct.
  - vm_compute. reflexivity.
  - left. reflexivity.
  - vm_compute. reflexivity.
Defined.

(** C10, counterexample. A socket is registered under 7. A second
    [WSOpen] frame on 7 names a url that the constructor rejects: the
    handler rejects and the state is as before, so the entry is still the
    first socket and no socket was made. The same happens, whatever the
    constructor would do, for a [WSOpen] frame on 7 whose payload is no
    JSON. *)
Lemma rejected_WSOpen_keeps_entry :
  let s := Sample.step initial (Message Sample.env Sample.open_example) in
  let msg := Sample.request 7 (C2S.WSOpen Sample.c2s) "{'url':'nowhere'}" in
  let bad := Sample.request 7 (C2S.WSOpen Sample.c2s) "not json" in
  sockets s !! 7 = Some 0%nat /\
  Sample.onMsg Sample.rejecting msg s =
  (Throw (Error SyntaxError (str "The URL is invalid") None), s) /\
  snd (Sample.onMsg Sample.env bad s) = s.
Proof. vm_compute. repeat split. Qed.

(** C10, the amended claim on a second [WSOpen] frame on 7. *)
Lemma WSOpen_replaces_entry_witness :
  let s := Sample.step initial (Message Sample.env Sample.open_example) in
  let s' := Sample.step s (Message Sample.env Sample.open_example) in
  fst (Sample.onMsg Sample.env Sample.open_example s) = Ret tt /\
  sockets s' !! 7 = Some 1%nat /\
  1%nat <> 0%nat /\
  heap s !! 1%nat = None /\
  (exists w, heap s' !! 1%nat = Some w
             /\ url w = Some (Json.String (str "ws://example.test/"))
             /\ bound_to 7 w) /\
  sent s' = sent s /\
  heap s' !! 0%nat = heap s !! 0%nat /\
  relays Sample.s2c 0 7 s'.
Proof.
  apply (WSOpen_replaces_entry Sample.c2s Sample.s2c Sample.platform
           [Message Sample.env Sample.open_example] Sample.env
           Sample.open_example {| cursor := 3; seq := 7; op := 1 |} 0%nat
           (Some (Json.Object [(str "url", Json.String (str "ws://example.test/"))]))
           (Some (Json.String (str "ws://example.test/")))).
  - exact sample_codes_distinct.
  - vm_compute. reflexivity.
  - reflexivity.
  - vm_compute. reflexivity.
  - vm_compute. reflexivity.
  - vm_compute. reflexivity.
  - reflexivity.
Defined.

End Examples.

(** * Further properties *)

(** ** Methods that keep a relation between the states *)

Section Respects.
Import Js Relay.

Variable R : Server -> Server -> Prop.
Hypothesis R_refl : forall s, R s s.
Hypothesis R_trans : forall s1 s2 s3, R s1 s2 -> R s2 s3 -> R s1 s3.

Lemma respects_ret {A} (a : A) : respects R (ret a).
Proof. intros s. apply R_refl. Qed.

Lemma respects_throw {A} (e : Thrown) : respects R (throw (A := A) e).
Proof. intros s. apply R_refl. Qed.

Lemma respects_lift {A} (r : Res A) : respects R (lift r).
Proof. intros s. apply R_refl. Qed.

Lemma respects_read {A} (f : Server -> A) : respects R (read f).
Proof. intros s. apply R_refl. Qed.

Lemma respects_modify (f : Server -> Server) :
  (forall s, R s (f s)) -> respects R (modify f).
Proof. intros H s. apply H. Qed.

Lemma respects_mbind {A B} (c : M A) (k : A -> M B) :
  respects R c -> (forall a, respects R (k a)) -> respects R (mbind c k).
Proof.
  intros Hc Hk s. unfold mbind. specialize (Hc s).
  destruct (c s) as [[a|e] s1]; cbn [snd] in *; [|assumption].
  eapply R_trans; [eassumption|apply Hk].
Qed.

Lemma respects_catch {A} (c : M A) (h : Thrown -> M A) :
  respects R c -> (forall e, respects R (h e)) -> respects R (catch c h).
Proof.
  intros Hc Hh s. unfold catch. specialize (Hc s).
  destruct (c s) as [[a|e] s1]; cbn [snd] in *; [assumption|].
  eapply R_trans; [eassumption|apply Hh].
Qed.

Lemma respects_for_each {A} (f : A -> M unit) (l : list A) :
  (forall a, respects R (f a)) -> respects R (for_each f l).
Proof.
  intros Hf. induction l as [|a l IH]; cbn [for_each].
  - apply respects_ret.
  - apply respects_mbind; auto.
Qed.

Lemma respects_for_await {A} (f : A -> M unit) (l : list A) (failure : option Thrown) :
  (forall a, respects R (f a)) -> respects R (for_await f l failure).
Proof.
  intros Hf. unfold for_await. apply respects_mbind; [now apply respects_for_each|].
  intros _. destruct failure; [apply respects_throw|apply respects_ret].
Qed.

(** A method that only writes frames keeps [R] if writing does. *)
Hypothesis R_send : forall buf s, R s (set_sent (fun l => l ++ [buf]) s).

Lemma respects_writes (c : M unit) (buf : list byte) : writes c buf -> respects R c.
Proof. intros H s. rewrite H. apply R_send. Qed.

(** The loop of [onMsg] over the body of the response. *)
Lemma respects_chunks (s2c : S2C.RequestTypes) (platform : Platform) (sq : N)
    (body : list Chunk) (failure : option Thrown) :
  respects R
    (for_await
       (fun chunk =>
          bytes <- lift (Uint8Array_of platform chunk) ;;
          sendHTTPResponseChunk s2c sq bytes)
       body failure).
Proof.
  apply respects_for_await. intros c.
  apply respects_mbind; [apply respects_lift|]. intros b.
  apply (respects_writes _ _ (sendHTTPResponseChunk_frame s2c sq b)).
Qed.

(** The sends of [onMsg] after its [try]. *)
Lemma respects_answer (s2c : S2C.RequestTypes) (platform : Platform) (sq : N)
    (resp : Response) :
  respects R
    (sendHTTPResponseStart s2c sq (payload resp) ;;;
     for_await
       (fun chunk =>
          bytes <- lift (Uint8Array_of platform chunk) ;;
          sendHTTPResponseChunk s2c sq bytes)
       (body resp) (body_errored resp) ;;;
     sendHTTPResponseEnd s2c sq).
Proof.
  apply respects_mbind; [apply (respects_writes _ _ (_sendJSONRes_frame _ _ _))|].
  intros _. apply respects_mbind; [apply respects_chunks|].
  intros _. apply (respects_writes _ _ (_sendSimpleRes_frame _ _)).
Qed.

(** The handlers of a socket only write frames, or throw. *)
Lemma respects_ws_onopen (s2c : S2C.RequestTypes) ws : respects R (ws_onopen s2c ws).
Proof.
  unfold ws_onopen, handler. apply respects_mbind; [apply respects_read|].
  intros [sq|]; [|apply respects_ret].
  apply (respects_writes _ _ (_sendSimpleRes_frame _ _)).
Qed.

Lemma respects_ws_onclose (s2c : S2C.RequestTypes) ws e :
  respects R (ws_onclose s2c ws e).
Proof.
  unfold ws_onclose, handler. apply respects_mbind; [apply respects_read|].
  intros [sq|]; [|apply respects_ret].
  apply (respects_writes _ _ (_sendJSONRes_frame _ _ _)).
Qed.

Lemma respects_ws_onmessage (s2c : S2C.RequestTypes) ws m :
  respects R (ws_onmessage s2c ws m).
Proof.
  unfold ws_onmessage, handler. apply respects_mbind; [apply respects_read|].
  intros [sq|]; [|apply respects_ret].
  destruct m as [d [|]|d|d| |].
  - apply (respects_writes _ _ (sendWSBinary_frame s2c sq d)).
  - apply (respects_writes _ _ (sendWSText_frame s2c sq d)).
  - apply (respects_writes _ _ (sendWSText_frame s2c sq _)).
  - apply (respects_writes _ _ (sendWSBinary_frame s2c sq d)).
  - apply respects_throw.
  - apply respects_throw.
Qed.

(** What [handleHTTPRequest] and [onClose] do besides is to the
    listeners and the controllers. *)
Hypothesis R_listeners : forall f s, R s (set_listeners f s).
Hypothesis R_aborted : forall f s, R s (set_aborted f s).
Hypothesis R_controllers : forall f s, R s (set_controllers f s).

Lemma respects_events_off c : respects R (events_off c).
Proof. apply respects_modify. intros s. apply R_listeners. Qed.

Lemma respects_onClose_hook c : respects R (onClose_hook c).
Proof.
  unfold onClose_hook, abort. apply respects_mbind.
  - apply respects_modify. intros s. apply R_aborted.
  - intros _. apply respects_events_off.
Qed.

Lemma respects_onClose : respects R onClose.
Proof.
  unfold onClose. apply respects_mbind; [apply respects_read|].
  intros ls. apply respects_for_each, respects_onClose_hook.
Qed.

Lemma respects_handleHTTPRequest (platform : Platform) env req :
  respects R (handleHTTPRequest platform env req).
Proof.
  unfold handleHTTPRequest, new_AbortController, events_on.
  apply respects_mbind.
  { apply respects_mbind; [apply respects_read|]. intros c.
    apply respects_mbind; [|intros _; apply respects_ret].
    apply respects_modify. intros s. apply R_controllers. }
  intros c. apply respects_mbind.
  { apply respects_modify. intros s. apply R_listeners. }
  intros _. apply respects_mbind.
  - apply respects_catch.
    + apply respects_mbind; [apply respects_lift|]. intros r. apply respects_ret.
    + intros [st b| |]; try apply respects_ret;
        (apply respects_mbind; [apply respects_events_off|intros _; apply respects_throw]).
  - intros [early|resp]; [apply respects_ret|].
    apply respects_mbind; [apply respects_events_off|]. intros _. apply respects_ret.
Qed.

(** The [HTTPRequest] case of [onMsg]. *)
Lemma respects_HTTPRequest (s2c : S2C.RequestTypes) (platform : Platform)
    env msg cur sq :
  respects R
    (reqPayload <- lift (tryParseJSONPayload (Buf.slice msg cur)) ;;
     match reqPayload with
     | Some req =>
         if Json.truthy reqPayload then
           resp <- catch (handleHTTPRequest platform env req)
                     (fun e =>
                        let '(status, body) := to_BareError platform e in
                        ret (bareErrorToResponse platform status body)) ;;
           sendHTTPResponseStart s2c sq (payload resp) ;;;
           for_await
             (fun chunk =>
                bytes <- lift (Uint8Array_of platform chunk) ;;
                sendHTTPResponseChunk s2c sq bytes)
             (body resp) (body_errored resp) ;;;
           sendHTTPResponseEnd s2c sq
         else ret tt
     | None => ret tt
     end).
Proof.
  apply respects_mbind; [apply respects_lift|]. intros [req|]; [|apply respects_ret].
  destruct (Json.truthy _); [|apply respects_ret].
  apply respects_mbind.
  - apply respects_catch; [apply respects_handleHTTPRequest|].
    intros e. destruct (to_BareError platform e). apply respects_ret.
  - intros resp. apply respects_answer.
Qed.

End Respects.

(** ** The cases of the message handler *)

Section Cases.
Import Js Relay.

Variable c2s : C2S.RequestTypes.
Variable s2c : S2C.RequestTypes.
Variable platform : Platform.

#[local] Abbreviation onMsg := (onMsg c2s s2c platform).
#[local] Abbreviation step := (step c2s s2c platform).
#[local] Abbreviation run := (run c2s s2c platform).

(** The ten inequalities of the five codes. *)
Lemma distinct_pairs :
  C2S.distinct c2s ->
  C2S.HTTPRequest c2s <> C2S.WSOpen c2s /\
  C2S.HTTPRequest c2s <> C2S.WSSendText c2s /\
  C2S.HTTPRequest c2s <> C2S.WSSendBinary c2s /\
  C2S.HTTPRequest c2s <> C2S.WSClose c2s /\
  C2S.WSOpen c2s <> C2S.WSSendText c2s /\
  C2S.WSOpen c2s <> C2S.WSSendBinary c2s /\
  C2S.WSOpen c2s <> C2S.WSClose c2s /\
  C2S.WSSendText c2s <> C2S.WSSendBinary c2s /\
  C2S.WSSendText c2s <> C2S.WSClose c2s /\
  C2S.WSSendBinary c2s <> C2S.WSClose c2s.
Proof.
  unfold C2S.distinct. intros H.
  apply NoDup_cons in H as [H1 H]. apply NoDup_cons in H as [H2 H].
  apply NoDup_cons in H as [H3 H]. apply NoDup_cons in H as [H4 _].
  rewrite !not_elem_of_cons in H1. rewrite !not_elem_of_cons in H2.
  rewrite !not_elem_of_cons in H3. rewrite !not_elem_of_cons in H4.
  tauto.
Qed.

Section Frame.

Variables (env : Collaborators) (msg : list byte) (i : MsgInit).
Hypothesis Hinit : parseMsgInit msg = Ret (Some i).

(** The [default] case. *)
Lemma onMsg_default (s : Server) :
  op i <> C2S.HTTPRequest c2s -> op i <> C2S.WSOpen c2s ->
  op i <> C2S.WSSendText c2s -> op i <> C2S.WSSendBinary c2s ->
  op i <> C2S.WSClose c2s ->
  onMsg env msg s = (Ret tt, s).
Proof.
  intros H1 H2 H3 H4 H5. unfold Relay.onMsg. unfold mbind at 1, lift at 1.
  rewrite Hinit. destruct i as [cur sq o]; cbn [op] in *.
  destruct (N.eqb_spec o (C2S.HTTPRequest c2s)); [contradiction|].
  destruct (N.eqb_spec o (C2S.WSOpen c2s)); [contradiction|].
  destruct (N.eqb_spec o (C2S.WSSendText c2s)); [contradiction|].
  destruct (N.eqb_spec o (C2S.WSSendBinary c2s)); [contradiction|].
  destruct (N.eqb_spec o (C2S.WSClose c2s)); [contradiction|]. reflexivity.
Qed.

(** The [HTTPRequest] case when [!reqPayload] holds. *)
Lemma onMsg_unusable p (s : Server) :
  op i = C2S.HTTPRequest c2s ->
  tryParseJSONPayload (Buf.slice msg (cursor i)) = Ret p ->
  Json.truthy p = false ->
  onMsg env msg s = (Ret tt, s).
Proof.
  intros Hop Hp Hf. unfold Relay.onMsg. unfold mbind at 1, lift at 1.
  rewrite Hinit. destruct i as [cur sq o]; cbn [op cursor] in *.
  rewrite Hop, N.eqb_refl. unfold mbind at 1, lift at 1. rewrite Hp.
  destruct p as [v|]; [|reflexivity]. now rewrite Hf.
Qed.

(** The cases that call a method of the registered socket. *)
Lemma onMsg_WSSendText ws (s : Server) :
  C2S.distinct c2s ->
  op i = C2S.WSSendText c2s ->
  sockets s !! seq i = Some ws ->
  onMsg env msg s =
  match socket_send env with
  | Ret _ =>
      (Ret tt,
       set_heap (alter (push_outbox
                          (SendText (Text.decode (Buf.slice msg (cursor i))))) ws) s)
  | Throw e => (Throw e, s)
  end.
Proof.
  intros Hd Hop Hs. destruct (distinct_pairs Hd) as (? & ? & ? & ? & ? & ? & ? & ? & ? & ?).
  unfold Relay.onMsg. unfold mbind at 1, lift at 1. rewrite Hinit.
  destruct i as [cur sq o]; cbn [op cursor seq] in *. subst o.
  destruct (N.eqb_spec (C2S.WSSendText c2s) (C2S.HTTPRequest c2s)); [congruence|].
  destruct (N.eqb_spec (C2S.WSSendText c2s) (C2S.WSOpen c2s)); [congruence|].
  rewrite N.eqb_refl. unfold mbind, read, lift, update, modify. rewrite Hs.
  now destruct (socket_send env) as [[]|e].
Qed.

Lemma onMsg_WSSendBinary ws (s : Server) :
  C2S.distinct c2s ->
  op i = C2S.WSSendBinary c2s ->
  sockets s !! seq i = Some ws ->
  onMsg env msg s =
  match socket_send env with
  | Ret _ =>
      (Ret tt,
       set_heap (alter (push_outbox (SendBinary (Buf.slice msg (cursor i)))) ws) s)
  | Throw e => (Throw e, s)
  end.
Proof.
  intros Hd Hop Hs. destruct (distinct_pairs Hd) as (? & ? & ? & ? & ? & ? & ? & ? & ? & ?).
  unfold Relay.onMsg. unfold mbind at 1, lift at 1. rewrite Hinit.
  destruct i as [cur sq o]; cbn [op cursor seq] in *. subst o.
  destruct (N.eqb_spec (C2S.WSSendBinary c2s) (C2S.HTTPRequest c2s)); [congruence|].
  destruct (N.eqb_spec (C2S.WSSendBinary c2s) (C2S.WSOpen c2s)); [congruence|].
  destruct (N.eqb_spec (C2S.WSSendBinary c2s) (C2S.WSSendText c2s)); [congruence|].
  rewrite N.eqb_refl. unfold mbind, read, lift, update, modify. rewrite Hs.
  now destruct (socket_send env) as [[]|e].
Qed.

Lemma onMsg_WSClose ws (s : Server) :
  C2S.distinct c2s ->
  op i = C2S.WSClose c2s ->
  sockets s !! seq i = Some ws ->
  onMsg env msg s =
  match socket_close env with
  | Ret _ => (Ret tt, set_heap (alter count_close ws) s)
  | Throw e => (Throw e, s)
  end.
Proof.
  intros Hd Hop Hs. destruct (distinct_pairs Hd) as (? & ? & ? & ? & ? & ? & ? & ? & ? & ?).
  unfold Relay.onMsg. unfold mbind at 1, lift at 1. rewrite Hinit.
  destruct i as [cur sq o]; cbn [op cursor seq] in *. subst o.
  destruct (N.eqb_spec (C2S.WSClose c2s) (C2S.HTTPRequest c2s)); [congruence|].
  destruct (N.eqb_spec (C2S.WSClose c2s) (C2S.WSOpen c2s)); [congruence|].
  destruct (N.eqb_spec (C2S.WSClose c2s) (C2S.WSSendText c2s)); [congruence|].
  destruct (N.eqb_spec (C2S.WSClose c2s) (C2S.WSSendBinary c2s)); [congruence|].
  rewrite N.eqb_refl. unfold mbind, read, lift, update, modify. rewrite Hs.
  now destruct (socket_close env) as [[]|e].
Qed.

End Frame.

(** *** The registry and the sockets under the HTTP path *)

Lemma quiet_refl (s : Server) : quiet s s.
Proof. split; reflexivity. Qed.

Lemma quiet_trans (s1 s2 s3 : Server) : quiet s1 s2 -> quiet s2 s3 -> quiet s1 s3.
Proof. intros [H1 K1] [H2 K2]. split; congruence. Qed.

Lemma quiet_HTTPRequest env msg cur sq (s : Server) :
  quiet s
    (snd ((reqPayload <- lift (tryParseJSONPayload (Buf.slice msg cur)) ;;
           match reqPayload with
           | Some req =>
               if Json.truthy reqPayload then
                 resp <- catch (handleHTTPRequest platform env req)
                           (fun e =>
                              let '(status, body) := to_BareError platform e in
                              ret (bareErrorToResponse platform status body)) ;;
                 sendHTTPResponseStart s2c sq (payload resp) ;;;
                 for_await
                   (fun chunk =>
                      bytes <- lift (Uint8Array_of platform chunk) ;;
                      sendHTTPResponseChunk s2c sq bytes)
                   (body resp) (body_errored resp) ;;;
                 sendHTTPResponseEnd s2c sq
               else ret tt
           | None => ret tt
           end) s)).
Proof.
  apply (respects_HTTPRequest quiet quiet_refl quiet_trans); intros; split; reflexivity.
Qed.

End Cases.

(** ** What an event can do to the sockets *)

Section Steps.
Import Js Relay.

Variable c2s : C2S.RequestTypes.
Variable s2c : S2C.RequestTypes.
Variable platform : Platform.

#[local] Abbreviation onMsg := (onMsg c2s s2c platform).
#[local] Abbreviation step := (step c2s s2c platform).
#[local] Abbreviation run := (run c2s s2c platform).

(** A frame for the sockets leaves the state as it is, or opens a socket,
    or records a call of a method of the registered socket. *)
Lemma onMsg_socket_cases env msg i (s : Server) :
  parseMsgInit msg = Ret (Some i) ->
  op i <> C2S.HTTPRequest c2s ->
  snd (onMsg env msg s) = s \/
  (exists u, op i = C2S.WSOpen c2s /\ snd (onMsg env msg s) = opened s (seq i) u) \/
  (exists ws f,
     sockets s !! seq i = Some ws /\
     ((exists d, f = push_outbox d) \/ f = count_close) /\
     snd (onMsg env msg s) = set_heap (alter f ws) s).
Proof.
  intros Hinit Hne.
  destruct (N.eqb_spec (op i) (C2S.WSOpen c2s)) as [Hopen|Hopen].
  { rewrite (onMsg_WSOpen c2s s2c platform env msg i Hinit s Hopen) by congruence.
    destruct (let? _ := _ in _) as [u|e]; [|now left].
    right; left. eauto. }
  remember (Relay.onMsg c2s s2c platform env msg s) as r eqn:Er.
  unfold Relay.onMsg in Er. unfold mbind at 1, lift at 1 in Er. rewrite Hinit in Er.
  destruct i as [cur sq o]; cbn [op seq cursor] in *.
  destruct (N.eqb_spec o (C2S.HTTPRequest c2s)); [contradiction|].
  destruct (N.eqb_spec o (C2S.WSOpen c2s)); [contradiction|].
  assert (forall (rs : Res unit) f,
            (exists d, f = push_outbox d) \/ f = count_close ->
            r = (socket <- read (fun s => sockets s !! sq) ;;
                 match socket with
                 | None => ret tt
                 | Some ws => lift rs ;;; update ws f
                 end) s ->
            snd r = s \/
            (exists u, o = C2S.WSOpen c2s /\ snd r = opened s sq u) \/
            (exists ws f,
               sockets s !! sq = Some ws /\
               ((exists d, f = push_outbox d) \/ f = count_close) /\
               snd r = set_heap (alter f ws) s)) as H.
  { intros rs f Hf ->. unfold mbind, read, lift, update, modify, ret.
    destruct (sockets s !! sq) as [ws|] eqn:Hs; [|now left].
    destruct rs as [[]|e]; [|now left].
    right; right. exists ws, f. auto. }
  destruct (o =? C2S.WSSendText c2s);
    [exact (H (socket_send env) _ (or_introl (ex_intro _ _ eq_refl)) Er)|].
  destruct (o =? C2S.WSSendBinary c2s);
    [exact (H (socket_send env) _ (or_introl (ex_intro _ _ eq_refl)) Er)|].
  destruct (o =? C2S.WSClose c2s);
    [exact (H (socket_close env) _ (or_intror eq_refl) Er)|].
  subst r.
  now left.
Qed.

(** The handlers of the sockets and of the channel leave the registry and
    the sockets alone, and so does an [HTTPRequest] frame. *)
Lemma quiet_handlers ev (s : Server) :
  (forall env msg, ev <> Message env msg) -> quiet s (step s ev).
Proof.
  assert (forall buf s, quiet s (set_sent (fun l => l ++ [buf]) s)) as Hsend
    by (intros; split; reflexivity).
  destruct ev as [env msg| |ws|ws e|ws m]; intros Hne; unfold Relay.step; cbn [handle].
  - now destruct (Hne env msg).
  - apply (respects_onClose quiet quiet_refl quiet_trans); intros; split; reflexivity.
  - apply (respects_ws_onopen quiet quiet_refl quiet_trans Hsend).
  - apply (respects_ws_onclose quiet quiet_refl quiet_trans Hsend).
  - apply (respects_ws_onmessage quiet quiet_refl quiet_trans Hsend).
Qed.

Lemma quiet_onMsg_HTTPRequest env msg i (s : Server) :
  parseMsgInit msg = Ret (Some i) ->
  op i = C2S.HTTPRequest c2s ->
  quiet s (snd (onMsg env msg s)).
Proof.
  intros Hinit Hop. unfold Relay.onMsg. unfold mbind at 1, lift at 1. rewrite Hinit.
  destruct i as [cur sq o]; cbn [op] in *. subst o. rewrite N.eqb_refl.
  apply quiet_HTTPRequest.
Qed.

(** The three things that an event can do to the registry and the
    sockets: nothing; a new socket, set up and registered; one more call
    recorded for a registered socket. *)
Lemma step_cases ev (s : Server) :
  quiet s (step s ev) \/
  (exists sq u, sq < 65536 /\ step s ev = opened s sq u) \/
  (exists sq ws f,
     sockets s !! sq = Some ws /\
     ((exists d, f = push_outbox d) \/ f = count_close) /\
     step s ev = set_heap (alter f ws) s).
Proof.
  destruct ev as [env msg| |ws|ws e|ws m];
    try (left; apply quiet_handlers; intros; discriminate).
  unfold Relay.step; cbn [handle].
  destruct (parseMsgInit msg) as [[i|]|e] eqn:Hinit;
    [|left; unfold Relay.onMsg, mbind, lift; rewrite Hinit; apply quiet_refl..].
  destruct (N.eqb_spec (op i) (C2S.HTTPRequest c2s)) as [Hhttp|Hhttp].
  { left. now apply quiet_onMsg_HTTPRequest with (i := i). }
  destruct (onMsg_socket_cases env msg i s Hinit Hhttp)
    as [->|[(u & _ & ->)|(ws & f & H1 & H2 & ->)]].
  - left. apply quiet_refl.
  - right; left. exists (seq i), u. split; [|reflexivity].
    now destruct (parseMsgInit_bounds msg i Hinit) as (_ & ? & _).
  - right; right. exists (seq i), ws, f. auto.
Qed.

(** *** What is written, and the close listeners *)

Lemma silent_refl (s : Server) : silent s s.
Proof. repeat split. Qed.

Lemma silent_trans (s1 s2 s3 : Server) : silent s1 s2 -> silent s2 s3 -> silent s1 s3.
Proof. intros (?&?&?&?) (?&?&?&?). repeat split; congruence. Qed.

Lemma hooks_kept_refl (s : Server) : hooks_kept s s.
Proof. repeat split. Qed.

Lemma hooks_kept_trans (s1 s2 s3 : Server) :
  hooks_kept s1 s2 -> hooks_kept s2 s3 -> hooks_kept s1 s3.
Proof. intros (?&?&?) (?&?&?). repeat split; congruence. Qed.

(** The handlers of a socket leave the close listeners alone. *)
Lemma hooks_kept_socket_event ev (s : Server) :
  (forall env msg, ev <> Message env msg) -> ev <> ChannelClose ->
  hooks_kept s (step s ev).
Proof.
  assert (forall buf s, hooks_kept s (set_sent (fun l => l ++ [buf]) s)) as Hsend
    by (intros; repeat split).
  destruct ev as [env msg| |ws|ws e|ws m]; intros Hne Hc; unfold Relay.step; cbn [handle].
  - now destruct (Hne env msg).
  - now destruct Hc.
  - apply (respects_ws_onopen hooks_kept hooks_kept_refl hooks_kept_trans Hsend).
  - apply (respects_ws_onclose hooks_kept hooks_kept_refl hooks_kept_trans Hsend).
  - apply (respects_ws_onmessage hooks_kept hooks_kept_refl hooks_kept_trans Hsend).
Qed.

Lemma silent_onMsg env msg i (s : Server) :
  parseMsgInit msg = Ret (Some i) ->
  op i <> C2S.HTTPRequest c2s ->
  silent s (snd (onMsg env msg s)).
Proof.
  intros Hinit Hne.
  destruct (onMsg_socket_cases env msg i s Hinit Hne)
    as [->|[(u & _ & ->)|(ws & f & _ & _ & ->)]]; repeat split.
Qed.

End Steps.

(** ** The frames from the client, case by case *)

Section Frames.
Import Js Relay.

Variable c2s : C2S.RequestTypes.
Variable s2c : S2C.RequestTypes.
Variable platform : Platform.

#[local] Abbreviation onMsg := (onMsg c2s s2c platform).
#[local] Abbreviation step := (step c2s s2c platform).
#[local] Abbreviation run := (run c2s s2c platform).

Lemma u8_of_byte (b : byte) : Buf.u8 (Byte.to_N b) = b.
Proof.
  unfold Buf.u8. pose proof (Byte.to_N_bounded b).
  rewrite N.mod_small by lia. now rewrite Byte.of_to_N.
Qed.

(** The header that [parseMsgInit] reads builds the message again. *)
Lemma frame_of_header (msg : list byte) (i : MsgInit) :
  parseMsgInit msg = Ret (Some i) ->
  frame (seq i) (op i) (Buf.slice msg (cursor i)) = msg.
Proof.
  unfold parseMsgInit, Buf.getUint16, Buf.getUint8.
  destruct msg as [|a [|b [|c rest]]]; cbn; try discriminate.
  intros [= <-]. cbn [seq op cursor]. unfold frame, Buf.slice. cbn [drop].
  pose proof (Byte.to_N_bounded a). pose proof (Byte.to_N_bounded b).
  assert ((256 * Byte.to_N a + Byte.to_N b) `div` 256 = Byte.to_N a) as ->.
  { symmetry. apply (N.div_unique _ 256 _ (Byte.to_N b)); lia. }
  assert (Buf.u8 (256 * Byte.to_N a + Byte.to_N b) = b) as ->.
  { rewrite <- (u8_of_byte b) at 2. unfold Buf.u8.
    replace ((256 * Byte.to_N a + Byte.to_N b) `mod` 256) with (Byte.to_N b `mod` 256);
      [reflexivity|].
    rewrite (N.mul_comm 256), N.add_comm. now rewrite N.Div0.mod_add. }
  now rewrite !u8_of_byte.
Qed.

(** X1. Every buffer of three bytes or more has a header, and the frame
    built from the sequence id and the operation code that [parseMsgInit]
    reads, with the bytes after the cursor as the payload, is the buffer
    itself; so the send function of the code writes the very buffer when
    given what was read from it. *)
Theorem header_reencodes (msg : list byte) :
  (3 <= length msg)%nat ->
  exists i,
    parseMsgInit msg = Ret (Some i) /\
    frame (seq i) (op i) (Buf.slice msg (cursor i)) = msg /\
    (op i = S2C.HTTPResponseChunk s2c ->
     writes (sendHTTPResponseChunk s2c (seq i) (Buf.slice msg (cursor i))) msg) /\
    (op i = S2C.WSDataText s2c ->
     writes (sendWSText s2c (seq i) (Buf.slice msg (cursor i))) msg) /\
    (op i = S2C.WSDataBinary s2c ->
     writes (sendWSBinary s2c (seq i) (Buf.slice msg (cursor i))) msg).
Proof.
  intros Hlen.
  assert (exists i, parseMsgInit msg = Ret (Some i)) as [i Hi].
  { destruct msg as [|a [|b [|c rest]]]; cbn in Hlen; try lia. eexists. reflexivity. }
  exists i. pose proof (frame_of_header msg i Hi) as Hf.
  split; [assumption|]. split; [assumption|].
  split; [|split]; intros Hop; rewrite <- Hf at 2; rewrite Hop.
  - apply sendHTTPResponseChunk_frame.
  - apply sendWSText_frame.
  - apply sendWSBinary_frame.
Qed.

(** X2. A frame whose operation code is none of the five of the protocol
    is ignored: the handler resolves and the state is as it was. *)
Theorem unknown_op_ignored env msg i (s : Server) :
  parseMsgInit msg = Ret (Some i) ->
  op i ∉ [C2S.HTTPRequest c2s; C2S.WSOpen c2s; C2S.WSSendText c2s;
          C2S.WSSendBinary c2s; C2S.WSClose c2s] ->
  onMsg env msg s = (Ret tt, s).
Proof.
  intros Hinit Hop. rewrite !not_elem_of_cons in Hop.
  destruct Hop as (? & ? & ? & ? & ? & _).
  now apply (onMsg_default c2s s2c platform env msg i Hinit).
Qed.

(** X3. An [HTTPRequest] frame whose payload is no JSON, or is a JSON
    value that is falsy, is dropped before anything is done for it: no
    controller is made, no listener is registered, nothing is fetched and
    nothing is written. *)
Theorem unusable_request_dropped env msg i p (s : Server) :
  parseMsgInit msg = Ret (Some i) ->
  op i = C2S.HTTPRequest c2s ->
  tryParseJSONPayload (Buf.slice msg (cursor i)) = Ret p ->
  Json.truthy p = false ->
  onMsg env msg s = (Ret tt, s).
Proof.
  intros Hinit Hop Hp Hf.
  now apply (onMsg_unusable c2s s2c platform env msg i Hinit p).
Qed.

(** X4. No frame for the sockets writes to the client or touches the
    close listeners: after a frame with any operation code but
    [HTTPRequest], the log of what was written, the listeners, the aborted
    controllers and the count of the controllers are as before, whether the
    handler resolved or rejected. *)
Theorem socket_frames_are_silent env msg i (s : Server) :
  parseMsgInit msg = Ret (Some i) ->
  op i <> C2S.HTTPRequest c2s ->
  let s' := step s (Message env msg) in
  sent s' = sent s /\ listeners s' = listeners s /\
  aborted s' = aborted s /\ controllers s' = controllers s.
Proof.
  intros Hinit Hne. exact (silent_onMsg c2s s2c platform env msg i s Hinit Hne).
Qed.

(** X5. The registry and the sockets change by the frames for the sockets
    only: every other event, the close of the channel, the events of the
    sockets, an [HTTPRequest] frame and a buffer without a header, leaves
    the registry and every socket as they were. *)
Theorem sockets_untouched ev (s : Server) :
  (forall env msg i,
     ev = Message env msg -> parseMsgInit msg = Ret (Some i) ->
     op i = C2S.HTTPRequest c2s) ->
  sockets (step s ev) = sockets s /\ heap (step s ev) = heap s.
Proof.
  intros H. destruct ev as [env msg| |ws|ws e|ws m];
    try (apply (quiet_handlers c2s s2c platform); intros; discriminate).
  unfold Relay.step; cbn [handle].
  destruct (parseMsgInit msg) as [[i|]|e] eqn:Hinit.
  - apply (quiet_onMsg_HTTPRequest c2s s2c platform env msg i s Hinit).
    now apply (H env msg i).
  - unfold Relay.onMsg, mbind, lift. rewrite Hinit. apply quiet_refl.
  - unfold Relay.onMsg, mbind, lift. rewrite Hinit. apply quiet_refl.
Qed.

(** The state after a call of a method of the socket [ws]. *)
Lemma called (f : WebSocket -> WebSocket) (ws : nat) (w : WebSocket) (s : Server) :
  heap s !! ws = Some w ->
  let s' := set_heap (alter f ws) s in
  heap s' !! ws = Some (f w) /\
  (forall ws', ws' <> ws -> heap s' !! ws' = heap s !! ws') /\
  sockets s' = sockets s /\ sent s' = sent s.
Proof.
  intros Hw. unfold set_heap. cbn [heap sockets sent].
  split; [rewrite list_lookup_alter_eq; now rewrite Hw|].
  split; [|split; reflexivity].
  intros ws' Hne. now rewrite list_lookup_alter_ne.
Qed.

(** X6. A [WSSendText] or [WSSendBinary] frame on a sequence id that has
    a socket in the registry, when the library accepts the call: the
    handler resolves, and the socket was given by one call of [send] the
    payload of the frame, as the text that the lenient UTF-8 decoder makes
    of it or as its bytes; the other sockets, the registry and what was
    written are as before. *)
Theorem data_forwarded env msg i ws w d (s : Server) :
  C2S.distinct c2s ->
  parseMsgInit msg = Ret (Some i) ->
  sockets s !! seq i = Some ws ->
  heap s !! ws = Some w ->
  socket_send env = Ret tt ->
  (op i = C2S.WSSendText c2s /\
   d = SendText (Text.decode (Buf.slice msg (cursor i)))) \/
  (op i = C2S.WSSendBinary c2s /\ d = SendBinary (Buf.slice msg (cursor i))) ->
  let s' := step s (Message env msg) in
  fst (onMsg env msg s) = Ret tt /\
  heap s' !! ws = Some (push_outbox d w) /\
  (forall ws', ws' <> ws -> heap s' !! ws' = heap s !! ws') /\
  sockets s' = sockets s /\ sent s' = sent s.
Proof.
  intros Hd Hinit Hs Hw Hsend Hop s'.
  assert (onMsg env msg s = (Ret tt, set_heap (alter (push_outbox d) ws) s)) as E.
  { destruct Hop as [[Hop ->]|[Hop ->]].
    - rewrite (onMsg_WSSendText c2s s2c platform env msg i Hinit ws s Hd Hop Hs).
      now rewrite Hsend.
    - rewrite (onMsg_WSSendBinary c2s s2c platform env msg i Hinit ws s Hd Hop Hs).
      now rewrite Hsend. }
  unfold s', Relay.step. cbn [handle]. rewrite E. cbn [fst snd].
  split; [reflexivity|]. now apply called.
Qed.

(** X7. A [WSClose] frame on a sequence id that has a socket in the
    registry, when the library accepts the call: the handler resolves and
    [close()] was called once on the socket, which keeps its handlers and
    what it was sent; the registry still has the entry, and nothing is
    written: the [WSClose] frame to the client comes with the close event
    of the socket, not with the frame. *)
Theorem close_forwarded env msg i ws w (s : Server) :
  C2S.distinct c2s ->
  parseMsgInit msg = Ret (Some i) ->
  op i = C2S.WSClose c2s ->
  sockets s !! seq i = Some ws ->
  heap s !! ws = Some w ->
  socket_close env = Ret tt ->
  let s' := step s (Message env msg) in
  fst (onMsg env msg s) = Ret tt /\
  (exists w', heap s' !! ws = Some w' /\
     closes w' = S (closes w) /\ outbox w' = outbox w /\
     onopen w' = onopen w /\ onclose w' = onclose w /\ onmessage w' = onmessage w) /\
  (forall ws', ws' <> ws -> heap s' !! ws' = heap s !! ws') /\
  sockets s' !! seq i = Some ws /\ sent s' = sent s.
Proof.
  intros Hd Hinit Hop Hs Hw Hclose s'.
  assert (onMsg env msg s = (Ret tt, set_heap (alter count_close ws) s)) as E.
  { rewrite (onMsg_WSClose c2s s2c platform env msg i Hinit ws s Hd Hop Hs).
    now rewrite Hclose. }
  unfold s', Relay.step. cbn [handle]. rewrite E. cbn [fst snd].
  destruct (called count_close ws w s Hw) as (H1 & H2 & H3 & H4).
  split; [reflexivity|]. split.
  { exists (count_close w). split; [assumption|]. repeat split. }
  split; [assumption|]. split; [|assumption]. now rewrite H3.
Qed.

(** X8. When the library throws in [send] or in [close], the handler
    rejects with what was thrown ([onMsg] has no [try] around the calls)
    and the state is as it was. *)
Theorem socket_call_failure_rejects env msg i ws e (s : Server) :
  C2S.distinct c2s ->
  parseMsgInit msg = Ret (Some i) ->
  sockets s !! seq i = Some ws ->
  ((op i = C2S.WSSendText c2s \/ op i = C2S.WSSendBinary c2s) /\
   socket_send env = Throw e) \/
  (op i = C2S.WSClose c2s /\ socket_close env = Throw e) ->
  onMsg env msg s = (Throw e, s).
Proof.
  intros Hd Hinit Hs [[[Hop|Hop] Hthrow]|[Hop Hthrow]].
  - rewrite (onMsg_WSSendText c2s s2c platform env msg i Hinit ws s Hd Hop Hs).
    now rewrite Hthrow.
  - rewrite (onMsg_WSSendBinary c2s s2c platform env msg i Hinit ws s Hd Hop Hs).
    now rewrite Hthrow.
  - rewrite (onMsg_WSClose c2s s2c platform env msg i Hinit ws s Hd Hop Hs).
    now rewrite Hthrow.
Qed.

(** X9. Whatever the fetch throws, the exchange is answered: the handler
    resolves and writes three frames on the sequence id of the request, an
    [HTTPResponseStart] with no headers and the status of the error, which
    is 500 for everything but a [BareError], then an [HTTPResponseChunk]
    without a byte, then an [HTTPResponseEnd]. The JSON text of the error
    body, which is the body of the response made for the error, is not in
    any of them. *)
Theorem failure_answer env msg i req e (s : Server) :
  parseMsgInit msg = Ret (Some i) ->
  op i = C2S.HTTPRequest c2s ->
  tryParseJSONPayload (Buf.slice msg (cursor i)) = Ret (Some req) ->
  Json.truthy (Some req) = true ->
  fetch env req = Throw e ->
  let status := fst (to_BareError platform e) in
  fst (onMsg env msg s) = Ret tt /\
  sent (step s (Message env msg)) =
    sent s ++
    [frame (seq i) (S2C.HTTPResponseStart s2c)
       (Text.encode (stringify_payload
          {| Relay.status := status;
             statusText := default [] (STATUS_CODES platform status);
             headers := [] |}));
     frame (seq i) (S2C.HTTPResponseChunk s2c) [];
     frame (seq i) (S2C.HTTPResponseEnd s2c) []] /\
  (status = 500 \/ exists b, e = BareError status b).
Proof.
  intros Hinit Hop Hreq Htruthy Hf status. unfold Relay.step. cbn [handle].
  destruct e as [st b|cls m k|t].
  - rewrite (onMsg_controlled c2s s2c platform env msg i req Hinit Hop Hreq Htruthy
               st b s Hf).
    split; [reflexivity|]. split; [reflexivity|]. right. now exists b.
  - rewrite (onMsg_fault c2s s2c platform env msg i req Hinit Hop Hreq Htruthy
               _ s Hf) by discriminate.
    split; [reflexivity|]. split; [reflexivity|]. now left.
  - rewrite (onMsg_fault c2s s2c platform env msg i req Hinit Hop Hreq Htruthy
               _ s Hf) by discriminate.
    split; [reflexivity|]. split; [reflexivity|]. now left.
Qed.

Lemma truthy_headers_spec hs (k : jsstring) (vs : list jsstring) :
  (k, vs) ∈ truthy_headers hs <-> (k, Some vs) ∈ hs.
Proof.
  unfold truthy_headers. rewrite list_elem_of_omap. split.
  - intros ([k' [vs'|]] & Hin & E); cbn in E; [|discriminate].
    now injection E as -> ->.
  - intros Hin. exists (k, Some vs). split; [assumption|reflexivity].
Qed.

(** X10. When the fetch resolves, the state after the handler differs
    from the one before by the controller that was made and by the frames
    of the answer, written in their order. When the body of the response
    comes to its end the handler resolves, and the frames are the start
    frame, a chunk frame for each chunk of the response with its bytes,
    and the end frame. When the body fails after the chunks that it
    yielded, the handler rejects with the error of the body, and the
    frames are the start frame and the chunk frames of those chunks,
    without an end frame. The status of the start frame is the status
    code of the response, or 500 when that is missing or 0, and so never
    0; the status text is empty when the response has none; the headers
    are those of the response that have a value. The close listeners are
    as before. *)
Theorem resolved_answer env msg i req resp (s : Server) :
  parseMsgInit msg = Ret (Some i) ->
  op i = C2S.HTTPRequest c2s ->
  tryParseJSONPayload (Buf.slice msg (cursor i)) = Ret (Some req) ->
  Json.truthy (Some req) = true ->
  fetch env req = Ret resp ->
  exists p,
    onMsg env msg s =
      match errored resp with
      | None =>
          (Ret tt,
           set_sent (fun l => l ++ exchange_frames s2c (seq i) p (chunks resp))
             (set_controllers S s))
      | Some e =>
          (Throw e,
           set_sent (fun l => l ++ unfinished_frames s2c (seq i) p (chunks resp))
             (set_controllers S s))
      end /\
    status p <> 0 /\
    (forall n, statusCode resp = Some n -> n <> 0 -> status p = n) /\
    (statusCode resp = None \/ statusCode resp = Some 0 -> status p = 500) /\
    statusText p = default [] (statusMessage resp) /\
    (forall k vs, (k, vs) ∈ headers p <-> (k, Some vs) ∈ headersDistinct resp).
Proof.
  intros Hinit Hop Hreq Htruthy Hf. eexists. split.
  { exact (onMsg_resolved c2s s2c platform env msg i req Hinit Hop Hreq Htruthy resp s Hf). }
  cbn [status statusText headers]. unfold status_or_500.
  split; [|split; [|split; [|split]]].
  - destruct (statusCode resp) as [n|]; [|discriminate].
    destruct (N.eqb_spec n 0); [discriminate|assumption].
  - intros n -> Hn. now destruct (N.eqb_spec n 0).
  - intros [->| ->]; reflexivity.
  - reflexivity.
  - intros k vs. apply truthy_headers_spec.
Qed.

End Frames.

(** ** The close of the channel *)

Section Closing.
Import Js Relay.

Variable c2s : C2S.RequestTypes.
Variable s2c : S2C.RequestTypes.
Variable platform : Platform.

#[local] Abbreviation onMsg := (onMsg c2s s2c platform).
#[local] Abbreviation step := (step c2s s2c platform).
#[local] Abbreviation run := (run c2s s2c platform).

Lemma remove_last_perm (c : nat) (ls : list nat) :
  c ∈ ls -> ls ≡ₚ c :: remove_last c ls.
Proof.
  induction ls as [|x ls IH]; [now rewrite elem_of_nil|].
  intros Hin. cbn [remove_last]. destruct (decide (c ∈ ls)) as [H|H].
  - rewrite (IH H) at 1. apply Permutation_swap.
  - apply elem_of_cons in Hin as [->|Hin]; [|contradiction].
    now rewrite decide_True.
Qed.

(** The hooks of [l], run in their order on a state whose listeners are
    those of [l] and those of [r]. *)
Lemma hooks_run (l r : list nat) (s : Server) :
  listeners s ≡ₚ l ++ r ->
  exists ls',
    ls' ≡ₚ r /\
    for_each onClose_hook l s =
    (Ret tt, set_listeners (fun _ => ls') (set_aborted (fun a => a ++ l) s)).
Proof.
  revert s. induction l as [|c l IH]; intros s Hp.
  - exists (listeners s). split; [assumption|].
    cbn [for_each]. unfold ret, set_listeners, set_aborted. destruct s; cbn.
    now rewrite app_nil_r.
  - cbn [for_each]. unfold mbind at 1.
    set (s1 := set_listeners (remove_last c) (set_aborted (fun a => a ++ [c]) s)).
    assert (onClose_hook c s = (Ret tt, s1)) as -> by reflexivity.
    assert (listeners s1 ≡ₚ l ++ r) as Hp1.
    { unfold s1, set_listeners, set_aborted. cbn [listeners].
      apply (Permutation_cons_inv (a := c)).
      rewrite <- remove_last_perm; [assumption|].
      rewrite Hp. cbn. apply elem_of_cons. now left. }
    destruct (IH s1 Hp1) as (ls' & Hls & ->). exists ls'. split; [assumption|].
    unfold s1, set_listeners, set_aborted. cbn [sent sockets heap listeners aborted controllers].
    now rewrite <- app_assoc.
Qed.

(** What [onClose] does. *)
Lemma onClose_run (s : Server) :
  onClose s =
  (Ret tt, set_listeners (fun _ => []) (set_aborted (fun a => a ++ listeners s) s)).
Proof.
  unfold onClose, mbind, read.
  destruct (hooks_run (listeners s) [] s) as (ls' & Hls & ->);
    [now rewrite app_nil_r|].
  apply Permutation_nil_r in Hls. now subst ls'.
Qed.

(** X11. [onClose] runs the hook of every HTTP exchange that is still
    registered, once and in the order of registration: each of their
    controllers is aborted, and each hook takes itself off, so that no
    listener is left. It never throws, writes nothing and leaves the
    registry and the sockets alone: no socket is closed when the channel
    closes. A second [onClose] finds nothing to do. *)
Theorem onClose_aborts_all (s : Server) :
  onClose s =
    (Ret tt, set_listeners (fun _ => []) (set_aborted (fun a => a ++ listeners s) s)) /\
  onClose (snd (onClose s)) = (Ret tt, snd (onClose s)).
Proof.
  split; [apply onClose_run|].
  rewrite !onClose_run. cbn [snd]. unfold set_listeners, set_aborted.
  cbn [sent sockets heap listeners aborted controllers].
  now rewrite app_nil_r.
Qed.

(** The controllers after an exchange. *)
Lemma hooks_after_exchange env msg i req (s : Server) :
  parseMsgInit msg = Ret (Some i) ->
  op i = C2S.HTTPRequest c2s ->
  tryParseJSONPayload (Buf.slice msg (cursor i)) = Ret (Some req) ->
  Json.truthy (Some req) = true ->
  aborted (step s (Message env msg)) = aborted s /\
  controllers (step s (Message env msg)) = S (controllers s).
Proof.
  intros Hinit Hop Hreq Htruthy. unfold Relay.step. cbn [handle].
  destruct (fetch env req) as [resp|[st b|cls m k|t]] eqn:Hf.
  - rewrite (onMsg_resolved c2s s2c platform env msg i req Hinit Hop Hreq Htruthy resp s Hf).
    now destruct (errored resp).
  - now rewrite (onMsg_controlled c2s s2c platform env msg i req Hinit Hop Hreq Htruthy st b s Hf).
  - now rewrite (onMsg_fault c2s s2c platform env msg i req Hinit Hop Hreq Htruthy _ s Hf).
  - now rewrite (onMsg_fault c2s s2c platform env msg i req Hinit Hop Hreq Htruthy _ s Hf).
Qed.

(** X12. An exchange and then the close of the channel. The close aborts
    the controllers of the exchanges that were pending before; the
    controller of the exchange that has just been answered is aborted as
    well when its fetch failed with a [BareError], and is not when the
    fetch resolved or failed in another way. *)
Theorem close_after_exchange env msg i req (s : Server) :
  parseMsgInit msg = Ret (Some i) ->
  op i = C2S.HTTPRequest c2s ->
  tryParseJSONPayload (Buf.slice msg (cursor i)) = Ret (Some req) ->
  Json.truthy (Some req) = true ->
  let s' := run s [Message env msg; ChannelClose] in
  listeners s' = [] /\
  aborted s' =
    aborted s ++ listeners s ++
    match fetch env req with
    | Throw (BareError _ _) => [controllers s]
    | _ => []
    end.
Proof.
  intros Hinit Hop Hreq Htruthy s'. unfold s', Relay.run. cbn [foldl].
  destruct (hooks_after_exchange env msg i req s Hinit Hop Hreq Htruthy) as [Ha _].
  pose proof (listeners_after_exchange c2s s2c platform env msg i req s
                Hinit Hop Hreq Htruthy) as Hl.
  revert Ha Hl. generalize (step s (Message env msg)). intros s1 Ha Hl.
  unfold Relay.step. cbn [handle]. rewrite onClose_run. cbn [snd].
  unfold set_listeners, set_aborted. cbn [listeners aborted].
  split; [reflexivity|]. rewrite Ha, Hl.
  destruct (fetch env req) as [resp|[st b|cls m k|t]]; now rewrite ?app_nil_r.
Qed.

(** The controllers stay fresh. *)
Lemma hooks_fresh_kept (s s' : Server) : hooks_kept s s' -> hooks_fresh s -> hooks_fresh s'.
Proof. unfold hooks_fresh. intros (-> & -> & ->). tauto. Qed.

Lemma hooks_fresh_step ev (s : Server) : hooks_fresh s -> hooks_fresh (step s ev).
Proof.
  intros Hs.
  destruct ev as [env msg| |ws|ws e|ws m];
    try (apply (hooks_fresh_kept s); [|assumption];
         apply hooks_kept_socket_event; intros; discriminate).
  - unfold Relay.step. cbn [handle].
    destruct (parseMsgInit msg) as [[i|]|e] eqn:Hinit;
      [|unfold Relay.onMsg, mbind, lift; now rewrite Hinit..].
    destruct (N.eqb_spec (op i) (C2S.HTTPRequest c2s)) as [Hop|Hop].
    + destruct (tryParseJSONPayload_returns (Buf.slice msg (cursor i))) as [p Hp].
      destruct (Json.truthy p) eqn:Ht.
      * destruct p as [req|]; [|discriminate].
        pose proof (listeners_after_exchange c2s s2c platform env msg i req s
                      Hinit Hop Hp Ht) as Hl.
        destruct (hooks_after_exchange env msg i req s Hinit Hop Hp Ht) as [Ha Hc].
        unfold Relay.step in Hl, Ha, Hc. cbn [handle] in Hl, Ha, Hc.
        destruct Hs as [Hnd Hlt]. unfold hooks_fresh. rewrite Hl, Ha, Hc.
        assert (forall l, l = listeners s \/ l = listeners s ++ [controllers s] ->
                  NoDup (l ++ aborted s) /\
                  Forall (fun c => (c < S (controllers s))%nat) (l ++ aborted s)) as H.
        { intros l [->| ->].
          - split; [assumption|]. eapply Forall_impl; [exact Hlt|]. cbn. lia.
          - split.
            + rewrite <- app_assoc. apply NoDup_app in Hnd as (N1 & N2 & N3).
              apply NoDup_app. split; [assumption|]. split.
              * intros x Hx. rewrite elem_of_app, list_elem_of_singleton.
                intros [->|Hin]; [|now apply (N2 x)].
                rewrite Forall_forall in Hlt.
                specialize (Hlt (controllers s)). rewrite elem_of_app in Hlt.
                specialize (Hlt (or_introl Hx)). lia.
              * apply NoDup_cons. split; [|assumption]. intros Hin.
                rewrite Forall_forall in Hlt.
                specialize (Hlt (controllers s)). rewrite elem_of_app in Hlt.
                specialize (Hlt (or_intror Hin)). lia.
            + rewrite <- app_assoc. rewrite Forall_app in Hlt. destruct Hlt as [L1 L2].
              rewrite !Forall_app. split; [|split].
              * eapply Forall_impl; [exact L1|]. cbn. lia.
              * repeat constructor.
              * eapply Forall_impl; [exact L2|]. cbn. lia. }
        apply H. destruct (fetch env req) as [resp|[st b|cls m k|t]]; auto.
      * now rewrite (onMsg_unusable c2s s2c platform env msg i Hinit p s Hop Hp Ht).
    + apply (hooks_fresh_kept s); [|assumption].
      now apply (silent_onMsg c2s s2c platform env msg i s Hinit Hop).
  - unfold Relay.step. cbn [handle]. rewrite onClose_run. cbn [snd].
    destruct Hs as [Hnd Hlt]. unfold hooks_fresh, set_listeners, set_aborted.
    cbn [listeners aborted controllers app].
    split.
    + apply NoDup_app in Hnd as (N1 & N2 & N3). apply NoDup_app.
      split; [assumption|]. split; [|assumption].
      intros x Hx Hy. exact (N2 x Hy Hx).
    + rewrite Forall_app in *. tauto.
Qed.

(** X13. In every state that the relay reaches from its start, no
    controller is aborted twice, no controller that was aborted still has
    its hook among the close listeners, no hook is registered twice, and
    the hooks and the aborted controllers are controllers that
    [handleHTTPRequest] made. *)
Theorem controllers_stay_fresh (evs : list Event) :
  let s := run initial evs in
  NoDup (aborted s) /\ NoDup (listeners s) /\
  (forall c, c ∈ listeners s -> c ∉ aborted s) /\
  (forall c, c ∈ listeners s \/ c ∈ aborted s -> (c < controllers s)%nat).
Proof.
  intros s.
  assert (hooks_fresh s) as [Hnd Hlt].
  { unfold s, Relay.run. generalize initial, (conj (NoDup_nil_2 : NoDup ([] ++ []))
      (Forall_nil_2 _ : Forall (fun c => (c < 0)%nat) ([] ++ [])) : hooks_fresh initial).
    induction evs as [|ev evs IH]; intros s0 H0; cbn [foldl]; [assumption|].
    apply IH. now apply hooks_fresh_step. }
  apply NoDup_app in Hnd as (N1 & N2 & N3).
  split; [assumption|]. split; [assumption|]. split; [assumption|].
  intros c Hc. rewrite Forall_forall in Hlt. apply Hlt. now rewrite elem_of_app.
Qed.

End Closing.

(** ** The states that the relay reaches *)

Section Reachable.
Import Js Relay.

Variable c2s : C2S.RequestTypes.
Variable s2c : S2C.RequestTypes.
Variable platform : Platform.

#[local] Abbreviation onMsg := (onMsg c2s s2c platform).
#[local] Abbreviation step := (step c2s s2c platform).
#[local] Abbreviation run := (run c2s s2c platform).

(** *** Every socket is set up *)

Lemma set_up_step ev (s : Server) : set_up s -> set_up (step s ev).
Proof.
  intros Hs.
  destruct (step_cases c2s s2c platform ev s)
    as [[_ Hh]|[(sq & u & Hsq & ->)|(sq & ws' & f & _ & Hf & ->)]]; intros ws w.
  - rewrite Hh. apply Hs.
  - unfold opened, set_heap. cbn [heap]. intros Hw.
    apply lookup_app_Some in Hw as [Hw|[_ Hw]]; [now apply (Hs ws)|].
    apply list_lookup_singleton_Some in Hw as [_ <-]. cbn.
    split; [reflexivity|]. exists sq. split; [assumption|]. repeat split.
  - unfold set_heap. cbn [heap]. destruct (decide (ws = ws')) as [->|Hne].
    + rewrite list_lookup_alter_eq. destruct (heap s !! ws') as [w0|] eqn:Hw0;
        cbn; [|discriminate].
      intros [= <-]. destruct (Hs ws' w0 Hw0) as (Hb & sq' & Hsq' & B1 & B2 & B3).
      destruct Hf as [[d ->]| ->]; cbn; (split; [assumption|]);
        exists sq'; (split; [assumption|]); repeat split; assumption.
    + rewrite list_lookup_alter_ne by congruence. apply Hs.
Qed.

Lemma set_up_run evs (s : Server) : set_up s -> set_up (run s evs).
Proof.
  revert s. induction evs as [|ev evs IH]; intros s Hs; cbn; [assumption|].
  apply IH. now apply set_up_step.
Qed.

Lemma set_up_initial : set_up initial.
Proof. intros ws w H. cbn in H. now rewrite lookup_nil in H. Qed.

(** X14. In every state that the relay reaches from its start, every
    socket that was constructed has [binaryType] set to [arraybuffer] and
    its three handlers, bound to one 16-bit sequence id, whether or not
    the registry still names it. So its events are relayed on that id: the
    open event writes a [WSOpen] frame, the close event a [WSClose] frame
    with the code, the reason and the flag of the event, a message one
    [WSDataText] or [WSDataBinary] frame with its data. Every other
    message makes the handler throw, with nothing written: a value with
    properties that is neither an [ArrayBuffer] nor an event with a string
    or an [ArrayBuffer] throws the [Error] of an unexpected message type,
    and [undefined] or [null] throws the [TypeError] of reading [data]
    from it. *)
Theorem socket_events_relay (evs : list Event) (ws : nat) (w : WebSocket) :
  let s := run initial evs in
  heap s !! ws = Some w ->
  binaryType w = Some (str "arraybuffer") /\
  exists sq,
    sq < 65536 /\ bound_to sq w /\ relays s2c ws sq s /\
    ws_onmessage s2c ws EventOther s =
    (Throw (Error (OtherError (str "Error"))
              (str "Unexpected message type received") None), s) /\
    ws_onmessage s2c ws Nullish s =
    (Throw (Error TypeError (str "Cannot read properties of undefined") None), s).
Proof.
  intros s Hw.
  destruct (set_up_run evs initial set_up_initial ws w Hw) as (Hb & sq & Hsq & Hbound).
  split; [assumption|]. exists sq. split; [assumption|]. split; [assumption|].
  split; [now apply bound_relays with (w := w)|].
  destruct Hbound as (_ & _ & B3).
  unfold ws_onmessage, handler, mbind, read. fold s. rewrite Hw.
  change (Some w ≫= onmessage) with (onmessage w). now rewrite B3.
Qed.

(** *** A socket without an entry *)

Lemma orphan_step ev (ws : nat) (w : WebSocket) (s : Server) :
  heap s !! ws = Some w -> orphan s ws ->
  heap (step s ev) !! ws = Some w /\ orphan (step s ev) ws.
Proof.
  intros Hw Ho.
  destruct (step_cases c2s s2c platform ev s)
    as [[Hs Hh]|[(sq & u & Hsq & ->)|(sq & ws' & f & Hs & _ & ->)]].
  - unfold orphan. now rewrite Hs, Hh.
  - unfold orphan, opened, set_heap, set_sockets. cbn [heap sockets].
    split; [now apply lookup_app_l_Some|].
    intros sq'. rewrite lookup_insert. destruct (decide (sq = sq')) as [->|Hne].
    + apply lookup_lt_Some in Hw. intros [= E]. lia.
    + apply Ho.
  - unfold orphan, set_heap. cbn [heap sockets]. split; [|assumption].
    rewrite list_lookup_alter_ne; [assumption|].
    intros ->. now apply (Ho sq).
Qed.

(** The same along a sequence of events. *)
Lemma orphan_frozen_run (evs : list Event) (ws : nat) (w : WebSocket) (s : Server) :
  heap s !! ws = Some w -> orphan s ws ->
  heap (run s evs) !! ws = Some w /\ orphan (run s evs) ws.
Proof.
  revert s. induction evs as [|ev evs IH]; intros s Hw Ho; cbn [Relay.run foldl].
  - now split.
  - destruct (orphan_step ev ws w s Hw Ho) as [Hw' Ho']. now apply IH.
Qed.

(** X15. A socket that has no entry in the registry never gets one again,
    and no event changes it: the peer cannot send to it and cannot close
    it, whatever frames it writes; the record of the calls of [send] and
    the count of the calls of [close()] stay as they are. *)
Theorem orphan_frozen (evs : list Event) (ws : nat) (w : WebSocket) (s : Server) :
  heap s !! ws = Some w ->
  orphan s ws ->
  heap (run s evs) !! ws = Some w /\ orphan (run s evs) ws.
Proof.
  revert s. induction evs as [|ev evs IH]; intros s Hw Ho; cbn [Relay.run foldl].
  - now split.
  - destruct (orphan_step ev ws w s Hw Ho) as [Hw' Ho']. now apply IH.
Qed.

(** The registry names no socket twice. *)
Lemma registered_injective (s : Server) (sq1 sq2 : N) (ws : nat) :
  registered s ->
  sockets s !! sq1 = Some ws -> sockets s !! sq2 = Some ws -> sq1 = sq2.
Proof.
  intros Hr H1 H2.
  destruct (Hr sq1 ws H1) as (w1 & Hw1 & B1 & _).
  destruct (Hr sq2 ws H2) as (w2 & Hw2 & B2 & _).
  congruence.
Qed.

(** X16. The socket that a [WSOpen] frame replaces is cut off for good. In
    every state that the relay reaches, after a [WSOpen] frame on a
    sequence id that has a registered socket, when the payload decodes
    and the constructor accepts the url, whatever events follow: the
    socket registered before has no entry, it is exactly as it was before
    the frame, so no later frame has sent to it or closed it, and its
    handlers still relay its events on the same sequence id, which is now
    that of the new socket. *)
Theorem replaced_socket_cut_off evs env msg i (old : nat) p u later :
  let s := run initial evs in
  C2S.distinct c2s ->
  parseMsgInit msg = Ret (Some i) ->
  op i = C2S.WSOpen c2s ->
  sockets s !! seq i = Some old ->
  tryParseJSONPayload (Buf.slice msg (cursor i)) = Ret p ->
  Json.get p (str "url") = Ret u ->
  new_WebSocket env u = Ret tt ->
  let s' := run (step s (Message env msg)) later in
  orphan s' old /\
  heap s' !! old = heap s !! old /\
  relays s2c old (seq i) s'.
Proof.
  intros s Hd Hinit Hop Hold Hp Hu Hws s'.
  assert (registered s) as Hr
    by apply (registered_run c2s s2c platform), registered_initial.
  destruct (distinct_codes c2s Hd) as [Hne _].
  assert (step s (Message env msg) = opened s (seq i) u) as E.
  { unfold Relay.step. cbn [handle].
    rewrite (onMsg_WSOpen c2s s2c platform env msg i Hinit s Hop Hne).
    rewrite Hp. cbn [bind]. rewrite Hu. cbn [bind]. now rewrite Hws. }
  destruct (Hr _ _ Hold) as (w & Hw & Hb).
  assert (heap (opened s (seq i) u) !! old = Some w) as Hw1.
  { unfold opened, set_heap. cbn [heap]. now apply lookup_app_l_Some. }
  assert (orphan (opened s (seq i) u) old) as Ho1.
  { intros sq. unfold opened, set_heap, set_sockets. cbn [sockets].
    rewrite lookup_insert. destruct (decide (seq i = sq)) as [<-|Hsq].
    - apply lookup_lt_Some in Hw. intros [= E']. lia.
    - intros H. apply Hsq. now apply (registered_injective s (seq i) sq old). }
  destruct (orphan_frozen_run later old w _ Hw1 Ho1) as [Hw' Ho'].
  unfold s'. rewrite E. split; [assumption|]. split; [congruence|].
  now apply bound_relays with (w := w).
Qed.

End Reachable.

(** ** What the relay writes *)

Section Written.
Import Js Relay.

Variable c2s : C2S.RequestTypes.
Variable s2c : S2C.RequestTypes.
Variable platform : Platform.

#[local] Abbreviation onMsg := (onMsg c2s s2c platform).
#[local] Abbreviation step := (step c2s s2c platform).
#[local] Abbreviation run := (run c2s s2c platform).

Lemma relay_frame_intro (sq op : N) (payload : list byte) :
  sq < 65536 -> op ∈ codes s2c -> relay_frame s2c (frame sq op payload).
Proof. intros H1 H2. exists sq, op, payload. auto. Qed.

Lemma exchange_frames_relay (sq : N) p cs :
  sq < 65536 -> Forall (relay_frame s2c) (exchange_frames s2c sq p cs).
Proof.
  intros Hsq. unfold exchange_frames. apply Forall_cons. split.
  { apply relay_frame_intro; [assumption|]. unfold codes. set_solver. }
  apply Forall_app. split.
  - apply Forall_map, Forall_true. intros c.
    apply relay_frame_intro; [assumption|]. unfold codes. set_solver.
  - apply Forall_singleton.
    apply relay_frame_intro; [assumption|]. unfold codes. set_solver.
Qed.

Lemma unfinished_frames_relay (sq : N) p cs :
  sq < 65536 -> Forall (relay_frame s2c) (unfinished_frames s2c sq p cs).
Proof.
  intros Hsq. unfold unfinished_frames. apply Forall_cons. split.
  { apply relay_frame_intro; [assumption|]. unfold codes. set_solver. }
  apply Forall_map, Forall_true. intros c.
  apply relay_frame_intro; [assumption|]. unfold codes. set_solver.
Qed.

(** A handler that leaves the log as it is adds no frame. *)
Lemma wrote_none (s s' : Server) :
  sent s' = sent s ->
  exists l, sent s' = sent s ++ l /\ Forall (relay_frame s2c) l.
Proof. intros ->. exists []. now rewrite app_nil_r. Qed.

(** An event adds frames to the log. *)
Lemma step_sent ev (s : Server) :
  set_up s ->
  exists l, sent (step s ev) = sent s ++ l /\ Forall (relay_frame s2c) l.
Proof.
  intros Hs. destruct ev as [env msg| |ws|ws e|ws m]; unfold Relay.step; cbn [handle].
  - destruct (parseMsgInit msg) as [[i|]|e] eqn:Hinit;
      [|apply wrote_none; unfold Relay.onMsg, mbind, lift; now rewrite Hinit..].
    destruct (N.eqb_spec (op i) (C2S.HTTPRequest c2s)) as [Hop|Hop].
    + destruct (tryParseJSONPayload_returns (Buf.slice msg (cursor i))) as [p Hp].
      destruct (parseMsgInit_bounds msg i Hinit) as (_ & Hsq & _).
      destruct (Json.truthy p) eqn:Ht.
      * destruct p as [req|]; [|discriminate].
        destruct (fetch env req) as [resp|err] eqn:Hf.
        { rewrite (onMsg_resolved c2s s2c platform env msg i req Hinit Hop Hp Ht resp s Hf).
          destruct (errored resp); (eexists; split; [reflexivity|]).
          - now apply unfinished_frames_relay.
          - now apply exchange_frames_relay. }
        destruct err as [st b|cls m k|t].
        { rewrite (onMsg_controlled c2s s2c platform env msg i req Hinit Hop Hp Ht st b s Hf).
          eexists. split; [reflexivity|]. now apply exchange_frames_relay. }
        { rewrite (onMsg_fault c2s s2c platform env msg i req Hinit Hop Hp Ht _ s Hf)
            by discriminate.
          eexists. split; [reflexivity|]. now apply exchange_frames_relay. }
        { rewrite (onMsg_fault c2s s2c platform env msg i req Hinit Hop Hp Ht _ s Hf)
            by discriminate.
          eexists. split; [reflexivity|]. now apply exchange_frames_relay. }
      * apply wrote_none.
        now rewrite (onMsg_unusable c2s s2c platform env msg i Hinit p s Hop Hp Ht).
    + apply wrote_none.
      now destruct (silent_onMsg c2s s2c platform env msg i s Hinit Hop) as [? _].
  - apply wrote_none. now rewrite onClose_run.
  - destruct (heap s !! ws) as [w|] eqn:Hw.
    + destruct (Hs ws w Hw) as (_ & sq & Hsq & Hb).
      destruct (bound_relays s2c ws w sq s Hw Hb) as (H & _).
      rewrite H. eexists. split; [reflexivity|]. apply Forall_singleton.
      apply relay_frame_intro; [assumption|]. unfold codes. set_solver.
    + apply wrote_none. unfold ws_onopen, handler, mbind, read. now rewrite Hw.
  - destruct (heap s !! ws) as [w|] eqn:Hw.
    + destruct (Hs ws w Hw) as (_ & sq & Hsq & Hb).
      destruct (bound_relays s2c ws w sq s Hw Hb) as (_ & H & _).
      rewrite H. eexists. split; [reflexivity|]. apply Forall_singleton.
      apply relay_frame_intro; [assumption|]. unfold codes. set_solver.
    + apply wrote_none. unfold ws_onclose, handler, mbind, read. now rewrite Hw.
  - destruct (heap s !! ws) as [w|] eqn:Hw.
    + destruct (Hs ws w Hw) as (_ & sq & Hsq & Hb).
      destruct (bound_relays s2c ws w sq s Hw Hb) as (_ & _ & H1 & H2 & H3 & H4).
      destruct m as [d [|]|d|d| |].
      * rewrite H1. eexists. split; [reflexivity|]. apply Forall_singleton.
        apply relay_frame_intro; [assumption|]. unfold codes. set_solver.
      * rewrite H2. eexists. split; [reflexivity|]. apply Forall_singleton.
        apply relay_frame_intro; [assumption|]. unfold codes. set_solver.
      * rewrite H3. eexists. split; [reflexivity|]. apply Forall_singleton.
        apply relay_frame_intro; [assumption|]. unfold codes. set_solver.
      * rewrite H4. eexists. split; [reflexivity|]. apply Forall_singleton.
        apply relay_frame_intro; [assumption|]. unfold codes. set_solver.
      * apply wrote_none. destruct Hb as (_ & _ & B3).
        unfold ws_onmessage, handler, mbind, read. rewrite Hw.
        change (Some w ≫= onmessage) with (onmessage w). now rewrite B3.
      * apply wrote_none. destruct Hb as (_ & _ & B3).
        unfold ws_onmessage, handler, mbind, read. rewrite Hw.
        change (Some w ≫= onmessage) with (onmessage w). now rewrite B3.
    + apply wrote_none. unfold ws_onmessage, handler, mbind, read. now rewrite Hw.
Qed.

Lemma run_sent evs (s : Server) :
  set_up s ->
  exists l, sent (run s evs) = sent s ++ l /\ Forall (relay_frame s2c) l.
Proof.
  revert s. induction evs as [|ev evs IH]; intros s Hs; cbn [Relay.run foldl].
  - exists []. now rewrite app_nil_r.
  - destruct (step_sent ev s Hs) as (l1 & E1 & F1).
    destruct (IH (step s ev) (set_up_step c2s s2c platform ev s Hs)) as (l2 & E2 & F2).
    exists (l1 ++ l2). split; [|now apply Forall_app].
    unfold Relay.run in E2. rewrite E2, E1. now rewrite app_assoc.
Qed.

(** X17. The relay only ever adds to what it has written, and what it
    adds are frames of the wire format: from any state it has reached,
    whatever events follow, the log of the buffers given to the transport
    is the log before followed by frames on 16-bit sequence ids with one
    of the seven codes of the frames to the client; when these codes fit
    in a byte, each of the buffers reads back as its header and its
    payload. *)
Theorem relay_writes_frames (evs later : list Event) :
  S2C.octets s2c ->
  let s := run initial evs in
  exists l,
    sent (run s later) = sent s ++ l /\
    Forall (fun buf =>
              exists sq op payload,
                sq < 65536 /\ op ∈ codes s2c /\ decodes_to buf sq op payload)
           l.
Proof.
  intros Hoct s.
  destruct (run_sent later s) as (l & E & F).
  { apply (set_up_run c2s s2c platform), set_up_initial. }
  exists l. split; [assumption|].
  eapply Forall_impl; [exact F|]. cbn.
  intros buf (sq & op & payload & -> & Hsq & Hop).
  exists sq, op, payload. split; [assumption|]. split; [assumption|].
  split; [|reflexivity]. rewrite parseMsgInit_frame.
  unfold S2C.octets in Hoct. rewrite Forall_forall in Hoct.
  rewrite !N.mod_small; [reflexivity| |assumption]. now apply Hoct.
Qed.

(** X18. A socket is opened and then sent to. After a [WSOpen] frame that
    is accepted, a [WSSendBinary] frame on the same sequence id reaches
    the socket that the first frame made: the heap has one more socket,
    for the url of the payload, set up for [ArrayBuffer]s with its three
    handlers on the sequence id, and its one call of [send] carried the
    bytes of the second frame; the registry maps the sequence id to it,
    and nothing was written to the client. *)
Theorem opened_socket_is_sent_to env open data i j p u (s : Server) :
  C2S.distinct c2s ->
  parseMsgInit open = Ret (Some i) ->
  op i = C2S.WSOpen c2s ->
  tryParseJSONPayload (Buf.slice open (cursor i)) = Ret p ->
  Json.get p (str "url") = Ret u ->
  new_WebSocket env u = Ret tt ->
  parseMsgInit data = Ret (Some j) ->
  op j = C2S.WSSendBinary c2s ->
  seq j = seq i ->
  socket_send env = Ret tt ->
  let s' := run s [Message env open; Message env data] in
  heap s' =
    heap s ++
    [{| url := u; binaryType := Some (str "arraybuffer");
        onopen := Some (seq i); onclose := Some (seq i); onmessage := Some (seq i);
        outbox := [SendBinary (Buf.slice data (cursor j))]; closes := 0 |}] /\
  sockets s' = <[seq i := length (heap s)]> (sockets s) /\
  sent s' = sent s.
Proof.
  intros Hd Hi Hopi Hp Hu Hws Hj Hopj Hseq Hsend s'.
  destruct (distinct_codes c2s Hd) as [Hne _].
  assert (step s (Message env open) = opened s (seq i) u) as E1.
  { unfold Relay.step. cbn [handle].
    rewrite (onMsg_WSOpen c2s s2c platform env open i Hi s Hopi Hne).
    rewrite Hp. cbn [bind]. rewrite Hu. cbn [bind]. now rewrite Hws. }
  unfold s', Relay.run. cbn [foldl]. rewrite E1.
  unfold Relay.step. cbn [handle].
  rewrite (onMsg_WSSendBinary c2s s2c platform env data j Hj (length (heap s))
             (opened s (seq i) u) Hd Hopj).
  2:{ unfold opened, set_heap, set_sockets. cbn [sockets]. rewrite Hseq.
      apply lookup_insert_eq. }
  rewrite Hsend. cbn [snd]. unfold opened, set_heap, set_sockets.
  cbn [heap sockets sent]. split; [|split; reflexivity].
  now rewrite alter_snoc.
Qed.

End Written.

(** ** How the handler settles *)

Section Settling.
Import Js Relay.

Variable c2s : C2S.RequestTypes.
Variable s2c : S2C.RequestTypes.
Variable platform : Platform.

#[local] Abbreviation onMsg := (onMsg c2s s2c platform).
#[local] Abbreviation step := (step c2s s2c platform).
#[local] Abbreviation run := (run c2s s2c platform).

(** An [HTTPRequest] frame makes the handler reject only when the fetch
    resolved and the body of the response failed; the error is that of
    the body, and the frames before it were written. *)
Lemma onMsg_HTTPRequest_rejects env msg i e (s : Server) :
  parseMsgInit msg = Ret (Some i) ->
  op i = C2S.HTTPRequest c2s ->
  fst (onMsg env msg s) = Throw e ->
  exists req resp,
    tryParseJSONPayload (Buf.slice msg (cursor i)) = Ret (Some req) /\
    Json.truthy (Some req) = true /\
    fetch env req = Ret resp /\ errored resp = Some e /\
    snd (onMsg env msg s) =
      set_sent
        (fun l => l ++ unfinished_frames s2c (seq i)
                         {| status := status_or_500 (statusCode resp);
                            statusText := default [] (statusMessage resp);
                            headers := truthy_headers (headersDistinct resp) |}
                         (chunks resp))
        (set_controllers S s).
Proof.
  intros Hinit Hop.
  destruct (tryParseJSONPayload_returns (Buf.slice msg (cursor i))) as [p Hp].
  destruct (Json.truthy p) eqn:Ht.
  - destruct p as [req|]; [|discriminate].
    destruct (fetch env req) as [resp|[st b|cls m k|t]] eqn:Hf.
    + rewrite (onMsg_resolved c2s s2c platform env msg i req Hinit Hop Hp Ht resp s Hf).
      destruct (errored resp) as [e'|] eqn:He; [|discriminate].
      intros [= ->]. exists req, resp. auto.
    + now rewrite (onMsg_controlled c2s s2c platform env msg i req Hinit Hop Hp Ht st b s Hf).
    + now rewrite (onMsg_fault c2s s2c platform env msg i req Hinit Hop Hp Ht _ s Hf).
    + now rewrite (onMsg_fault c2s s2c platform env msg i req Hinit Hop Hp Ht _ s Hf).
  - now rewrite (onMsg_unusable c2s s2c platform env msg i Hinit p s Hop Hp Ht).
Qed.

(** X19. A [WSOpen] frame is all or nothing. Either the handler rejects,
    with the [TypeError] of reading [url] from a payload that is no JSON
    or is [null], or with what the constructor threw, and then the state is
    as it was: no socket was made and the registry has no new entry. Or
    the constructor accepted the url, which is [undefined] when the
    payload has none, and then the handler resolves with the socket
    registered and set up. *)
Theorem WSOpen_all_or_nothing env msg i (s : Server) :
  C2S.distinct c2s ->
  parseMsgInit msg = Ret (Some i) ->
  op i = C2S.WSOpen c2s ->
  (exists e,
     onMsg env msg s = (Throw e, s) /\
     (e = Error TypeError (str "Cannot read properties of undefined") None \/
      exists p u, tryParseJSONPayload (Buf.slice msg (cursor i)) = Ret p /\
                  Json.get p (str "url") = Ret u /\ new_WebSocket env u = Throw e)) \/
  (exists p u,
     tryParseJSONPayload (Buf.slice msg (cursor i)) = Ret p /\
     Json.get p (str "url") = Ret u /\ new_WebSocket env u = Ret tt /\
     onMsg env msg s = (Ret tt, opened s (seq i) u)).
Proof.
  intros Hd Hinit Hop. destruct (distinct_codes c2s Hd) as [Hne _].
  rewrite (onMsg_WSOpen c2s s2c platform env msg i Hinit s Hop Hne).
  destruct (tryParseJSONPayload_returns (Buf.slice msg (cursor i))) as [p Hp].
  rewrite Hp. cbn [bind].
  destruct (Json.get p (str "url")) as [u|e] eqn:Hu; cbn [bind].
  - destruct (new_WebSocket env u) as [[]|e] eqn:Hws; cbn [bind].
    + right. exists p, u. auto.
    + left. exists e. split; [reflexivity|]. right. exists p, u. auto.
  - left. exists e. split; [reflexivity|]. left.
    unfold Json.get in Hu. destruct p as [[]|]; congruence.
Qed.

(** X20. The handler rejects in two ways only. For a frame for the
    sockets, a [WSOpen] frame or a frame on a sequence id that has a
    registered socket, and then the frame has done nothing: the state is
    as it was before the frame. Or for an [HTTPRequest] frame whose
    payload decodes to a truthy value, whose fetch resolved and whose
    response body failed in mid-stream: the error is that of the body,
    and the state differs by the controller that was made and by the
    start frame and the frames of the chunks that the body yielded, with
    no end frame and the listeners as before. A buffer without a header,
    a frame with an unknown operation code and an [HTTPRequest] frame
    whose fetch fails never make it reject. *)
Theorem rejection_cases env msg e (s : Server) :
  C2S.distinct c2s ->
  fst (onMsg env msg s) = Throw e ->
  exists i,
    parseMsgInit msg = Ret (Some i) /\
    ((snd (onMsg env msg s) = s /\
      (op i = C2S.WSOpen c2s \/
       ((op i = C2S.WSSendText c2s \/ op i = C2S.WSSendBinary c2s
         \/ op i = C2S.WSClose c2s) /\
        is_Some (sockets s !! seq i)))) \/
     (op i = C2S.HTTPRequest c2s /\
      exists req resp,
        tryParseJSONPayload (Buf.slice msg (cursor i)) = Ret (Some req) /\
        Json.truthy (Some req) = true /\
        fetch env req = Ret resp /\ errored resp = Some e /\
        snd (onMsg env msg s) =
          set_sent
            (fun l => l ++ unfinished_frames s2c (seq i)
                             {| status := status_or_500 (statusCode resp);
                                statusText := default [] (statusMessage resp);
                                headers := truthy_headers (headersDistinct resp) |}
                             (chunks resp))
            (set_controllers S s))).
Proof.
  intros Hd Hthrow.
  destruct (parseMsgInit msg) as [[i|]|e'] eqn:Hinit.
  2:{ unfold Relay.onMsg, mbind, lift in Hthrow. now rewrite Hinit in Hthrow. }
  2:{ destruct msg as [|a [|b [|c rest]]]; discriminate. }
  exists i. split; [reflexivity|].
  destruct (distinct_codes c2s Hd) as [Hne _].
  destruct (N.eqb_spec (op i) (C2S.HTTPRequest c2s)) as [Hhttp|Hhttp].
  { right. split; [assumption|].
    exact (onMsg_HTTPRequest_rejects env msg i e s Hinit Hhttp Hthrow). }
  left.
  destruct (N.eqb_spec (op i) (C2S.WSOpen c2s)) as [Hopen|Hopen].
  { split; [|auto].
    rewrite (onMsg_WSOpen c2s s2c platform env msg i Hinit s Hopen Hne) in Hthrow |- *.
    destruct (let? _ := _ in _); [discriminate|reflexivity]. }
  destruct (N.eqb_spec (op i) (C2S.WSSendText c2s)) as [Htext|Htext];
    [|destruct (N.eqb_spec (op i) (C2S.WSSendBinary c2s)) as [Hbin|Hbin];
      [|destruct (N.eqb_spec (op i) (C2S.WSClose c2s)) as [Hclose|Hclose]]].
  4:{ rewrite (onMsg_default c2s s2c platform env msg i Hinit s) in Hthrow by assumption.
      discriminate. }
  all: destruct (sockets s !! seq i) as [ws|] eqn:Hs;
    [|rewrite (onMsg_unregistered c2s s2c platform env msg i Hinit s) in Hthrow
        by auto; discriminate].
  - rewrite (onMsg_WSSendText c2s s2c platform env msg i Hinit ws s Hd Htext Hs)
      in Hthrow |- *.
    destruct (socket_send env) as [[]|e']; [discriminate|].
    split; [reflexivity|]. right. split; [auto|]. eauto.
  - rewrite (onMsg_WSSendBinary c2s s2c platform env msg i Hinit ws s Hd Hbin Hs)
      in Hthrow |- *.
    destruct (socket_send env) as [[]|e']; [discriminate|].
    split; [reflexivity|]. right. split; [auto|]. eauto.
  - rewrite (onMsg_WSClose c2s s2c platform env msg i Hinit ws s Hd Hclose Hs)
      in Hthrow |- *.
    destruct (socket_close env) as [[]|e']; [discriminate|].
    split; [reflexivity|]. right. split; [auto|]. eauto.
Qed.

End Settling.

(** ** Texts through the decoder and the encoder *)

Section Utf8.
Import Js Relay Text.

Variable c2s : C2S.RequestTypes.
Variable s2c : S2C.RequestTypes.
Variable platform : Platform.

#[local] Abbreviation onMsg := (onMsg c2s s2c platform).
#[local] Abbreviation step := (step c2s s2c platform).

(** Rewrites the comparisons of numbers that the hypotheses decide. *)
Ltac settle :=
  repeat match goal with
  | |- context [?a <=? ?b] =>
      first [rewrite (proj2 (N.leb_le a b)) by lia
            |rewrite (proj2 (N.leb_gt a b)) by lia]
  | |- context [?a <? ?b] =>
      first [rewrite (proj2 (N.ltb_lt a b)) by lia
            |rewrite (proj2 (N.ltb_ge a b)) by lia]
  | |- context [?a =? ?b] =>
      first [rewrite (proj2 (N.eqb_eq a b)) by lia
            |rewrite (proj2 (N.eqb_neq a b)) by lia]
  end.

Lemma to_N_u8 (x : N) : x < 256 -> Byte.to_N (Buf.u8 x) = x.
Proof. intros H. rewrite u8_to_N. now apply N.mod_small. Qed.

Lemma lor_shiftl (a b : N) : b < 64 -> N.lor (N.shiftl a 6) b = a * 64 + b.
Proof.
  intros Hb. rewrite N.shiftl_mul_pow2. change (2 ^ 6) with 64.
  assert (N.land (a * 64) b = 0) as Hdisj.
  { apply N.bits_inj. intros n. rewrite N.land_spec, N.bits_0.
    destruct (N.lt_ge_cases n 6) as [Hn|Hn].
    - change 64 with (2 ^ 6). now rewrite N.mul_pow2_bits_low.
    - rewrite <- (N.mod_small b (2 ^ 6)) by exact Hb.
      rewrite N.mod_pow2_bits_high by assumption. apply andb_false_r. }
  rewrite <- N.lxor_lor by assumption. symmetry. now apply N.add_nocarry_lxor.
Qed.


(** Linear arithmetic with quotients and remainders by constants. *)
Ltac elia := zify; Z.to_euclidean_division_equations; lia.

Lemma scan_cons (d : Decoder) (b : byte) (rest : list byte) d' out bad :
  feed d (Byte.to_N b) = (d', out, bad) ->
  scan d (b :: rest) = (out ++ fst (scan d' rest), negb bad && snd (scan d' rest)).
Proof. intros H. cbn [scan]. rewrite H. now destruct (scan d' rest). Qed.

Lemma lead_ascii (b : N) : b <= 0x7F -> lead b = (idle, [b], false).
Proof. intros H. unfold lead. now settle. Qed.

Lemma lead_two (b : N) :
  0xC2 <= b <= 0xDF ->
  lead b = ({| code_point := b `mod` 32; needed := 1; lower := 0x80; upper := 0xBF |},
            [], false).
Proof.
  intros H. unfold lead, between. settle. cbn [andb].
  change 0x1F with (N.ones 5). now rewrite N.land_ones.
Qed.

Lemma lead_three (b : N) :
  0xE0 <= b <= 0xEF ->
  lead b = ({| code_point := b `mod` 16; needed := 2;
               lower := if b =? 0xE0 then 0xA0 else 0x80;
               upper := if b =? 0xED then 0x9F else 0xBF |}, [], false).
Proof.
  intros H. unfold lead, between.
  rewrite (proj2 (N.leb_gt b 0x7F)) by lia.
  rewrite (proj2 (N.leb_le 0xC2 b)) by lia.
  rewrite (proj2 (N.leb_gt b 0xDF)) by lia.
  rewrite (proj2 (N.leb_le 0xE0 b)) by lia.
  rewrite (proj2 (N.leb_le b 0xEF)) by lia. cbn [andb].
  change 0xF with (N.ones 4). now rewrite N.land_ones.
Qed.

Lemma lead_four (b : N) :
  0xF0 <= b <= 0xF4 ->
  lead b = ({| code_point := b `mod` 8; needed := 3;
               lower := if b =? 0xF0 then 0x90 else 0x80;
               upper := if b =? 0xF4 then 0x8F else 0xBF |}, [], false).
Proof.
  intros H. unfold lead, between.
  rewrite (proj2 (N.leb_gt b 0x7F)) by lia.
  rewrite (proj2 (N.leb_le 0xC2 b)) by lia.
  rewrite (proj2 (N.leb_gt b 0xDF)) by lia.
  rewrite (proj2 (N.leb_le 0xE0 b)) by lia.
  rewrite (proj2 (N.leb_gt b 0xEF)) by lia.
  rewrite (proj2 (N.leb_le 0xF0 b)) by lia.
  rewrite (proj2 (N.leb_le b 0xF4)) by lia. cbn [andb].
  change 0x7 with (N.ones 3). now rewrite N.land_ones.
Qed.

Lemma feed_more (d : Decoder) (b : N) (k : nat) :
  needed d = S (S k) -> lower d <= b <= upper d ->
  feed d b = ({| code_point := code_point d * 64 + b `mod` 64; needed := S k;
                 lower := 0x80; upper := 0xBF |}, [], false).
Proof.
  intros Hn Hb. unfold feed, between. rewrite Hn.
  rewrite (proj2 (N.leb_le (lower d) b)) by lia.
  rewrite (proj2 (N.leb_le b (upper d))) by lia. cbn [andb].
  change 0x3F with (N.ones 6). rewrite N.land_ones.
  rewrite lor_shiftl; [reflexivity|]. now apply N.mod_upper_bound.
Qed.

Lemma feed_last (d : Decoder) (b : N) :
  needed d = 1%nat -> lower d <= b <= upper d ->
  feed d b = (idle, [code_point d * 64 + b `mod` 64], false).
Proof.
  intros Hn Hb. unfold feed, between. rewrite Hn.
  rewrite (proj2 (N.leb_le (lower d) b)) by lia.
  rewrite (proj2 (N.leb_le b (upper d))) by lia. cbn [andb].
  change 0x3F with (N.ones 6). rewrite N.land_ones.
  rewrite lor_shiftl; [reflexivity|]. now apply N.mod_upper_bound.
Qed.

(** The decoder reads the bytes that the encoder makes of a scalar value
    as that value. *)
Lemma scan_utf8 (cp : N) (rest : list byte) :
  scalar cp ->
  scan idle (utf8 cp ++ rest) = (cp :: fst (scan idle rest), snd (scan idle rest)).
Proof.
  intros [Hmax Hsur]. unfold utf8.
  destruct (N.ltb_spec cp 0x80) as [H1|H1].
  { cbn [app]. erewrite scan_cons.
    2:{ rewrite to_N_u8 by lia. cbn [feed needed idle]. apply lead_ascii. lia. }
    reflexivity. }
  destruct (N.ltb_spec cp 0x800) as [H2|H2].
  { cbn [app]. erewrite scan_cons.
    2:{ rewrite to_N_u8 by elia. cbn [feed needed idle]. apply lead_two. elia. }
    erewrite scan_cons.
    2:{ rewrite to_N_u8 by elia. apply feed_last; [reflexivity|]. cbn [lower upper]. elia. }
    cbn [code_point app negb andb fst snd]. do 2 f_equal. elia. }
  destruct (N.ltb_spec cp 0x10000) as [H3|H3].
  { cbn [app]. erewrite scan_cons.
    2:{ rewrite to_N_u8 by elia. cbn [feed needed idle]. apply lead_three. elia. }
    erewrite scan_cons.
    2:{ rewrite to_N_u8 by elia. apply feed_more; [reflexivity|]. cbn [lower upper].
        destruct (N.eqb_spec (0xE0 + cp `div` 0x1000) 0xE0);
          destruct (N.eqb_spec (0xE0 + cp `div` 0x1000) 0xED); elia. }
    erewrite scan_cons.
    2:{ rewrite to_N_u8 by elia. apply feed_last; [reflexivity|]. cbn [lower upper]. elia. }
    cbn [code_point app negb andb fst snd]. do 2 f_equal. elia. }
  cbn [app]. erewrite scan_cons.
  2:{ rewrite to_N_u8 by elia. cbn [feed needed idle]. apply lead_four. elia. }
  erewrite scan_cons.
  2:{ rewrite to_N_u8 by elia. apply feed_more; [reflexivity|]. cbn [lower upper].
      destruct (N.eqb_spec (0xF0 + cp `div` 0x40000) 0xF0);
        destruct (N.eqb_spec (0xF0 + cp `div` 0x40000) 0xF4); elia. }
  erewrite scan_cons.
  2:{ rewrite to_N_u8 by elia. apply feed_more; [reflexivity|]. cbn [lower upper]. elia. }
  erewrite scan_cons.
  2:{ rewrite to_N_u8 by elia. apply feed_last; [reflexivity|]. cbn [lower upper]. elia. }
  cbn [code_point app negb andb fst snd]. do 2 f_equal. elia.
Qed.


Lemma scan_encoded (cps : list N) :
  Forall scalar cps -> scan idle (concat (map utf8 cps)) = (cps, true).
Proof.
  induction 1 as [|cp cps Hcp _ IH]; [reflexivity|].
  cbn [map concat]. rewrite scan_utf8 by assumption. now rewrite IH.
Qed.

(** The code points of a well-formed string are scalar values, and their
    code units are the string. *)
Lemma code_points_well_formed (t : jsstring) :
  well_formed t = true ->
  Forall scalar (code_points t) /\ concat (map code_units (code_points t)) = t.
Proof.
  remember (length t) as n eqn:Hn. revert t Hn.
  induction n as [n IH] using lt_wf_ind. intros [|u rest] Hn Hwf; [now split|].
  cbn [well_formed code_points] in *. unfold is_lead, is_trail, between in *.
  destruct ((0xD800 <=? u) && (u <=? 0xDBFF)) eqn:Hlead.
  - destruct rest as [|v rest]; [discriminate|].
    apply andb_true_iff in Hwf as [Htrail Hwf]. rewrite Htrail.
    apply andb_true_iff in Hlead as [L1 L2]. apply andb_true_iff in Htrail as [T1 T2].
    apply N.leb_le in L1, L2, T1, T2.
    destruct (IH (length rest) ltac:(subst n; cbn; lia) rest eq_refl Hwf) as [F E].
    split.
    + constructor; [|assumption]. unfold scalar. lia.
    + cbn [map concat]. rewrite E. unfold code_units.
      rewrite (proj2 (N.ltb_ge _ _)) by lia. cbn [app]. f_equal; [elia|]. f_equal. elia.
  - apply andb_true_iff in Hwf as [Hwf Hrest]. apply andb_true_iff in Hwf as [Hnt Hlt].
    apply negb_true_iff in Hnt. rewrite Hnt. apply N.ltb_lt in Hlt.
    destruct (IH (length rest) ltac:(subst n; cbn; lia) rest eq_refl Hrest) as [F E].
    split.
    + constructor; [|assumption]. unfold scalar. split; [lia|].
      intros [S1 S2]. apply andb_false_iff in Hlead, Hnt.
      rewrite !N.leb_gt in Hlead, Hnt. lia.
    + cbn [map concat]. rewrite E. unfold code_units.
      now rewrite (proj2 (N.ltb_lt _ _)) by lia.
Qed.

(** Only a byte order mark is stripped. *)
Lemma strip_bom_spec (bs : list byte) :
  (exists rest, bs = xef :: xbb :: xbf :: rest /\ strip_bom bs = rest) \/
  ((forall rest, bs <> xef :: xbb :: xbf :: rest) /\ strip_bom bs = bs).
Proof.
  destruct bs as [|a bs]; [right; split; [discriminate|reflexivity]|].
  destruct (Byte.byte_eq_dec a xef) as [->|Ha].
  2:{ right. split; [congruence|]. destruct a; try reflexivity. contradiction. }
  destruct bs as [|b bs]; [right; split; [discriminate|reflexivity]|].
  destruct (Byte.byte_eq_dec b xbb) as [->|Hb].
  2:{ right. split; [congruence|]. destruct b; try reflexivity. contradiction. }
  destruct bs as [|c bs]; [right; split; [discriminate|reflexivity]|].
  destruct (Byte.byte_eq_dec c xbf) as [->|Hc].
  2:{ right. split; [congruence|]. destruct c; try reflexivity. contradiction. }
  left. eauto.
Qed.

Lemma u8_is (x : N) (b : byte) : x < 256 -> Buf.u8 x = b -> x = Byte.to_N b.
Proof. intros H <-. now rewrite to_N_u8. Qed.

(** The bytes of a scalar value start with a byte order mark only if it
    is U+FEFF. *)
Lemma utf8_bom (cp : N) (rest tail : list byte) :
  scalar cp -> utf8 cp ++ rest = xef :: xbb :: xbf :: tail -> cp = 0xFEFF.
Proof.
  intros [Hmax Hsur]. unfold utf8.
  destruct (N.ltb_spec cp 0x80) as [H1|H1].
  { cbn [app]. intros [= E _]. apply u8_is in E; [|lia]. cbn in E. lia. }
  destruct (N.ltb_spec cp 0x800) as [H2|H2].
  { cbn [app]. intros [= E _]. apply u8_is in E; [|elia]. cbn in E. elia. }
  destruct (N.ltb_spec cp 0x10000) as [H3|H3].
  { cbn [app]. intros [= E1 E2 E3 _].
    apply u8_is in E1; [|elia]. apply u8_is in E2; [|elia]. apply u8_is in E3; [|elia].
    cbn in E1, E2, E3. elia. }
  cbn [app]. intros [= E _]. apply u8_is in E; [|elia]. cbn in E. elia.
Qed.

(** Decoding what the encoder makes of a well-formed string gives the
    string back, without the byte order mark if it starts with one. *)
Lemma decode_encode (t : jsstring) :
  well_formed t = true ->
  decode (encode t) = match t with 0xFEFF :: t' => t' | _ => t end.
Proof.
  intros Hwf. destruct (code_points_well_formed t Hwf) as [F E].
  unfold decode, encode.
  destruct (strip_bom_spec (concat (map utf8 (code_points t))))
    as [(rest & Hb & ->)|[Hb ->]].
  - destruct t as [|u t]; [discriminate|].
    assert (u = 0xFEFF) as ->.
    { cbn [code_points] in Hb, F. cbn [well_formed] in Hwf.
      destruct (is_lead u) eqn:Hl.
      - destruct t as [|v t]; [discriminate|]. apply andb_true_iff in Hwf as [Ht _].
        rewrite Ht in Hb, F. cbn [map concat] in Hb.
        apply Forall_cons in F as [Hs _]. apply utf8_bom in Hb; [|assumption].
        unfold is_lead, between in Hl. apply andb_true_iff in Hl as [L1 L2].
        apply N.leb_le in L1, L2. lia.
      - apply andb_true_iff in Hwf as [Hwf _]. apply andb_true_iff in Hwf as [Hnt _].
        apply negb_true_iff in Hnt. rewrite Hnt in Hb, F. cbn [map concat] in Hb.
        apply Forall_cons in F as [Hs _]. now apply utf8_bom in Hb. }
    change (code_points (0xFEFF :: t)) with (0xFEFF :: code_points t) in *.
    cbn [well_formed] in Hwf. change (is_lead 0xFEFF) with false in Hwf.
    cbn in Hwf. destruct (code_points_well_formed t Hwf) as [F' E'].
    cbn [map concat] in Hb. change (utf8 0xFEFF) with [xef; xbb; xbf] in Hb.
    cbn [app] in Hb. injection Hb as <-.
    rewrite scan_encoded by assumption. cbn [fst]. assumption.
  - rewrite scan_encoded by assumption. cbn [fst].
    destruct t as [|u t]; [reflexivity|].
    destruct (N.eq_dec u 0xFEFF) as [->|Hne].
    + exfalso. apply (Hb (concat (map utf8 (code_points t)))). reflexivity.
    + rewrite E. destruct u as [|p]; [reflexivity|].
      repeat (destruct p as [p|p|]; try reflexivity). now destruct Hne.
Qed.

(** X21. A text goes through the two codecs of the relay unharmed. When
    the payload of a [WSSendText] frame on a sequence id with a registered
    socket is the UTF-8 encoding of a well-formed string, as the relay's
    own [TextEncoder] makes it of the text of a socket, the socket is sent
    that very string, with one exception: a byte order mark U+FEFF at the
    start of the string is dropped by the decoder, so that the socket is
    sent the string without it. *)
Theorem text_round_trip env msg i ws w t (s : Server) :
  C2S.distinct c2s ->
  parseMsgInit msg = Ret (Some i) ->
  op i = C2S.WSSendText c2s ->
  sockets s !! seq i = Some ws ->
  heap s !! ws = Some w ->
  socket_send env = Ret tt ->
  well_formed t = true ->
  Buf.slice msg (cursor i) = encode t ->
  Text.decode (Text.encode t) = match t with 0xFEFF :: t' => t' | _ => t end /\
  heap (step s (Message env msg)) !! ws =
  Some (push_outbox (SendText (match t with 0xFEFF :: t' => t' | _ => t end)) w).
Proof.
  intros Hd Hinit Hop Hs Hw Hsend Hwf Hpay.
  split; [now apply decode_encode|].
  unfold Relay.step. cbn [handle].
  rewrite (onMsg_WSSendText c2s s2c platform env msg i Hinit ws s Hd Hop Hs).
  rewrite Hsend, Hpay, decode_encode by assumption. cbn [snd].
  unfold set_heap. cbn [heap]. rewrite list_lookup_alter_eq. now rewrite Hw.
Qed.

End Utf8.

(** ** The close of the channel during an exchange *)

Section Suspended.
Import Js Relay.

Variable c2s : C2S.RequestTypes.
Variable s2c : S2C.RequestTypes.
Variable platform : Platform.

(** X22. The close of the channel while the fetch of an exchange is
    pending. [handleHTTPRequest] is its part before the [await] followed by
    its part after it. Before the [await] it makes a controller and
    registers the hook of the exchange. If [onClose] runs then, it aborts
    that controller, after those of the exchanges registered before, and
    no listener is left. When the fetch settles afterwards, in whatever
    way, the rest of the method changes nothing any more: its
    [events.off] finds the hook gone, the controller is not aborted a
    second time, and the method returns or throws what it returns or
    throws without the close. *)
Theorem close_while_pending (settled : Res IncomingMessage) (s : Server) :
  let c := controllers s in
  let s1 := snd (handleHTTPRequest_before_await s) in
  let s2 := snd (onClose s1) in
  (forall env req,
     handleHTTPRequest platform env req s =
     (abort <- handleHTTPRequest_before_await ;;
      handleHTTPRequest_after_await platform abort (fetch env req)) s) /\
  fst (handleHTTPRequest_before_await s) = Ret c /\
  listeners s1 = listeners s ++ [c] /\
  fst (onClose s1) = Ret tt /\
  aborted s2 = aborted s ++ listeners s ++ [c] /\
  listeners s2 = [] /\
  snd (handleHTTPRequest_after_await platform c settled s2) = s2 /\
  fst (handleHTTPRequest_after_await platform c settled s2)
  = fst (handleHTTPRequest_after_await platform c settled s1).
Proof.
  intros c s1 s2.
  split; [reflexivity|]. split; [reflexivity|]. split; [reflexivity|].
  unfold s2. rewrite onClose_run. cbn [fst snd].
  split; [reflexivity|]. split; [reflexivity|]. split; [reflexivity|].
  set (s3 := set_listeners _ _).
  assert (forall s', listeners s' = [] -> set_listeners (remove_last c) s' = s') as Hoff.
  { intros [] E. cbn in E. subst. reflexivity. }
  assert (listeners s3 = []) as H3 by reflexivity.
  unfold handleHTTPRequest_after_await, catch, mbind, lift, ret, throw, events_off, modify.
  destruct settled as [resp|[st b|cls m k|t]]; cbn [fst snd];
    rewrite ?(Hoff s3 H3); split; reflexivity.
Qed.

(** The loop over a body, left after the chunks [l1] and taken up again
    for the chunks [l2] and the end of the body, is the loop over the
    whole body. *)
Lemma for_await_resumed {A} (f : A -> M unit) (l1 l2 : list A)
    (failure : option Thrown) (k : M unit) (s : Server) :
  (for_await f (l1 ++ l2) failure ;;; k) s
  = (for_each f l1 ;;; (for_await f l2 failure ;;; k)) s.
Proof.
  revert s. induction l1 as [|a l1 IH]; intros s; [reflexivity|].
  specialize (IH (snd (f a s))). revert IH.
  unfold for_await, mbind. cbn [app for_each]. unfold mbind.
  destruct (f a s) as [[[]|e] s1]; cbn [snd]; [|reflexivity].
  now intros ->.
Qed.

(** X23. The close of the channel while the body of a response streams.
    The hook of an exchange is taken off as soon as the fetch has
    resolved, before the first chunk is read. So when [onClose] runs
    after the start frame and some of the chunk frames were written, the
    controller of the exchange is not aborted and the transfer goes on as
    if the channel had not closed: the loop over the body, taken up again
    after the close, is the loop of the handler. When the body comes to
    its end, the relay writes the frames of the remaining chunks and the
    end frame, and in the end the frames of the whole answer were written
    in their order. When the body fails after the remaining chunks, the
    rest of the handler rejects with the error of the body, and what was
    written is the start frame and the chunk frames, without an end
    frame. *)
Theorem close_while_streaming env req resp (sq : N) (cs1 cs2 : list (list byte))
    (s : Server) :
  fetch env req = Ret resp ->
  chunks resp = cs1 ++ cs2 ->
  let send chunk :=
    bytes <- lift (Uint8Array_of platform chunk) ;;
    sendHTTPResponseChunk s2c sq bytes in
  let rest :=
    for_await send (map Bytes cs2) (errored resp) ;;;
    sendHTTPResponseEnd s2c sq in
  let s1 :=
    snd ((r <- handleHTTPRequest platform env req ;;
          sendHTTPResponseStart s2c sq (payload r) ;;;
          for_each send (map Bytes cs1)) s) in
  let s2 := snd (onClose s1) in
  let s3 := snd (rest s2) in
  let p :=
    {| status := status_or_500 (statusCode resp);
       statusText := default [] (statusMessage resp);
       headers := truthy_headers (headersDistinct resp) |} in
  (forall s',
     (for_await send (map Bytes (chunks resp)) (errored resp) ;;;
      sendHTTPResponseEnd s2c sq) s'
     = (for_each send (map Bytes cs1) ;;; rest) s') /\
  aborted s3 = aborted s ++ listeners s /\
  listeners s3 = [] /\
  match errored resp with
  | None =>
      fst (rest s2) = Ret tt /\
      sent s3 = sent s ++ exchange_frames s2c sq p (chunks resp)
  | Some e =>
      fst (rest s2) = Throw e /\
      sent s3 = sent s ++ unfinished_frames s2c sq p (chunks resp)
  end.
Proof.
  intros Hf Hc send rest s1 s2 s3 p.
  split.
  { intros s'. rewrite Hc, map_app. apply for_await_resumed. }
  assert (s1 = set_sent
                 (fun l => l ++
                    frame sq (S2C.HTTPResponseStart s2c)
                      (Text.encode (stringify_payload p))
                    :: map (frame sq (S2C.HTTPResponseChunk s2c)) cs1)
                 (set_controllers S s)) as E1.
  { unfold s1. unfold mbind at 1.
    rewrite (handleHTTPRequest_resolved platform env req resp s Hf).
    cbn [payload]. unfold mbind at 1, sendHTTPResponseStart.
    rewrite _sendJSONRes_frame. unfold send.
    rewrite (chunk_frames_resolved s2c platform sq cs1). cbn [snd].
    unfold set_sent. cbn [sent sockets heap listeners aborted controllers].
    now rewrite <- app_assoc. }
  assert (rest s2 =
          match errored resp with
          | None =>
              (Ret tt,
               set_sent
                 (fun l => l ++ map (frame sq (S2C.HTTPResponseChunk s2c)) cs2
                             ++ [frame sq (S2C.HTTPResponseEnd s2c) []]) s2)
          | Some e =>
              (Throw e,
               set_sent
                 (fun l => l ++ map (frame sq (S2C.HTTPResponseChunk s2c)) cs2) s2)
          end) as E3.
  { unfold rest, for_await, send. unfold mbind at 1. unfold mbind at 1.
    rewrite (chunk_frames_resolved s2c platform sq cs2).
    destruct (errored resp) as [e|]; [reflexivity|].
    cbn [ret]. unfold ret, sendHTTPResponseEnd. rewrite _sendSimpleRes_frame.
    unfold set_sent. cbn [sent sockets heap listeners aborted controllers].
    now rewrite <- app_assoc. }
  unfold s3. rewrite E3. unfold s2. rewrite onClose_run, E1. cbn [snd].
  destruct (errored resp) as [e|]; cbn [fst snd];
    unfold set_sent, set_listeners, set_aborted, set_controllers,
      exchange_frames, unfinished_frames;
    cbn [sent sockets heap listeners aborted controllers];
    (split; [reflexivity|]); (split; [reflexivity|]); (split; [reflexivity|]);
    rewrite Hc, map_app; rewrite <- ?app_assoc; cbn [app]; now rewrite <- ?app_assoc.
Qed.

End Suspended.

(** ** The JSON payloads, read back *)

Section JsonTexts.
Import Js Relay Json.

Variable s2c : S2C.RequestTypes.

Lemma lex_app (st st' : LexState) (a b : jsstring) toks :
  lex_run st a = Some (st', toks) -> lex st (a ++ b) = app toks <$> lex st' b.
Proof.
  revert st toks. induction a as [|c a IH]; intros st toks; cbn [lex_run app lex].
  - intros [= <- <-]. destruct (lex st b); reflexivity.
  - destruct (lex_char st c) as [[st1 t1]|]; [|discriminate].
    destruct (lex_run st1 a) as [[st2 t2]|] eqn:E; [|discriminate].
    intros [= <- <-]. rewrite (IH st1 t2 E).
    destruct (lex st2 b); cbn; [|reflexivity]. now rewrite app_assoc.
Qed.

Lemma lex_run_app (st st1 st2 : LexState) (a b : jsstring) t1 t2 :
  lex_run st a = Some (st1, t1) -> lex_run st1 b = Some (st2, t2) ->
  lex_run st (a ++ b) = Some (st2, t1 ++ t2).
Proof.
  revert st t1. induction a as [|c a IH]; intros st t1; cbn [lex_run app].
  - intros [= <- <-] H. now rewrite H.
  - destruct (lex_char st c) as [[st' t']|]; [|discriminate].
    destruct (lex_run st' a) as [[st'' t'']|] eqn:E; [|discriminate].
    intros [= <- <-] H. rewrite (IH st' t'' E H). now rewrite app_assoc.
Qed.


Lemma lex_run_cons (st st' : LexState) (c : N) (rest : jsstring) toks :
  lex_char st c = Some (st', toks) ->
  lex_run st (c :: rest) =
  match lex_run st' rest with
  | Some (st'', toks') => Some (st'', toks ++ toks')
  | None => None
  end.
Proof. intros H. cbn [lex_run]. now rewrite H. Qed.

(** A character that stands for itself in a string. *)
Lemma lex_char_plain (acc : jsstring) (c : N) :
  c <> 0x22 -> c <> 0x5C -> 0x20 <= c ->
  lex_char (LString acc) c = Some (LString (c :: acc), []).
Proof.
  intros H1 H2 H3. cbn [lex_char].
  rewrite (proj2 (N.eqb_neq c 0x22)) by assumption.
  rewrite (proj2 (N.eqb_neq c 0x5C)) by assumption.
  now rewrite (proj2 (N.ltb_ge c 0x20)) by assumption.
Qed.

Lemma hex_digit_hex_char (n : N) : n < 16 -> hex_digit (hex_char n) = Some n.
Proof.
  intros H. destruct n as [|p]; [reflexivity|].
  do 4 (try (destruct p as [p|p|]; try reflexivity)); exfalso; lia.
Qed.

(** Linear arithmetic with quotients and remainders by constants. *)
Ltac elia := zify; Z.to_euclidean_division_equations; lia.

(** An escape with four hexadecimal digits reads as its code unit. *)
Lemma lex_run_escape (acc : jsstring) (u : N) :
  u < 0x10000 ->
  lex_run (LString acc) (unicode_escape u) = Some (LString (u :: acc), []).
Proof.
  intros Hu. unfold unicode_escape.
  rewrite (lex_run_cons _ (LEscape acc) _ _ []) by reflexivity.
  rewrite (lex_run_cons _ (LHex acc 4 0) _ _ []) by reflexivity.
  rewrite (lex_run_cons _ (LHex acc 3 (16 * 0 + (u `div` 0x1000) `mod` 16)) _ _ []).
  2:{ cbn [lex_char]. now rewrite hex_digit_hex_char by (apply N.mod_upper_bound; lia). }
  rewrite (lex_run_cons _ (LHex acc 2 (16 * (16 * 0 + (u `div` 0x1000) `mod` 16)
                                       + (u `div` 0x100) `mod` 16)) _ _ []).
  2:{ cbn [lex_char]. now rewrite hex_digit_hex_char by (apply N.mod_upper_bound; lia). }
  rewrite (lex_run_cons _ (LHex acc 1 (16 * (16 * (16 * 0 + (u `div` 0x1000) `mod` 16)
                                             + (u `div` 0x100) `mod` 16)
                                       + (u `div` 0x10) `mod` 16)) _ _ []).
  2:{ cbn [lex_char]. now rewrite hex_digit_hex_char by (apply N.mod_upper_bound; lia). }
  rewrite (lex_run_cons _ (LString (u :: acc)) _ _ []).
  2:{ cbn [lex_char]. rewrite hex_digit_hex_char by (apply N.mod_upper_bound; lia).
      do 4 f_equal. elia. }
  reflexivity.
Qed.

(** A code unit that is no surrogate, as [JSON.stringify] writes it. *)
Lemma lex_run_unit (acc : jsstring) (u : N) :
  u < 0x10000 ->
  lex_run (LString acc) (quote_unit u) = Some (LString (u :: acc), []).
Proof.
  intros Hu. unfold quote_unit.
  destruct (N.eqb_spec u 0x08) as [->|H1]; [reflexivity|].
  destruct (N.eqb_spec u 0x09) as [->|H2]; [reflexivity|].
  destruct (N.eqb_spec u 0x0A) as [->|H3]; [reflexivity|].
  destruct (N.eqb_spec u 0x0C) as [->|H4]; [reflexivity|].
  destruct (N.eqb_spec u 0x0D) as [->|H5]; [reflexivity|].
  destruct (N.eqb_spec u 0x22) as [->|H6]; [reflexivity|].
  destruct (N.eqb_spec u 0x5C) as [->|H7]; [reflexivity|].
  destruct (N.ltb_spec u 0x20) as [H8|H8]; [now apply lex_run_escape|].
  now rewrite (lex_run_cons _ _ _ _ [] (lex_char_plain acc u H6 H7 H8)).
Qed.

(** The characters that [JSON.stringify] writes for a string read as the
    string. *)
Lemma lex_run_units (s acc : jsstring) :
  Forall (fun u => u < 0x10000) s ->
  lex_run (LString acc) (quote_units s) = Some (LString (rev s ++ acc), []).
Proof.
  remember (length s) as n eqn:Hn. revert s acc Hn.
  induction n as [n IH] using lt_wf_ind. intros [|u rest] acc Hn Hs; [reflexivity|].
  apply Forall_cons in Hs as [Hu Hrest].
  assert (forall a, lex_run (LString a) (quote_units rest)
                    = Some (LString (rev rest ++ a), [])) as IHrest.
  { intros a. apply (IH (length rest)); [subst n; cbn; lia|reflexivity|assumption]. }
  assert (forall (w : jsstring),
            lex_run (LString acc) w = Some (LString (u :: acc), []) ->
            lex_run (LString acc) (w ++ quote_units rest)
            = Some (LString (rev (u :: rest) ++ acc), [])) as Hone.
  { intros w Hw. rewrite (lex_run_app _ _ _ _ _ _ _ Hw (IHrest _)).
    cbn [rev app]. now rewrite <- app_assoc. }
  cbn [quote_units].
  destruct (Text.is_lead u) eqn:Hlead.
  - destruct rest as [|v rest'].
    + rewrite <- (app_nil_r (unicode_escape u)). now apply Hone, lex_run_escape.
    + destruct (Text.is_trail v) eqn:Htrail; [|now apply Hone, lex_run_escape].
      apply Forall_cons in Hrest as [Hv Hrest'].
      unfold Text.is_lead, Text.is_trail, Text.between in Hlead, Htrail.
      apply andb_true_iff in Hlead as [L1 L2]. apply andb_true_iff in Htrail as [T1 T2].
      apply N.leb_le in L1, L2, T1, T2.
      rewrite (lex_run_cons _ _ _ _ [] (lex_char_plain acc u ltac:(lia) ltac:(lia) ltac:(lia))).
      rewrite (lex_run_cons _ _ _ _ []
                 (lex_char_plain (u :: acc) v ltac:(lia) ltac:(lia) ltac:(lia))).
      rewrite (IH (length rest') ltac:(subst n; cbn; lia) rest' _ eq_refl Hrest').
      cbn [rev app]. now rewrite <- !app_assoc.
  - destruct (Text.is_trail u); [now apply Hone, lex_run_escape|].
    now apply Hone, lex_run_unit.
Qed.

(** The JSON text of a string reads as one token, the string. *)
Lemma lex_run_quote (s : jsstring) :
  Forall (fun u => u < 0x10000) s ->
  lex_run LStart (quote s) = Some (LStart, [TString s]).
Proof.
  intros Hs. unfold quote. cbn [app].
  rewrite (lex_run_cons _ (LString []) _ _ []) by reflexivity.
  assert (lex_run (LString (rev s ++ [])) [0x22] = Some (LStart, [TString s])) as Hend.
  { rewrite app_nil_r. cbn. now rewrite rev_involutive. }
  now rewrite (lex_run_app _ _ _ _ _ _ _ (lex_run_units s [] Hs) Hend).
Qed.


(** *** Numbers *)

Lemma str_cons (c : ascii) (s : string) :
  str (String.String c s) = Byte.to_N (byte_of_ascii c) :: str s.
Proof. reflexivity. Qed.

Lemma push_fresh (p : positive) (k : N) (q : positive) :
  10 * N.pos p + k = N.pos q ->
  push_digit (fresh false (N.pos p)) k false = fresh false (N.pos q).
Proof. intros H. unfold push_digit, fresh. cbn. now rewrite <- H. Qed.

(** The digits after the first are added to the number read so far. *)
Lemma lex_run_digits (l : Decimal.uint) (p : positive) :
  lex_run (LNumber NInt (fresh false (N.pos p))) (str (NilEmpty.string_of_uint l))
  = Some (LNumber NInt (fresh false (N.pos (Pos.of_uint_acc l p))), []).
Proof.
  revert p. induction l as [|l IH|l IH|l IH|l IH|l IH|l IH|l IH|l IH|l IH|l IH];
    intros p; [reflexivity|..];
    cbn [NilEmpty.string_of_uint Pos.of_uint_acc]; rewrite str_cons;
    erewrite lex_run_cons by reflexivity;
    (erewrite push_fresh; [rewrite IH; reflexivity|]);
    match goal with
    | |- context [Byte.to_N ?b - 48] =>
        let v := eval vm_compute in (Byte.to_N b - 48) in
        change (Byte.to_N b - 48) with v
    end; lia.
Qed.

(** The character after a number ends it. *)
Lemma lex_char_number_end (ph : NumPhase) (a : NumAcc) (c : N) st' toks :
  ph = NZero \/ ph = NInt ->
  digit c = None -> c <> 0x2E -> is_e c = false ->
  start_char c = Some (st', toks) ->
  lex_char (LNumber ph a) c = Some (st', TNumber (decimal_of a) :: toks).
Proof.
  intros Hph Hd Hdot He Hs. cbn [lex_char]. unfold num_char. rewrite Hd.
  rewrite (proj2 (N.eqb_neq c 0x2E)) by assumption. rewrite He.
  destruct Hph as [-> | ->]; cbn [complete]; now rewrite Hs.
Qed.

Lemma nzhead_not_D0 (u v : Decimal.uint) : Decimal.nzhead u <> Decimal.D0 v.
Proof. induction u; cbn; try discriminate. assumption. Qed.

Lemma unorm_D0_nil (l : Decimal.uint) :
  Decimal.unorm (Decimal.D0 l) = Decimal.D0 l -> l = Decimal.Nil.
Proof.
  change (Decimal.unorm (Decimal.D0 l)) with (Decimal.unorm l). unfold Decimal.unorm.
  destruct (Decimal.nzhead l) eqn:E; try discriminate.
  - now intros [= <-].
  - intros [= ->]. now destruct (nzhead_not_D0 l l).
Qed.

(** The decimal text of a number, and the character after it, read as
    the number. *)
Lemma lex_run_number (n : N) (c : N) st' toks :
  digit c = None -> c <> 0x2E -> is_e c = false ->
  start_char c = Some (st', toks) ->
  lex_run LStart (number n ++ [c])
  = Some (st', TNumber {| negative := false; digits := n; exponent := 0 |} :: toks).
Proof.
  intros Hd Hdot He Hs. unfold number.
  pose proof (DecimalN.Unsigned.of_to n) as Hof.
  pose proof (DecimalN.Unsigned.to_of (N.to_uint n)) as Hnorm. rewrite Hof in Hnorm.
  symmetry in Hnorm. revert Hof Hnorm. generalize (N.to_uint n). intros d Hof Hnorm.
  assert (forall (l : Decimal.uint) (ch : ascii) (q : positive),
            start_char (Byte.to_N (byte_of_ascii ch))
            = Some (LNumber NInt (fresh false (N.pos q)), []) ->
            n = N.pos (Pos.of_uint_acc l q) ->
            lex_run LStart (str (String.String ch (NilEmpty.string_of_uint l)) ++ [c])
            = Some (st', TNumber {| negative := false; digits := n; exponent := 0 |}
                         :: toks)) as Hpos.
  { intros l ch q Hch ->. rewrite str_cons. cbn [app].
    rewrite (lex_run_cons LStart _ _ _ _ (Hch : lex_char LStart _ = _)).
    assert (lex_char (LNumber NInt (fresh false (N.pos (Pos.of_uint_acc l q)))) c
            = Some (st', TNumber {| negative := false;
                                    digits := N.pos (Pos.of_uint_acc l q);
                                    exponent := 0 |} :: toks)) as Hend
      by (now apply lex_char_number_end; [right|..]).
    rewrite (lex_run_app _ _ _ _ _ _ _ (lex_run_digits l q)
               (lex_run_cons _ _ _ [] _ Hend)).
    cbn [lex_run app]. now rewrite app_nil_r. }
  destruct d as [|l|l|l|l|l|l|l|l|l|l];
    [discriminate|
    |exact (Hpos l "1"%char 1%positive eq_refl (eq_sym Hof))
    |exact (Hpos l "2"%char 2%positive eq_refl (eq_sym Hof))
    |exact (Hpos l "3"%char 3%positive eq_refl (eq_sym Hof))
    |exact (Hpos l "4"%char 4%positive eq_refl (eq_sym Hof))
    |exact (Hpos l "5"%char 5%positive eq_refl (eq_sym Hof))
    |exact (Hpos l "6"%char 6%positive eq_refl (eq_sym Hof))
    |exact (Hpos l "7"%char 7%positive eq_refl (eq_sym Hof))
    |exact (Hpos l "8"%char 8%positive eq_refl (eq_sym Hof))
    |exact (Hpos l "9"%char 9%positive eq_refl (eq_sym Hof))].
  apply unorm_D0_nil in Hnorm. subst l. cbn in Hof. subst n.
  change (str (NilZero.string_of_uint (Decimal.D0 Decimal.Nil)) ++ [c]) with [0x30; c].
  assert (lex_char (LNumber NZero (fresh false 0)) c
          = Some (st', TNumber {| negative := false; digits := 0; exponent := 0 |}
                       :: toks)) as Hend
    by (now apply lex_char_number_end; [left|..]).
  rewrite (lex_run_cons LStart (LNumber NZero (fresh false 0)) _ _ []) by reflexivity.
  rewrite (lex_run_cons _ _ _ [] _ Hend). cbn [lex_run app]. now rewrite app_nil_r.
Qed.


(** *** Texts made of pieces *)

(** Pieces that each read as whole tokens read together as all of
    them. *)
Lemma lex_run_concat (ps : list (jsstring * list Token)) :
  Forall (fun p => lex_run LStart (fst p) = Some (LStart, snd p)) ps ->
  lex_run LStart (concat (map fst ps)) = Some (LStart, concat (map snd ps)).
Proof.
  induction 1 as [|[t k] ps Hp _ IH]; [reflexivity|].
  cbn [map concat fst snd] in *. now apply lex_run_app with (st1 := LStart).
Qed.

(** A text that reads as whole tokens is a JSON text if the tokens are a
    value. *)
Lemma parse_of_tokens (text : jsstring) toks v :
  lex_run LStart text = Some (LStart, toks) ->
  parse_tokens (PValue []) toks = Some v ->
  parse text = Ret v.
Proof.
  intros Hl Hp. unfold parse. rewrite <- (app_nil_r text).
  rewrite (lex_app _ _ _ _ _ Hl). cbn. rewrite app_nil_r. now rewrite Hp.
Qed.

(** *** Well-formed texts *)

Lemma well_formed_plain (t : jsstring) :
  Forall (fun c => c < 0xD800) t -> Text.well_formed t = true.
Proof.
  induction 1 as [|c t Hc _ IH]; [reflexivity|]. cbn [Text.well_formed].
  unfold Text.is_lead, Text.is_trail, Text.between.
  rewrite (proj2 (N.leb_gt 0xD800 c)) by assumption.
  rewrite (proj2 (N.leb_gt 0xDC00 c)) by lia.
  rewrite (proj2 (N.ltb_lt c 0x10000)) by lia. now rewrite IH.
Qed.

Lemma well_formed_app (a b : jsstring) :
  Text.well_formed a = true -> Text.well_formed b = true ->
  Text.well_formed (a ++ b) = true.
Proof.
  remember (length a) as n eqn:Hn. revert a Hn.
  induction n as [n IH] using lt_wf_ind. intros [|u rest] Hn Ha Hb; [assumption|].
  cbn [app Text.well_formed] in *. destruct (Text.is_lead u).
  - destruct rest as [|v rest']; [discriminate|]. cbn [app].
    apply andb_true_iff in Ha as [Hv Hrest]. rewrite Hv. cbn [andb].
    apply (IH (length rest')); [subst n; cbn; lia|reflexivity|assumption..].
  - apply andb_true_iff in Ha as [Hu Hrest]. rewrite Hu. cbn [andb].
    apply (IH (length rest)); [subst n; cbn; lia|reflexivity|assumption..].
Qed.

Lemma well_formed_concat (ts : list jsstring) :
  Forall (fun t => Text.well_formed t = true) ts -> Text.well_formed (concat ts) = true.
Proof.
  induction 1 as [|t ts Ht _ IH]; [reflexivity|]. cbn [concat].
  now apply well_formed_app.
Qed.

Lemma hex_char_plain (n : N) : n < 16 -> hex_char n < 0xD800.
Proof. intros H. unfold hex_char. destruct (N.ltb_spec n 10); lia. Qed.

Lemma unicode_escape_well_formed (u : N) : Text.well_formed (unicode_escape u) = true.
Proof.
  apply well_formed_plain. unfold unicode_escape.
  repeat (apply Forall_cons; split);
    [reflexivity|reflexivity|apply hex_char_plain, N.mod_upper_bound; lia..|constructor].
Qed.

Lemma quote_unit_well_formed (u : N) :
  u < 0x10000 -> Text.is_lead u = false -> Text.is_trail u = false ->
  Text.well_formed (quote_unit u) = true.
Proof.
  intros Hu Hl Ht. unfold quote_unit.
  destruct (u =? 0x08); [reflexivity|]. destruct (u =? 0x09); [reflexivity|].
  destruct (u =? 0x0A); [reflexivity|]. destruct (u =? 0x0C); [reflexivity|].
  destruct (u =? 0x0D); [reflexivity|]. destruct (u =? 0x22); [reflexivity|].
  destruct (u =? 0x5C); [reflexivity|].
  destruct (u <? 0x20); [apply unicode_escape_well_formed|].
  cbn [Text.well_formed]. rewrite Hl, Ht.
  now rewrite (proj2 (N.ltb_lt u 0x10000)) by assumption.
Qed.

(** What [JSON.stringify] writes for a string is well-formed, whatever
    the string: it escapes the surrogates that have no partner. *)
Lemma quote_units_well_formed (s : jsstring) :
  Forall (fun u => u < 0x10000) s -> Text.well_formed (quote_units s) = true.
Proof.
  remember (length s) as n eqn:Hn. revert s Hn.
  induction n as [n IH] using lt_wf_ind. intros [|u rest] Hn Hs; [reflexivity|].
  apply Forall_cons in Hs as [Hu Hrest].
  assert (Text.well_formed (quote_units rest) = true) as IHrest
    by (apply (IH (length rest)); [subst n; cbn; lia|reflexivity|assumption]).
  cbn [quote_units]. destruct (Text.is_lead u) eqn:Hlead.
  - destruct rest as [|v rest']; [apply unicode_escape_well_formed|].
    destruct (Text.is_trail v) eqn:Htrail.
    + cbn [Text.well_formed]. rewrite Hlead, Htrail. cbn [andb].
      apply Forall_cons in Hrest as [_ Hrest'].
      apply (IH (length rest')); [subst n; cbn; lia|reflexivity|assumption].
    + apply well_formed_app; [apply unicode_escape_well_formed|assumption].
  - destruct (Text.is_trail u) eqn:Htrail.
    + apply well_formed_app; [apply unicode_escape_well_formed|assumption].
    + apply well_formed_app; [now apply quote_unit_well_formed|assumption].
Qed.

Lemma quote_well_formed (s : jsstring) :
  Forall (fun u => u < 0x10000) s -> Text.well_formed (quote s) = true.
Proof.
  intros Hs. unfold quote. apply well_formed_app; [reflexivity|].
  apply well_formed_app; [now apply quote_units_well_formed|reflexivity].
Qed.

Lemma number_well_formed (n : N) : Text.well_formed (number n) = true.
Proof.
  apply well_formed_plain. unfold number.
  assert (forall d, Forall (fun c => c < 0xD800) (str (NilEmpty.string_of_uint d))) as H.
  { induction d; cbn [NilEmpty.string_of_uint]; [constructor|..];
      rewrite str_cons; (constructor; [reflexivity|assumption]). }
  destruct (N.to_uint n); try apply H. repeat constructor.
Qed.


(** *** The payload of a [WSClose] frame *)

(** The JSON text of a close payload, in its pieces. *)
Lemma stringify_close_pieces (p : S2CWSClosePayload) :
  stringify_close p =
  concat [[0x7B]; quote (str "code"); [0x3A]; number (code p) ++ [0x2C];
          quote (str "reason"); [0x3A]; quote (reason p); [0x2C];
          quote (str "wasClean"); [0x3A]; boolean (wasClean p); [0x7D]].
Proof.
  unfold stringify_close, object.
  change (omap _ _)
    with [quote (str "code") ++ [0x3A] ++ number (code p);
          quote (str "reason") ++ [0x3A] ++ quote (reason p);
          quote (str "wasClean") ++ [0x3A] ++ boolean (wasClean p)].
  cbn [commas concat]. now rewrite <- !app_assoc, app_nil_r.
Qed.

Lemma parse_stringify_close (p : S2CWSClosePayload) :
  Forall (fun u => u < 0x10000) (reason p) ->
  parse (stringify_close p) =
  Ret (Object
         [(str "code", Number {| negative := false; digits := code p; exponent := 0 |});
          (str "reason", String (reason p));
          (str "wasClean", Bool (wasClean p))]).
Proof.
  intros Hr. rewrite stringify_close_pieces.
  apply parse_of_tokens
    with (toks := [TLBrace; TString (str "code"); TColon;
                   TNumber {| negative := false; digits := code p; exponent := 0 |};
                   TComma; TString (str "reason"); TColon; TString (reason p); TComma;
                   TString (str "wasClean"); TColon; TLiteral (Bool (wasClean p));
                   TRBrace]); [|reflexivity].
  apply (lex_run_concat
           [([0x7B], [TLBrace]); (quote (str "code"), [TString (str "code")]);
            ([0x3A], [TColon]);
            (number (code p) ++ [0x2C],
             [TNumber {| negative := false; digits := code p; exponent := 0 |}; TComma]);
            (quote (str "reason"), [TString (str "reason")]); ([0x3A], [TColon]);
            (quote (reason p), [TString (reason p)]); ([0x2C], [TComma]);
            (quote (str "wasClean"), [TString (str "wasClean")]); ([0x3A], [TColon]);
            (boolean (wasClean p), [TLiteral (Bool (wasClean p))]);
            ([0x7D], [TRBrace])]).
  repeat (apply Forall_cons; split); try reflexivity; cbn [fst snd].
  - now apply lex_run_number.
  - now apply lex_run_quote.
  - now destruct (wasClean p).
  - constructor.
Qed.

Lemma stringify_close_well_formed (p : S2CWSClosePayload) :
  Forall (fun u => u < 0x10000) (reason p) ->
  Text.well_formed (stringify_close p) = true.
Proof.
  intros Hr. rewrite stringify_close_pieces. apply well_formed_concat.
  repeat (apply Forall_cons; split); try reflexivity.
  - apply well_formed_app; [apply number_well_formed|reflexivity].
  - now apply quote_well_formed.
  - now destruct (wasClean p).
  - constructor.
Qed.


(** *** Reading and parsing piece by piece *)

Lemma parse_run_app (st st1 : ParseState) (a b : list Token) :
  parse_run st a = Some st1 -> parse_run st (a ++ b) = parse_run st1 b.
Proof.
  revert st. induction a as [|t a IH]; intros st; cbn [parse_run app].
  - now intros [= <-].
  - destruct (parse_token st t) as [st'|]; [apply IH|discriminate].
Qed.

Lemma parse_run_tokens (st : ParseState) (ts : list Token) v :
  parse_run st ts = Some (PDone v) -> parse_tokens st ts = Some v.
Proof.
  revert st. induction ts as [|t ts IH]; intros st; cbn [parse_run parse_tokens].
  - now intros [= ->].
  - destruct (parse_token st t) as [st'|]; [apply IH|discriminate].
Qed.

Lemma reads_nil (st : ParseState) : reads st [] st.
Proof. exists []. split; reflexivity. Qed.

Lemma reads_app (st1 st2 st3 : ParseState) (a b : jsstring) :
  reads st1 a st2 -> reads st2 b st3 -> reads st1 (a ++ b) st3.
Proof.
  intros (ta & La & Pa) (tb & Lb & Pb). exists (ta ++ tb). split.
  - now apply lex_run_app with (st1 := LStart).
  - now rewrite (parse_run_app _ _ _ _ Pa).
Qed.

Lemma reads_parse (text : jsstring) v :
  reads (PValue []) text (PDone v) -> parse text = Ret v.
Proof.
  intros (toks & Hl & Hp). apply parse_of_tokens with (toks := toks); [assumption|].
  now apply parse_run_tokens.
Qed.

(** One token. *)
Lemma reads_token (st st' : ParseState) (text : jsstring) (t : Token) :
  lex_run LStart text = Some (LStart, [t]) -> parse_token st t = Some st' ->
  reads st text st'.
Proof. intros Hl Hp. exists [t]. split; [assumption|]. cbn. now rewrite Hp. Qed.

Lemma reads_quote (st st' : ParseState) (s : jsstring) :
  Forall (fun u => u < 0x10000) s -> parse_token st (TString s) = Some st' ->
  reads st (quote s) st'.
Proof. intros Hs. now apply reads_token, lex_run_quote. Qed.

(** A number and the comma after it. *)
Lemma reads_number_comma (st st1 st2 : ParseState) (n : N) :
  parse_token st (TNumber {| negative := false; digits := n; exponent := 0 |}) = Some st1 ->
  parse_token st1 TComma = Some st2 ->
  reads st (number n ++ [0x2C]) st2.
Proof.
  intros H1 H2. eexists. split; [now apply lex_run_number|].
  cbn [parse_run]. now rewrite H1, H2.
Qed.

(** *** Lists *)

Lemma commas_cons (x : jsstring) (rest : list jsstring) :
  commas (x :: rest) = x ++ concat (map (fun y => 0x2C :: y) rest).
Proof.
  revert x. induction rest as [|y rest IH]; intros x.
  - cbn. now rewrite app_nil_r.
  - change (commas (x :: y :: rest)) with (x ++ [0x2C] ++ commas (y :: rest)).
    now rewrite IH.
Qed.

(** The elements of an array of strings after the first. *)
Lemma reads_elements (vs : list jsstring) (elements : list Value) stack :
  Forall (Forall (fun u => u < 0x10000)) vs ->
  reads (PArrayNext elements stack)
    (concat (map (fun y => 0x2C :: y) (map quote vs)) ++ [0x5D])
    (deliver (Array (rev elements ++ map String vs)) stack).
Proof.
  intros Hvs. revert elements.
  induction Hvs as [|v vs Hv _ IH]; intros elements; cbn [map concat app].
  - rewrite app_nil_r. now apply (reads_token _ _ _ TRBracket).
  - apply (reads_app _ (PValue (InArray elements :: stack)) _ [0x2C]);
      [now apply (reads_token _ _ _ TComma)|].
    rewrite <- app_assoc.
    apply reads_app with (st2 := PArrayNext (String v :: elements) stack);
      [now apply reads_quote|].
    specialize (IH (String v :: elements)). cbn [rev] in IH.
    now rewrite <- app_assoc in IH.
Qed.

(** An array of strings where a value is expected. *)
Lemma reads_array (vs : list jsstring) stack :
  Forall (Forall (fun u => u < 0x10000)) vs ->
  reads (PValue stack) (array (map quote vs)) (deliver (Array (map String vs)) stack).
Proof.
  intros Hvs. unfold array.
  apply reads_app with (st2 := PArrayStart stack);
    [now apply (reads_token _ _ _ TLBracket)|].
  destruct Hvs as [|v vs Hv Hvs]; [now apply (reads_token _ _ _ TRBracket)|].
  cbn [map]. rewrite commas_cons, <- app_assoc.
  apply reads_app with (st2 := PArrayNext [String v] stack); [now apply reads_quote|].
  now apply (reads_elements vs [String v]).
Qed.

(** A member of an object of arrays of strings, after its key. *)
Lemma reads_member (k : jsstring) (vs : list jsstring) members stack :
  Forall (Forall (fun u => u < 0x10000)) vs ->
  reads (PObjectColon members k stack) ([0x3A] ++ array (map quote vs))
    (PObjectNext ((k, Array (map String vs)) :: members) stack).
Proof.
  intros Hvs.
  apply reads_app with (st2 := PValue (InObject members k :: stack));
    [now apply (reads_token _ _ _ TColon)|].
  now apply (reads_array vs (InObject members k :: stack)).
Qed.

(** The texts of the members of an object of arrays of strings. *)
Lemma header_members (hs : list (jsstring * list jsstring)) :
  omap (fun '(k, v) => (fun t => quote k ++ [0x3A] ++ t) <$> v)
       (map (fun '(k, vs) => (k, Some (array (map quote vs)))) hs)
  = map (fun m => quote (fst m) ++ [0x3A] ++ array (map quote (snd m))) hs.
Proof.
  induction hs as [|[k vs] hs IH]; [reflexivity|].
  cbn [map]. rewrite <- IH. reflexivity.
Qed.

(** The members of an object of arrays of strings after the first. *)
Lemma reads_members (hs : list (jsstring * list jsstring)) members stack :
  header_units hs ->
  reads (PObjectNext members stack)
    (concat (map (fun y => 0x2C :: y)
               (map (fun m => quote (fst m) ++ [0x3A] ++ array (map quote (snd m))) hs))
     ++ [0x7D])
    (deliver
       (Object (rev members
                ++ map (fun m => (fst m, Array (map String (snd m)))) hs))
       stack).
Proof.
  intros Hhs. revert members.
  induction Hhs as [|[k vs] hs [Hk Hvs] _ IH]; intros members; cbn [map concat app fst snd] in *.
  - rewrite app_nil_r. now apply (reads_token _ _ _ TRBrace).
  - apply (reads_app _ (PObjectKey members stack) _ [0x2C]);
      [now apply (reads_token _ _ _ TComma)|].
    rewrite <- (app_assoc (quote k ++ [0x3A] ++ array (map quote vs)) _ [0x7D]).
    set (R := concat _ ++ [0x7D]).
    rewrite <- (app_assoc (quote k) ([0x3A] ++ array (map quote vs)) R).
    apply (reads_app _ (PObjectColon members k stack) _ (quote k));
      [now apply reads_quote|].
    apply (reads_app _ (PObjectNext ((k, Array (map String vs)) :: members) stack) _
             ([0x3A] ++ array (map quote vs)));
      [now apply reads_member|].
    specialize (IH ((k, Array (map String vs)) :: members)). cbn [rev] in IH.
    now rewrite <- app_assoc in IH.
Qed.

(** The JSON text of headers where a value is expected. *)
Lemma reads_headers (hs : list (jsstring * list jsstring)) stack :
  header_units hs ->
  reads (PValue stack)
    (object (map (fun '(k, vs) => (k, Some (array (map quote vs)))) hs))
    (deliver (parsed_headers hs) stack).
Proof.
  intros Hhs. unfold object, parsed_headers. rewrite header_members.
  apply reads_app with (st2 := PObjectStart stack);
    [now apply (reads_token _ _ _ TLBrace)|].
  destruct Hhs as [|[k vs] hs [Hk Hvs] Hhs]; [now apply (reads_token _ _ _ TRBrace)|].
  cbn [map fst snd] in *. rewrite commas_cons.
  rewrite <- (app_assoc (quote k ++ [0x3A] ++ array (map quote vs)) _ [0x7D]).
  set (R := concat _ ++ [0x7D]).
  rewrite <- (app_assoc (quote k) ([0x3A] ++ array (map quote vs)) R).
  apply (reads_app _ (PObjectColon [] k stack) _ (quote k)); [now apply reads_quote|].
  apply (reads_app _ (PObjectNext [(k, Array (map String vs))] stack) _
           ([0x3A] ++ array (map quote vs)));
    [now apply reads_member|].
  now apply (reads_members hs [(k, Array (map String vs))]).
Qed.

(** *** The payload of an [HTTPResponseStart] frame *)

Lemma parse_stringify_payload (p : HTTPResponsePayload) :
  Text.units (statusText p) -> header_units (headers p) ->
  parse (stringify_payload p) =
  Ret (Object
         [(str "status",
           Number {| negative := false; digits := status p; exponent := 0 |});
          (str "statusText", String (statusText p));
          (str "headers", parsed_headers (headers p))]).
Proof.
  intros Ht Hh. apply reads_parse. unfold stringify_payload.
  set (H := object (map _ (headers p))). unfold object.
  change (omap _ _)
    with [quote (str "status") ++ [0x3A] ++ number (status p);
          quote (str "statusText") ++ [0x3A] ++ quote (statusText p);
          quote (str "headers") ++ [0x3A] ++ H].
  replace ([0x7B] ++ commas _ ++ [0x7D])
    with ([0x7B] ++ quote (str "status") ++ [0x3A] ++ (number (status p) ++ [0x2C])
          ++ quote (str "statusText") ++ [0x3A] ++ quote (statusText p) ++ [0x2C]
          ++ quote (str "headers") ++ [0x3A] ++ H ++ [0x7D])
    by (cbn [commas]; now rewrite <- !app_assoc).
  set (m1 := (str "status",
              Number {| negative := false; digits := status p; exponent := 0 |})).
  set (m2 := (str "statusText", String (statusText p))).
  apply (reads_app _ (PObjectStart []) _ [0x7B]);
    [now apply (reads_token _ _ _ TLBrace)|].
  apply (reads_app _ (PObjectColon [] (str "status") []) _ (quote (str "status")));
    [apply reads_quote; [repeat constructor|reflexivity]|].
  apply (reads_app _ (PValue [InObject [] (str "status")]) _ [0x3A]);
    [now apply (reads_token _ _ _ TColon)|].
  apply (reads_app _ (PObjectKey [m1] []) _ (number (status p) ++ [0x2C]));
    [now apply (reads_number_comma _ (PObjectNext [m1] []))|].
  apply (reads_app _ (PObjectColon [m1] (str "statusText") []) _
           (quote (str "statusText")));
    [apply reads_quote; [repeat constructor|reflexivity]|].
  apply (reads_app _ (PValue [InObject [m1] (str "statusText")]) _ [0x3A]);
    [now apply (reads_token _ _ _ TColon)|].
  apply (reads_app _ (PObjectNext [m2; m1] []) _ (quote (statusText p)));
    [now apply reads_quote|].
  apply (reads_app _ (PObjectKey [m2; m1] []) _ [0x2C]);
    [now apply (reads_token _ _ _ TComma)|].
  apply (reads_app _ (PObjectColon [m2; m1] (str "headers") []) _
           (quote (str "headers")));
    [apply reads_quote; [repeat constructor|reflexivity]|].
  apply (reads_app _ (PValue [InObject [m2; m1] (str "headers")]) _ [0x3A]);
    [now apply (reads_token _ _ _ TColon)|].
  apply (reads_app _ (PObjectNext [(str "headers", parsed_headers (headers p)); m2; m1] [])
           _ H);
    [now apply (reads_headers (headers p) [InObject [m2; m1] (str "headers")])|].
  now apply (reads_token _ _ _ TRBrace).
Qed.

Lemma well_formed_commas (items : list jsstring) :
  Forall (fun t => Text.well_formed t = true) items ->
  Text.well_formed (commas items) = true.
Proof.
  intros [|x rest Hx Hrest]; [reflexivity|]. rewrite commas_cons.
  apply well_formed_app; [assumption|]. apply well_formed_concat.
  apply Forall_map. eapply Forall_impl; [exact Hrest|]. intros y Hy. exact Hy.
Qed.

Lemma array_well_formed (vs : list jsstring) :
  Forall Text.units vs -> Text.well_formed (array (map quote vs)) = true.
Proof.
  intros Hvs. unfold array. apply well_formed_app; [reflexivity|].
  apply well_formed_app; [|reflexivity]. apply well_formed_commas.
  apply Forall_map. eapply Forall_impl; [exact Hvs|]. intros v Hv.
  now apply quote_well_formed.
Qed.

Lemma headers_well_formed (hs : list (jsstring * list jsstring)) :
  header_units hs ->
  Text.well_formed (object (map (fun '(k, vs) => (k, Some (array (map quote vs)))) hs))
  = true.
Proof.
  intros Hhs. unfold object. rewrite header_members.
  apply well_formed_app; [reflexivity|].
  apply well_formed_app; [|reflexivity]. apply well_formed_commas.
  apply Forall_map. eapply Forall_impl; [exact Hhs|]. intros [k vs] [Hk Hvs].
  cbn [fst snd] in *. apply well_formed_app; [now apply quote_well_formed|].
  apply well_formed_app; [reflexivity|]. now apply array_well_formed.
Qed.

Lemma stringify_payload_well_formed (p : HTTPResponsePayload) :
  Text.units (statusText p) -> header_units (headers p) ->
  Text.well_formed (stringify_payload p) = true.
Proof.
  intros Ht Hh. unfold stringify_payload.
  pose proof (headers_well_formed (headers p) Hh) as HH. revert HH.
  generalize (object (map (fun '(k, vs) => (k, Some (array (map quote vs)))) (headers p))).
  intros H HH. unfold object.
  change (omap _ _)
    with [quote (str "status") ++ [0x3A] ++ number (status p);
          quote (str "statusText") ++ [0x3A] ++ quote (statusText p);
          quote (str "headers") ++ [0x3A] ++ H].
  apply well_formed_app; [reflexivity|].
  apply well_formed_app; [|reflexivity]. apply well_formed_commas.
  repeat (apply Forall_cons; split); [| | |constructor].
  - apply well_formed_app; [reflexivity|].
    apply well_formed_app; [reflexivity|apply number_well_formed].
  - apply well_formed_app; [reflexivity|].
    apply well_formed_app; [reflexivity|now apply quote_well_formed].
  - apply well_formed_app; [reflexivity|]. now apply well_formed_app.
Qed.

(** What the peer reads in a payload that is the encoding of a JSON text
    of an object. *)
Lemma tryParseJSONPayload_encode (text : jsstring) v :
  Text.well_formed text = true ->
  (exists rest, text = 0x7B :: rest) ->
  parse text = Ret v ->
  tryParseJSONPayload (Text.encode text) = Ret (Some v).
Proof.
  intros Hwf [rest ->] Hp. unfold tryParseJSONPayload.
  rewrite decode_encode by assumption. cbv beta iota. now rewrite Hp.
Qed.

(** X24. The payload of a [WSClose] frame is read back by the decoder of
    the protocol. When a socket with its [onclose] handler on a sequence
    id closes, the handler writes one frame, and [tryParseJSONPayload] on
    the bytes after the header gives the object with the members [code],
    [reason] and [wasClean] of the event, in this order and with their
    values, whatever code units the reason is made of: a surrogate
    without its partner goes through as an escape. *)
Theorem close_event_payload_parses (ws : nat) (w : WebSocket) (sq : N)
    (e : CloseEvent) (s : Server) :
  heap s !! ws = Some w ->
  onclose w = Some sq ->
  ev_code e < 10 ^ 21 ->
  Text.units (ev_reason e) ->
  exists buf,
    ws_onclose s2c ws e s = (Ret tt, set_sent (fun l => l ++ [buf]) s) /\
    tryParseJSONPayload (Buf.slice buf 3) =
    Ret (Some (Object
      [(str "code",
        Number {| negative := false; digits := ev_code e; exponent := 0 |});
       (str "reason", String (ev_reason e));
       (str "wasClean", Bool (ev_wasClean e))])).
Proof.
  intros Hw Hc _ Hr. eexists. split.
  - unfold ws_onclose, handler, mbind, read. rewrite Hw.
    change (Some w ≫= onclose) with (onclose w). rewrite Hc.
    unfold sendWSClose. apply _sendJSONRes_frame.
  - change (Buf.slice (frame ?a ?b ?c) 3) with c.
    set (p := {| code := ev_code e; reason := ev_reason e; wasClean := ev_wasClean e |}).
    apply tryParseJSONPayload_encode.
    + now apply stringify_close_well_formed.
    + rewrite stringify_close_pieces. eexists. reflexivity.
    + now apply (parse_stringify_close p).
Qed.

(** X25. The payload of an [HTTPResponseStart] frame is read back by
    the decoder of the protocol: [tryParseJSONPayload] on the bytes after
    the header of the frame that [sendHTTPResponseStart] writes gives the
    object with the members [status], [statusText] and [headers], where
    the headers are an object with, for each header in its order, the
    array of its values, whatever code units the strings are made of. *)
Theorem start_payload_parses (sq : N) (p : HTTPResponsePayload) :
  status p < 10 ^ 21 ->
  Text.units (statusText p) ->
  header_units (headers p) ->
  exists buf,
    writes (sendHTTPResponseStart s2c sq p) buf /\
    tryParseJSONPayload (Buf.slice buf 3) =
    Ret (Some (Object
      [(str "status",
        Number {| negative := false; digits := status p; exponent := 0 |});
       (str "statusText", String (statusText p));
       (str "headers", parsed_headers (headers p))])).
Proof.
  intros _ Ht Hh. eexists. split.
  - unfold sendHTTPResponseStart. apply _sendJSONRes_frame.
  - change (Buf.slice (frame ?a ?b ?c) 3) with c.
    apply tryParseJSONPayload_encode.
    + now apply stringify_payload_well_formed.
    + unfold stringify_payload, object. eexists. reflexivity.
    + now apply parse_stringify_payload.
Qed.

End JsonTexts.

(** ** The further properties on the worked examples *)

Section FurtherExamples.
Import Js Relay.

(** The state after [open_example]: the socket 0 is registered under 7. *)
#[local] Abbreviation one_socket :=
  (Sample.step initial (Message Sample.env Sample.open_example)).

(** X1, on the [WSOpen] frame of the second scenario. *)
Lemma header_reencodes_witness :
  exists i,
    parseMsgInit Sample.open_example = Ret (Some i) /\
    frame (seq i) (op i) (Buf.slice Sample.open_example (cursor i))
    = Sample.open_example /\
    (op i = S2C.HTTPResponseChunk Sample.s2c ->
     writes (sendHTTPResponseChunk Sample.s2c (seq i)
               (Buf.slice Sample.open_example (cursor i))) Sample.open_example) /\
    (op i = S2C.WSDataText Sample.s2c ->
     writes (sendWSText Sample.s2c (seq i)
               (Buf.slice Sample.open_example (cursor i))) Sample.open_example) /\
    (op i = S2C.WSDataBinary Sample.s2c ->
     writes (sendWSBinary Sample.s2c (seq i)
               (Buf.slice Sample.open_example (cursor i))) Sample.open_example).
Proof. apply (header_reencodes Sample.s2c Sample.open_example). cbn. lia. Defined.

(** X2, on a frame with the operation code 9. *)
Lemma unknown_op_ignored_witness :
  Sample.onMsg Sample.env (Sample.request 7 9 "hi") one_socket = (Ret tt, one_socket).
Proof.
  apply (unknown_op_ignored Sample.c2s Sample.s2c Sample.platform Sample.env
           (Sample.request 7 9 "hi") {| cursor := 3; seq := 7; op := 9 |}).
  - vm_compute. reflexivity.
  - apply (bool_decide_unpack _). vm_compute. exact I.
Defined.

(** X3, on an [HTTPRequest] frame with the payload [0]. *)
Lemma unusable_request_dropped_witness :
  Sample.onMsg Sample.env (Sample.request 1 (C2S.HTTPRequest Sample.c2s) "0") initial
  = (Ret tt, initial).
Proof.
  apply (unusable_request_dropped Sample.c2s Sample.s2c Sample.platform Sample.env
           (Sample.request 1 (C2S.HTTPRequest Sample.c2s) "0")
           {| cursor := 3; seq := 1; op := 0 |}
           (Some (Json.Number {| Json.negative := false; Json.digits := 0;
                                 Json.exponent := 0 |})));
    vm_compute; reflexivity.
Defined.

(** X4, on the [WSOpen] frame of the second scenario. *)
Lemma socket_frames_are_silent_witness :
  sent one_socket = sent initial /\ listeners one_socket = listeners initial /\
  aborted one_socket = aborted initial /\ controllers one_socket = controllers initial.
Proof.
  apply (socket_frames_are_silent Sample.c2s Sample.s2c Sample.platform Sample.env
           Sample.open_example {| cursor := 3; seq := 7; op := 1 |} initial).
  - vm_compute. reflexivity.
  - vm_compute. discriminate.
Defined.

(** X5, on the request of the first scenario, with a socket registered. *)
Lemma sockets_untouched_witness :
  sockets (Sample.step one_socket (Message Sample.env Sample.get_example))
  = sockets one_socket /\
  heap (Sample.step one_socket (Message Sample.env Sample.get_example))
  = heap one_socket.
Proof.
  apply (sockets_untouched Sample.c2s Sample.s2c Sample.platform
           (Message Sample.env Sample.get_example) one_socket).
  intros env msg i [= <- <-] H. vm_compute in H. injection H as <-. reflexivity.
Defined.

(** X6, on a [WSSendBinary] frame for the socket of the second scenario. *)
Lemma data_forwarded_witness :
  let s' := Sample.step one_socket (Message Sample.env Sample.binary_example) in
  fst (Sample.onMsg Sample.env Sample.binary_example one_socket) = Ret tt /\
  heap s' !! 0%nat
  = Some (push_outbox (SendBinary (bytes "hi")) Sample.example_socket) /\
  (forall ws', ws' <> 0%nat -> heap s' !! ws' = heap one_socket !! ws') /\
  sockets s' = sockets one_socket /\ sent s' = sent one_socket.
Proof.
  apply (data_forwarded Sample.c2s Sample.s2c Sample.platform Sample.env
           Sample.binary_example {| cursor := 3; seq := 7; op := 3 |} 0%nat
           Sample.example_socket (SendBinary (bytes "hi")) one_socket).
  - exact sample_codes_distinct.
  - vm_compute. reflexivity.
  - vm_compute. reflexivity.
  - vm_compute. reflexivity.
  - reflexivity.
  - right. split; reflexivity.
Defined.

(** X7, on a [WSClose] frame for the socket of the second scenario. *)
Lemma close_forwarded_witness :
  let s' := Sample.step one_socket (Message Sample.env Sample.close_example) in
  fst (Sample.onMsg Sample.env Sample.close_example one_socket) = Ret tt /\
  (exists w', heap s' !! 0%nat = Some w' /\
     closes w' = S (closes Sample.example_socket) /\
     outbox w' = outbox Sample.example_socket /\
     onopen w' = onopen Sample.example_socket /\
     onclose w' = onclose Sample.example_socket /\
     onmessage w' = onmessage Sample.example_socket) /\
  (forall ws', ws' <> 0%nat -> heap s' !! ws' = heap one_socket !! ws') /\
  sockets s' !! 7 = Some 0%nat /\ sent s' = sent one_socket.
Proof.
  apply (close_forwarded Sample.c2s Sample.s2c Sample.platform Sample.env
           Sample.close_example {| cursor := 3; seq := 7; op := 4 |} 0%nat
           Sample.example_socket one_socket).
  - exact sample_codes_distinct.
  - vm_compute. reflexivity.
  - reflexivity.
  - vm_compute. reflexivity.
  - vm_compute. reflexivity.
  - reflexivity.
Defined.

(** X8, on a [WSSendBinary] frame for a socket that is not open. *)
Lemma socket_call_failure_rejects_witness :
  Sample.onMsg Sample.refusing Sample.binary_example one_socket
  = (Throw (Error (OtherError (str "Error")) (str "WebSocket is not open") None),
     one_socket).
Proof.
  apply (socket_call_failure_rejects Sample.c2s Sample.s2c Sample.platform
           Sample.refusing Sample.binary_example
           {| cursor := 3; seq := 7; op := 3 |} 0%nat).
  - exact sample_codes_distinct.
  - vm_compute. reflexivity.
  - vm_compute. reflexivity.
  - left. split; [right; reflexivity|reflexivity].
Defined.

(** X9, on the request of the first scenario when the fetch fails with a
    [TypeError]. *)
Lemma failure_answer_witness :
  let env := Sample.failing (Error TypeError (str "fetch failed") None) in
  let status := fst (to_BareError Sample.platform
                       (Error TypeError (str "fetch failed") None)) in
  fst (Sample.onMsg env Sample.get_example initial) = Ret tt /\
  sent (Sample.step initial (Message env Sample.get_example)) =
    sent initial ++
    [frame 1 (S2C.HTTPResponseStart Sample.s2c)
       (Text.encode (stringify_payload
          {| Relay.status := status;
             statusText := default [] (STATUS_CODES Sample.platform status);
             headers := [] |}));
     frame 1 (S2C.HTTPResponseChunk Sample.s2c) [];
     frame 1 (S2C.HTTPResponseEnd Sample.s2c) []] /\
  (status = 500 \/
   exists b, Error TypeError (str "fetch failed") None = BareError status b).
Proof.
  apply (failure_answer Sample.c2s Sample.s2c Sample.platform
           (Sample.failing (Error TypeError (str "fetch failed") None))
           Sample.get_example {| cursor := 3; seq := 1; op := 0 |}
           Sample.get_payload (Error TypeError (str "fetch failed") None) initial);
    vm_compute; reflexivity.
Defined.

(** X10, on the first scenario. *)
Lemma resolved_answer_witness :
  exists p,
    Sample.onMsg Sample.env Sample.get_example initial =
      (Ret tt,
       set_sent (fun l => l ++ exchange_frames Sample.s2c 1 p (chunks Sample.ok_response))
         (set_controllers S initial)) /\
    status p <> 0 /\
    (forall n, statusCode Sample.ok_response = Some n -> n <> 0 -> status p = n) /\
    (statusCode Sample.ok_response = None \/ statusCode Sample.ok_response = Some 0 ->
     status p = 500) /\
    statusText p = default [] (statusMessage Sample.ok_response) /\
    (forall k vs, (k, vs) ∈ headers p <-> (k, Some vs) ∈ headersDistinct Sample.ok_response).
Proof.
  apply (resolved_answer Sample.c2s Sample.s2c Sample.platform Sample.env
           Sample.get_example {| cursor := 3; seq := 1; op := 0 |}
           Sample.get_payload Sample.ok_response initial);
    vm_compute; reflexivity.
Defined.

(** The state after the third scenario: the hook of the exchange is still
    registered. *)
#[local] Abbreviation one_hook :=
  (Sample.step initial (Message (Sample.failing Sample.forbidden) Sample.get_example)).

(** X11, on the close of the channel after the third scenario. *)
Lemma onClose_aborts_all_witness :
  onClose one_hook =
    (Ret tt,
     set_listeners (fun _ => []) (set_aborted (fun a => a ++ listeners one_hook) one_hook)) /\
  onClose (snd (onClose one_hook)) = (Ret tt, snd (onClose one_hook)).
Proof. apply (onClose_aborts_all one_hook). Defined.

(** X12, on the third scenario and then the close of the channel. *)
Lemma close_after_exchange_witness :
  let env := Sample.failing Sample.forbidden in
  let s' := Sample.run initial [Message env Sample.get_example; ChannelClose] in
  listeners s' = [] /\
  aborted s' =
    aborted initial ++ listeners initial ++
    match fetch env Sample.get_payload with
    | Throw (BareError _ _) => [controllers initial]
    | _ => []
    end.
Proof.
  apply (close_after_exchange Sample.c2s Sample.s2c Sample.platform
           (Sample.failing Sample.forbidden) Sample.get_example
           {| cursor := 3; seq := 1; op := 0 |} Sample.get_payload initial);
    vm_compute; reflexivity.
Defined.

(** X13, on the same events. *)
Lemma controllers_stay_fresh_witness :
  let s := Sample.run initial
             [Message (Sample.failing Sample.forbidden) Sample.get_example;
              ChannelClose] in
  NoDup (aborted s) /\ NoDup (listeners s) /\
  (forall c, c ∈ listeners s -> c ∉ aborted s) /\
  (forall c, c ∈ listeners s \/ c ∈ aborted s -> (c < controllers s)%nat).
Proof.
  apply (controllers_stay_fresh Sample.c2s Sample.s2c Sample.platform
           [Message (Sample.failing Sample.forbidden) Sample.get_example;
            ChannelClose]).
Defined.

(** X14, on the socket of the second scenario. *)
Lemma socket_events_relay_witness :
  binaryType Sample.example_socket = Some (str "arraybuffer") /\
  exists sq,
    sq < 65536 /\ bound_to sq Sample.example_socket /\
    relays Sample.s2c 0 sq (Sample.run initial [Message Sample.env Sample.open_example]) /\
    ws_onmessage Sample.s2c 0 EventOther
      (Sample.run initial [Message Sample.env Sample.open_example]) =
    (Throw (Error (OtherError (str "Error"))
              (str "Unexpected message type received") None),
     Sample.run initial [Message Sample.env Sample.open_example]) /\
    ws_onmessage Sample.s2c 0 Nullish
      (Sample.run initial [Message Sample.env Sample.open_example]) =
    (Throw (Error TypeError (str "Cannot read properties of undefined") None),
     Sample.run initial [Message Sample.env Sample.open_example]).
Proof.
  apply (socket_events_relay Sample.c2s Sample.s2c Sample.platform
           [Message Sample.env Sample.open_example] 0%nat Sample.example_socket).
  vm_compute. reflexivity.
Defined.

(** The state after two [WSOpen] frames on 7: the socket 0 has lost its
    entry to the socket 1. *)
#[local] Abbreviation two_sockets :=
  (Sample.run initial [Message Sample.env Sample.open_example;
                       Message Sample.env Sample.open_example]).

(** X15, on the socket that the second [WSOpen] frame replaced, and a
    frame to send and a frame to close on its sequence id. *)
Lemma orphan_frozen_witness :
  let later := [Message Sample.env Sample.binary_example;
                Message Sample.env Sample.close_example] in
  heap (Sample.run two_sockets later) !! 0%nat = Some Sample.example_socket /\
  orphan (Sample.run two_sockets later) 0.
Proof.
  apply (orphan_frozen Sample.c2s Sample.s2c Sample.platform
           [Message Sample.env Sample.binary_example;
            Message Sample.env Sample.close_example]
           0%nat Sample.example_socket two_sockets).
  - vm_compute. reflexivity.
  - intros sq.
    change (sockets two_sockets)
      with (<[7 := 1%nat]> (<[7 := 0%nat]> (∅ : gmap N nat))).
    destruct (decide (sq = 7)) as [->|Hne].
    + rewrite lookup_insert_eq. discriminate.
    + rewrite !lookup_insert_ne by congruence. rewrite lookup_empty. discriminate.
Defined.

(** X16, on the same events, from the start. *)
Lemma replaced_socket_cut_off_witness :
  let s := Sample.run initial [Message Sample.env Sample.open_example] in
  let s' := Sample.run (Sample.step s (Message Sample.env Sample.open_example))
              [Message Sample.env Sample.binary_example;
               Message Sample.env Sample.close_example] in
  orphan s' 0 /\ heap s' !! 0%nat = heap s !! 0%nat /\ relays Sample.s2c 0 7 s'.
Proof.
  apply (replaced_socket_cut_off Sample.c2s Sample.s2c Sample.platform
           [Message Sample.env Sample.open_example] Sample.env
           Sample.open_example {| cursor := 3; seq := 7; op := 1 |} 0%nat
           (Some (Json.Object [(str "url", Json.String (str "ws://example.test/"))]))
           (Some (Json.String (str "ws://example.test/")))
           [Message Sample.env Sample.binary_example;
            Message Sample.env Sample.close_example]).
  - exact sample_codes_distinct.
  - vm_compute. reflexivity.
  - reflexivity.
  - vm_compute. reflexivity.
  - vm_compute. reflexivity.
  - vm_compute. reflexivity.
  - reflexivity.
Defined.

(** X17, on the first scenario followed by the second. *)
Lemma relay_writes_frames_witness :
  let s := Sample.run initial [Message Sample.env Sample.get_example] in
  exists l,
    sent (Sample.run s [Message Sample.env Sample.open_example; SocketOpen 0])
    = sent s ++ l /\
    Forall (fun buf =>
              exists sq op payload,
                sq < 65536 /\ op ∈ codes Sample.s2c /\ decodes_to buf sq op payload)
           l.
Proof.
  apply (relay_writes_frames Sample.c2s Sample.s2c Sample.platform
           [Message Sample.env Sample.get_example]
           [Message Sample.env Sample.open_example; SocketOpen 0]).
  exact sample_codes_octets.
Defined.

(** X18, on the [WSOpen] frame of the second scenario and a
    [WSSendBinary] frame after it. *)
Lemma opened_socket_is_sent_to_witness :
  let s' := Sample.run initial [Message Sample.env Sample.open_example;
                                Message Sample.env Sample.binary_example] in
  heap s' =
    heap initial ++
    [{| url := Some (Json.String (str "ws://example.test/"));
        binaryType := Some (str "arraybuffer");
        onopen := Some 7; onclose := Some 7; onmessage := Some 7;
        outbox := [SendBinary (Buf.slice Sample.binary_example 3)]; closes := 0 |}] /\
  sockets s' = <[7 := length (heap initial)]> (sockets initial) /\
  sent s' = sent initial.
Proof.
  apply (opened_socket_is_sent_to Sample.c2s Sample.s2c Sample.platform Sample.env
           Sample.open_example Sample.binary_example
           {| cursor := 3; seq := 7; op := 1 |} {| cursor := 3; seq := 7; op := 3 |}
           (Some (Json.Object [(str "url", Json.String (str "ws://example.test/"))]))
           (Some (Json.String (str "ws://example.test/"))) initial).
  - exact sample_codes_distinct.
  - vm_compute. reflexivity.
  - reflexivity.
  - vm_compute. reflexivity.
  - vm_compute. reflexivity.
  - reflexivity.
  - vm_compute. reflexivity.
  - reflexivity.
  - reflexivity.
  - reflexivity.
Defined.

(** X19, on the [WSOpen] frame of the second scenario. *)
Lemma WSOpen_all_or_nothing_witness :
  (exists e,
     Sample.onMsg Sample.env Sample.open_example initial = (Throw e, initial) /\
     (e = Error TypeError (str "Cannot read properties of undefined") None \/
      exists p u, tryParseJSONPayload (Buf.slice Sample.open_example 3) = Ret p /\
                  Json.get p (str "url") = Ret u /\
                  new_WebSocket Sample.env u = Throw e)) \/
  (exists p u,
     tryParseJSONPayload (Buf.slice Sample.open_example 3) = Ret p /\
     Json.get p (str "url") = Ret u /\ new_WebSocket Sample.env u = Ret tt /\
     Sample.onMsg Sample.env Sample.open_example initial = (Ret tt, opened initial 7 u)).
Proof.
  apply (WSOpen_all_or_nothing Sample.c2s Sample.s2c Sample.platform Sample.env
           Sample.open_example {| cursor := 3; seq := 7; op := 1 |} initial).
  - exact sample_codes_distinct.
  - vm_compute. reflexivity.
  - reflexivity.
Defined.

(** X20, on an [HTTPRequest] frame whose response body fails after its
    first chunk. *)
Lemma rejection_cases_witness :
  let msg := Sample.get_example in
  let s := initial in
  exists i,
    parseMsgInit msg = Ret (Some i) /\
    ((snd (Sample.onMsg Sample.breaking msg s) = s /\
      (op i = C2S.WSOpen Sample.c2s \/
       ((op i = C2S.WSSendText Sample.c2s \/ op i = C2S.WSSendBinary Sample.c2s
         \/ op i = C2S.WSClose Sample.c2s) /\
        is_Some (sockets s !! seq i)))) \/
     (op i = C2S.HTTPRequest Sample.c2s /\
      exists req resp,
        tryParseJSONPayload (Buf.slice msg (cursor i)) = Ret (Some req) /\
        Json.truthy (Some req) = true /\
        fetch Sample.breaking req = Ret resp /\
        errored resp = Some Sample.connection_lost /\
        snd (Sample.onMsg Sample.breaking msg s) =
          set_sent
            (fun l => l ++ unfinished_frames Sample.s2c (seq i)
                             {| status := status_or_500 (statusCode resp);
                                statusText := default [] (statusMessage resp);
                                headers := truthy_headers (headersDistinct resp) |}
                             (chunks resp))
            (set_controllers S s))).
Proof.
  apply (rejection_cases Sample.c2s Sample.s2c Sample.platform Sample.breaking
           Sample.get_example Sample.connection_lost initial).
  - exact sample_codes_distinct.
  - vm_compute. reflexivity.
Defined.

(** X21, on a [WSSendText] frame with the text [hi]. *)
Lemma text_round_trip_witness :
  Text.decode (Text.encode (str "hi")) = str "hi" /\
  heap (Sample.step one_socket (Message Sample.env Sample.text_example)) !! 0%nat
  = Some (push_outbox (SendText (str "hi")) Sample.example_socket).
Proof.
  apply (text_round_trip Sample.c2s Sample.s2c Sample.platform Sample.env
           Sample.text_example {| cursor := 3; seq := 7; op := 2 |} 0%nat
           Sample.example_socket (str "hi") one_socket).
  - exact sample_codes_distinct.
  - vm_compute. reflexivity.
  - reflexivity.
  - vm_compute. reflexivity.
  - vm_compute. reflexivity.
  - reflexivity.
  - vm_compute. reflexivity.
  - vm_compute. reflexivity.
Defined.

(** X23, on the first scenario, started after the third: the channel
    closes between the two chunks. The controller 0 of the third scenario
    is aborted, the controller 1 of the exchange is not. *)
Lemma close_while_streaming_witness :
  let send chunk :=
    bytes <- lift (Uint8Array_of Sample.platform chunk) ;;
    sendHTTPResponseChunk Sample.s2c 1 bytes in
  let rest :=
    for_await send (map Bytes [bytes "cd"]) (errored Sample.ok_response) ;;;
    sendHTTPResponseEnd Sample.s2c 1 in
  let s1 :=
    snd ((r <- handleHTTPRequest Sample.platform Sample.env Sample.get_payload ;;
          sendHTTPResponseStart Sample.s2c 1 (payload r) ;;;
          for_each send (map Bytes [bytes "ab"])) one_hook) in
  let s2 := snd (onClose s1) in
  let s3 := snd (rest s2) in
  let p :=
    {| status := status_or_500 (statusCode Sample.ok_response);
       statusText := default [] (statusMessage Sample.ok_response);
       headers := truthy_headers (headersDistinct Sample.ok_response) |} in
  (forall s',
     (for_await send (map Bytes (chunks Sample.ok_response))
        (errored Sample.ok_response) ;;;
      sendHTTPResponseEnd Sample.s2c 1) s'
     = (for_each send (map Bytes [bytes "ab"]) ;;; rest) s') /\
  aborted s3 = aborted one_hook ++ listeners one_hook /\
  listeners s3 = [] /\
  fst (rest s2) = Ret tt /\
  sent s3 = sent one_hook ++ exchange_frames Sample.s2c 1 p (chunks Sample.ok_response).
Proof.
  apply (close_while_streaming Sample.s2c Sample.platform Sample.env
           Sample.get_payload Sample.ok_response 1 [bytes "ab"] [bytes "cd"] one_hook);
    reflexivity.
Defined.

(** X24, on the close of the socket of the second scenario. *)
Lemma close_event_payload_parses_witness :
  exists buf,
    ws_onclose Sample.s2c 0 Sample.clean_close one_socket
    = (Ret tt, set_sent (fun l => l ++ [buf]) one_socket) /\
    tryParseJSONPayload (Buf.slice buf 3) =
    Ret (Some (Json.Object
      [(str "code",
        Json.Number {| Json.negative := false; Json.digits := 1000;
                       Json.exponent := 0 |});
       (str "reason", Json.String []);
       (str "wasClean", Json.Bool true)])).
Proof.
  apply (close_event_payload_parses Sample.s2c 0%nat Sample.example_socket 7
           Sample.clean_close one_socket).
  - vm_compute. reflexivity.
  - reflexivity.
  - vm_compute. reflexivity.
  - constructor.
Defined.

(** X25, on the start frame of the first scenario, with a header. *)
Lemma start_payload_parses_witness :
  let p := {| status := 200; statusText := str "OK";
              headers := [(str "content-type", [str "text/html"])] |} in
  exists buf,
    writes (sendHTTPResponseStart Sample.s2c 1 p) buf /\
    tryParseJSONPayload (Buf.slice buf 3) =
    Ret (Some (Json.Object
      [(str "status",
        Json.Number {| Json.negative := false; Json.digits := status p;
                       Json.exponent := 0 |});
       (str "statusText", Json.String (statusText p));
       (str "headers", parsed_headers (headers p))])).
Proof.
  apply (start_payload_parses Sample.s2c 1
           {| status := 200; statusText := str "OK";
              headers := [(str "content-type", [str "text/html"])] |}).
  - vm_compute. reflexivity.
  - repeat (apply Forall_cons; split; [reflexivity|]). constructor.
  - apply Forall_cons. split; [|constructor]. split.
    + repeat (apply Forall_cons; split; [reflexivity|]). constructor.
    + apply Forall_cons. split; [|constructor].
      repeat (apply Forall_cons; split; [reflexivity|]). constructor.
Defined.

End FurtherExamples.
